(** * Blockchain consensus simulator: ledger core, the four protocols and
      the network simulator

    A shallow embedding of [blockchain_consensus] (core/transaction.py,
    core/block.py, core/chain.py, consensus/base.py, consensus/pow.py,
    consensus/pos.py, consensus/dpos.py, consensus/pbft.py,
    network/node.py, network/simulator.py, simulation/scenarios.py).

    Python objects are records, mutation is explicit state passing, raised
    exceptions are the [Raise] outcome.  What Python takes from its runtime
    (SHA-256, the rendering of floats, the clock, the random generator and
    float arithmetic) is a variable of the section [Ledger]. *)

From Stdlib Require Import ZArith Lia Bool List Ascii String.
From Stdlib Require Import Decimal DecimalPos DecimalString DecimalZ Permutation.
From stdpp Require Import base list strings gmap sorting.

Local Open Scope Z_scope.

(** ** Python runtime pieces *)

Inductive exn : Type :=
| ValueError (msg : string)
| IndexError (msg : string)
| KeyError (key : string)
| ZeroDivisionError (msg : string).

(** The result of running a piece of code: a value, a raised exception, or
    a search that is still running when the step budget is spent. *)
Inductive outcome (A : Type) : Type :=
| Ret (a : A)
| Raise (e : exn)
| Running.

Arguments Ret {A} a.
Arguments Raise {A} e.
Arguments Running {A}.

Definition returns {A} (o : outcome A) : Prop := exists a, o = Ret a.

(** The value a call returned, or [default] when it did not return. *)
Definition value_of {A} (o : outcome A) (default : A) : A :=
  match o with
  | Ret a => a
  | Raise _ | Running => default
  end.

(** [str(n)] for a Python [int]. *)
Definition str_int (n : Z) : string := NilZero.string_of_int (Z.to_int n).

(** [s * n] for a string [s] and an [int] [n]; empty when [n <= 0]. *)
Fixpoint str_repeat (s : string) (n : nat) : string :=
  match n with
  | O => EmptyString
  | S k => s +:+ str_repeat s k
  end.

Definition str_mul (s : string) (n : Z) : string := str_repeat s (Z.to_nat n).

(** [s.startswith(t)]. *)
Definition startswith (s t : string) : bool := String.prefix t s.

(** [s[:n]], for text in ASCII (one character a byte), as the addresses
    of the scenarios, which are hexadecimal digests, are. *)
Definition str_take (n : nat) (s : string) : string := substring 0 n s.

(** [a or b] on an optional string: [None] and the empty string are falsy. *)
Definition str_or (a : option string) (b : string) : string :=
  match a with
  | Some s => if String.eqb s "" then b else s
  | None => b
  end.

(** [f"{x}"] for an optional string. *)
Definition str_opt (a : option string) : string :=
  match a with
  | Some s => s
  | None => "None"
  end.

(** [a == b] for two optional strings. *)
Definition opt_str_eqb (a b : option string) : bool :=
  match a, b with
  | Some x, Some y => String.eqb x y
  | None, None => true
  | _, _ => false
  end.

(** [l[i]] with Python's negative indices and [IndexError]. *)
Definition list_get {A} (l : list A) (i : Z) : outcome A :=
  let n := Z.of_nat (length l) in
  let j := if i <? 0 then i + n else i in
  if (j <? 0) || (n <=? j) then Raise (IndexError "list index out of range")
  else match nth_error l (Z.to_nat j) with
       | Some x => Ret x
       | None => Raise (IndexError "list index out of range")
       end.

(** [a % b] on Python ints. *)
Definition py_mod (a b : Z) : outcome Z :=
  if b =? 0 then Raise (ZeroDivisionError "integer modulo by zero")
  else Ret (a mod b).

(** Number of leading ['0'] characters of a string. *)
Fixpoint leading_zeros (s : string) : nat :=
  match s with
  | String c r => if Ascii.eqb c "0" then S (leading_zeros r) else O
  | EmptyString => O
  end.

(** ** A small runtime to run the model on

    Floats are integers printed in decimal, the clock and the random
    generator are a counter, and the hash is either the identity on the
    hashed text (which never collides) or a two-digit checksum of it
    (whose leading digit a nonce search can drive to zero). *)

Definition toy_str (x : Z) : string := str_int x.

Definition toy_fmt (digits : nat) (x : Z) : string := str_int x.

Definition plain_hex (data : string) : string := data.

Definition hex_digit (n : nat) : ascii :=
  match get (n mod 16) "0123456789abcdef" with
  | Some c => c
  | None => "0"%char
  end.

Fixpoint str_sum (s : string) : nat :=
  match s with
  | EmptyString => O
  | String c r => (nat_of_ascii c + str_sum r)%nat
  end.

Definition checksum_hex (data : string) : string :=
  let n := str_sum data in
  String (hex_digit n) (String (hex_digit (n / 16)) EmptyString).

Definition toy_time (w : nat) : Z * nat := (Z.of_nat w, S w).

Definition toy_rand (w : nat) : nat * nat := (w, S w).

Definition toy_sum (l : list Z) : Z := fold_right Z.add 0 l.

Definition toy_is_zero (x : Z) : bool := x =? 0.

(** A weighted draw that refuses a total that is not positive. *)
Definition toy_choices (weights : list Z) (w : nat) : outcome nat * nat :=
  if toy_sum weights <=? 0
  then (Raise (ValueError "Total of weights must be greater than zero"), w)
  else (Ret w, S w).

(** A draw of an amount that is always positive, and a reseeding of the
    counter. *)
Definition toy_uniform (w : nat) : Z * nat := (Z.of_nat w + 1, S w).

Definition toy_seed (n : Z) (w : nat) : nat := Z.to_nat n.

Section Ledger.

(** Python's [float], its rendering by [f"{x}"] and by [f"{x:.Nf}"]. *)
Context {float : Type}.
Variable str_float : float -> string.
Variable fmt_float : nat -> float -> string.

(** [hashlib.sha256(data.encode()).hexdigest()]. *)
Variable sha256_hex : string -> string.

(** The process state behind [time.time()] and the [random] module. *)
Context {World : Type}.
Variable time_time : World -> float * World.
Variable rand_raw : World -> nat * World.

(** ** core/transaction.py *)

Record Transaction : Type := mkTransaction {
  sender : string;
  recipient : string;
  amount : float;
  tx_timestamp : float;
  tx_id : option string
}.

Definition tx_compute_hash (tx : Transaction) : string :=
  sha256_hex (sender tx +:+ recipient tx +:+ str_float (amount tx)
              +:+ str_float (tx_timestamp tx)).

(** [Transaction(...)]: [model_post_init] fills a missing [tx_id]. *)
Definition Transaction_init (s r : string) (a t : float) (id : option string)
  : Transaction :=
  let tx := mkTransaction s r a t id in
  match id with
  | None => mkTransaction s r a t (Some (tx_compute_hash tx))
  | Some _ => tx
  end.

(** ** core/block.py *)

Record Block : Type := mkBlock {
  index : Z;
  timestamp : float;
  transactions : list Transaction;
  previous_hash : string;
  nonce : Z;
  validator : option string;
  hash : option string
}.

Definition set_hash (b : Block) (h : option string) : Block :=
  mkBlock (index b) (timestamp b) (transactions b) (previous_hash b)
          (nonce b) (validator b) h.

Definition set_nonce (b : Block) (n : Z) : Block :=
  mkBlock (index b) (timestamp b) (transactions b) (previous_hash b)
          n (validator b) (hash b).

Definition set_transactions (b : Block) (txs : list Transaction) : Block :=
  mkBlock (index b) (timestamp b) txs (previous_hash b)
          (nonce b) (validator b) (hash b).

(** ["".join(tx.tx_id or tx.compute_hash() for tx in self.transactions)] *)
Definition tx_key (tx : Transaction) : string :=
  str_or (tx_id tx) (tx_compute_hash tx).

Fixpoint tx_data (txs : list Transaction) : string :=
  match txs with
  | [] => EmptyString
  | tx :: r => tx_key tx +:+ tx_data r
  end.

Definition block_data (b : Block) : string :=
  str_int (index b) +:+ str_float (timestamp b) +:+ tx_data (transactions b)
  +:+ previous_hash b +:+ str_int (nonce b) +:+ str_opt (validator b).

Definition compute_hash (b : Block) : string := sha256_hex (block_data b).

(** [Block.mine]: the [while True] loop, run for at most [fuel] hash
    checks.  The block comes back as the loop left it. *)
Fixpoint mine (fuel : nat) (difficulty : Z) (b : Block)
  : outcome string * Block :=
  match fuel with
  | O => (Running, b)
  | S k =>
      let candidate_hash := compute_hash b in
      if startswith candidate_hash (str_mul "0" difficulty)
      then (Ret candidate_hash, set_hash b (Some candidate_hash))
      else mine k difficulty (set_nonce b (nonce b + 1))
  end.

Definition genesis_draft (t0 : float) : Block :=
  mkBlock 0 t0 [] (str_mul "0" 64) 0 (Some "genesis") None.

(** [Block.genesis()]; [t0] is the float [0.0]. *)
Definition genesis (t0 : float) : Block :=
  set_hash (genesis_draft t0) (Some (compute_hash (genesis_draft t0))).

(** ** core/chain.py *)

Record Blockchain : Type := mkBlockchain {
  chain : list Block;
  pending_transactions : list Transaction;
  bc_difficulty : Z
}.

Definition set_chain (bc : Blockchain) (c : list Block) : Blockchain :=
  mkBlockchain c (pending_transactions bc) (bc_difficulty bc).

(** [Blockchain(...)]: [model_post_init] seeds an empty chain with genesis. *)
Definition Blockchain_init (t0 : float) (c : list Block)
    (pending : list Transaction) (d : Z) : Blockchain :=
  match c with
  | [] => mkBlockchain [genesis t0] pending d
  | _ => mkBlockchain c pending d
  end.

Definition latest_block (bc : Blockchain) : outcome Block :=
  list_get (chain bc) (-1).

Definition height (bc : Blockchain) : Z := Z.of_nat (length (chain bc)).

Definition add_transaction (bc : Blockchain) (tx : Transaction) : Blockchain :=
  mkBlockchain (chain bc) (pending_transactions bc ++ [tx]) (bc_difficulty bc).

(** [Blockchain.add_block]: the returned flag and the chain afterwards. *)
Definition add_block (bc : Blockchain) (b : Block) : outcome bool * Blockchain :=
  match latest_block bc with
  | Raise e => (Raise e, bc)
  | Running => (Running, bc)
  | Ret latest =>
      if negb (opt_str_eqb (Some (previous_hash b)) (hash latest))
      then (Ret false, bc)
      else match hash b with
           | None => (Ret false, bc)
           | Some h =>
               if negb (String.eqb h (compute_hash b))
               then (Ret false, bc)
               else (Ret true, set_chain bc (chain bc ++ [b]))
           end
  end.

(** [Blockchain.create_next_block]: the draft, the chain object afterwards
    (its pool is drained when no transactions are supplied) and the world
    after the clock was read for the draft's timestamp. *)
Definition create_next_block (bc : Blockchain)
    (txs_arg : option (list Transaction)) (v : option string) (w : World)
  : outcome Block * Blockchain * World :=
  let txs := match txs_arg with
             | Some l => l
             | None => pending_transactions bc
             end in
  match latest_block bc with
  | Raise e => (Raise e, bc, w)
  | Running => (Running, bc, w)
  | Ret latest =>
      let (now, w1) := time_time w in
      let b := mkBlock (height bc) now txs (str_or (hash latest) "") 0 v None in
      let bc1 := match txs_arg with
                 | Some _ => bc
                 | None => mkBlockchain (chain bc) [] (bc_difficulty bc)
                 end in
      (Ret b, bc1, w1)
  end.

(** [Blockchain.is_valid]: the loop over [i = 1 .. len-1], carried as the
    pair (previous, current). *)
Fixpoint is_valid_from (previous : Block) (rest : list Block) : bool :=
  match rest with
  | [] => true
  | current :: tl =>
      if negb (opt_str_eqb (hash current) (Some (compute_hash current)))
      then false
      else if negb (opt_str_eqb (Some (previous_hash current)) (hash previous))
      then false
      else is_valid_from current tl
  end.

Definition is_valid (bc : Blockchain) : bool :=
  match chain bc with
  | [] => true
  | first :: rest => is_valid_from first rest
  end.


(** What [add_block] checks of a candidate against the latest block. *)
Definition admissible (latest b : Block) : Prop :=
  Some (previous_hash b) = hash latest /\ hash b = Some (compute_hash b).

(** The block [Block.mine] is looking at after [k] failed checks. *)
Definition bump (k : nat) (b : Block) : Block :=
  set_nonce b (nonce b + Z.of_nat k).

(** The three ways the claim of the admission gate names for a candidate
    to be turned away. *)
Definition turned_away (latest b : Block) : Prop :=
  Some (previous_hash b) <> hash latest
  \/ hash b = None
  \/ hash b <> Some (compute_hash b).

(** [block.hash is not None] *)
Definition has_hash (b : Block) : bool :=
  match hash b with Some _ => true | None => false end.

(** The two checks [is_valid] makes of a block against its predecessor. *)
Definition link_ok (previous current : Block) : bool :=
  opt_str_eqb (hash current) (Some (compute_hash current))
  && opt_str_eqb (Some (previous_hash current)) (hash previous).

(** Two blocks [is_valid] cannot tell apart: same stored hash, same
    previous hash, same recomputed hash. *)
Definition reads_alike (b b' : Block) : Prop :=
  hash b' = hash b
  /\ previous_hash b' = previous_hash b
  /\ compute_hash b' = compute_hash b.

(** A block of the history altered after it was appended: its nonce
    changed, or one of its transactions replaced by one with another id.
    The stored hash is left as it was. *)
Inductive tampered (b : Block) : Block -> Prop :=
| tamper_nonce (n' : Z) :
    n' <> nonce b -> tampered b (set_nonce b n')
| tamper_transaction (before after : list Transaction) (tx tx' : Transaction) :
    transactions b = before ++ tx :: after ->
    tx_key tx' <> tx_key tx ->
    tampered b (set_transactions b (before ++ tx' :: after)).

(** The chains a program can reach: a fresh chain seeded with genesis,
    grown by accepted appends. *)
Inductive built : Blockchain -> Prop :=
| built_genesis (t0 : float) (pending : list Transaction) (d : Z) :
    built (Blockchain_init t0 [] pending d)
| built_add (bc bc' : Blockchain) (b : Block) :
    built bc -> add_block bc b = (Ret true, bc') -> built bc'
| built_pool (bc : Blockchain) (pending : list Transaction) :
    built bc -> built (mkBlockchain (chain bc) pending (bc_difficulty bc)).

(** The hash function does not collide on the texts of [texts]: two of
    them with the same digest are the same text. *)
Definition no_collision_among (texts : list string) : Prop :=
  forall x y : string,
    x ∈ texts -> y ∈ texts -> sha256_hex x = sha256_hex y -> x = y.

(** ** Python dictionaries

    A [dict] keeps its keys in insertion order; assigning to a key that is
    present keeps the key's position. *)

Fixpoint dict_get {V} (d : list (string * V)) (k : string) : option V :=
  match d with
  | [] => None
  | (k', v) :: r => if String.eqb k' k then Some v else dict_get r k
  end.

Fixpoint dict_set {V} (d : list (string * V)) (k : string) (v : V)
  : list (string * V) :=
  match d with
  | [] => [(k, v)]
  | (k', v') :: r =>
      if String.eqb k' k then (k', v) :: r else (k', v') :: dict_set r k v
  end.

Definition dict_values {V} (d : list (string * V)) : list V := map snd d.

(** [{key(x): value(x) for x in l}] *)
Definition dict_comprehension {A V} (key : A -> string) (value : A -> V)
    (l : list A) : list (string * V) :=
  fold_left (fun d x => dict_set d (key x) (value x)) l [].

(** [d[k]] *)
Definition dict_item {V} (d : list (string * V)) (k : string) : outcome V :=
  match dict_get d k with
  | Some v => Ret v
  | None => Raise (KeyError k)
  end.

(** ** The [random] module, over the raw draws of the world *)

(** [random.choice(l)] *)
Definition random_choice {A} (l : list A) (w : World) : outcome A * World :=
  match l with
  | [] => (Raise (IndexError "Cannot choose from an empty sequence"), w)
  | _ :: _ =>
      let (r, w1) := rand_raw w in
      (list_get l (Z.of_nat (r mod length l)), w1)
  end.

(** [random.sample(population, k)]: [k] draws without replacement, each
    taking one position of what is left of the population. *)
Fixpoint sample_loop {A} (k : nat) (pool : list A) (w : World)
  : list A * World :=
  match k with
  | O => ([], w)
  | S k' =>
      let (r, w1) := rand_raw w in
      let j := (r mod length pool)%nat in
      match pool !! j with
      | Some x =>
          let (rest, w2) := sample_loop k' (delete j pool) w1 in
          (x :: rest, w2)
      | None => ([], w1)
      end
  end.

Definition random_sample {A} (population : list A) (k : Z) (w : World)
  : outcome (list A) * World :=
  if (k <? 0) || (Z.of_nat (length population) <? k)
  then (Raise (ValueError "Sample larger than population or is negative"), w)
  else let (l, w1) := sample_loop (Z.to_nat k) population w in (Ret l, w1).

(** [x[i], x[j] = x[j], x[i]] *)
Definition list_swap {A} (i j : nat) (x : list A) : list A :=
  match x !! i, x !! j with
  | Some a, Some b => <[j := a]> (<[i := b]> x)
  | _, _ => x
  end.

(** [random.shuffle(x)]:
    [for i in reversed(range(1, len(x))): j = randbelow(i + 1); swap]. *)
Fixpoint shuffle_from {A} (i : nat) (x : list A) (w : World)
  : list A * World :=
  match i with
  | O => (x, w)
  | S i' =>
      let (r, w1) := rand_raw w in
      let j := (r mod (S i))%nat in
      shuffle_from i' (list_swap i j x) w1
  end.

Definition random_shuffle {A} (x : list A) (w : World) : list A * World :=
  shuffle_from (length x - 1) x w.

(** ** consensus/base.py *)

Record ConsensusResult : Type := mkResult {
  success : bool;
  block : option Block;
  proposer : option string;
  rounds : Z;
  message : string
}.

(** One call of a method of a protocol object with state [S]: the outcome,
    the protocol object, the chain object and the world afterwards.  An
    exception leaves every object as it was when it was raised. *)
Definition M (S A : Type) : Type :=
  S -> Blockchain -> World -> outcome A * S * Blockchain * World.

Definition ret {S A} (a : A) : M S A := fun s bc w => (Ret a, s, bc, w).

Definition bind {S A B} (m : M S A) (k : A -> M S B) : M S B :=
  fun s bc w =>
    match m s bc w with
    | (Ret a, s1, bc1, w1) => k a s1 bc1 w1
    | (Raise e, s1, bc1, w1) => (Raise e, s1, bc1, w1)
    | (Running, s1, bc1, w1) => (Running, s1, bc1, w1)
    end.

Notation "'perform' x <- m ;; k" := (bind m (fun x => k))
  (at level 10, x name, m at level 99, k at level 200).

Definition lift {S A} (o : outcome A) : M S A := fun s bc w => (o, s, bc, w).

Definition get_self {S} : M S S := fun s bc w => (Ret s, s, bc, w).

Definition put_self {S} (s' : S) : M S unit := fun _ bc w => (Ret tt, s', bc, w).

(** An action on the chain object. *)
Definition on_chain {S A} (f : Blockchain -> outcome A * Blockchain) : M S A :=
  fun s bc w => let (o, bc1) := f bc in (o, s, bc1, w).

(** An action on the world: the clock or the random generator. *)
Definition on_world {S A} (f : World -> outcome A * World) : M S A :=
  fun s bc w => let (o, w1) := f w in (o, s, bc, w1).

Definition now {S} : M S float :=
  on_world (fun w => let (t, w1) := time_time w in (Ret t, w1)).

Definition next_block {S} (txs : option (list Transaction)) (v : option string)
  : M S Block :=
  fun s bc w =>
    match create_next_block bc txs v w with
    | (o, bc1, w1) => (o, s, bc1, w1)
    end.

(** The interface of consensus/base.py: [run_round(blockchain,
    transactions, nodes)].  [fuel] bounds the hash checks of a mining
    search; the other protocols do not look at it. *)
Class ConsensusProtocol (S : Type) : Type := {
  name : string;
  run_round : nat -> list Transaction -> list string -> M S ConsensusResult
}.

(** A protocol object driven through several rounds, as the simulation
    runner does: the results of the rounds that returned, in order, and
    the objects after the last of them.  A round that raises ends the run. *)
Fixpoint run_rounds {S} `{ConsensusProtocol S} (fuel : nat)
    (inputs : list (list Transaction * list string))
    (self : S) (bc : Blockchain) (w : World)
  : list ConsensusResult * S * Blockchain * World :=
  match inputs with
  | [] => ([], self, bc, w)
  | (txs, nodes) :: rest =>
      match run_round fuel txs nodes self bc w with
      | (Ret r, self1, bc1, w1) =>
          match run_rounds fuel rest self1 bc1 w1 with
          | (rs, self2, bc2, w2) => (r :: rs, self2, bc2, w2)
          end
      | (_, self1, bc1, w1) => ([], self1, bc1, w1)
      end
  end.

(** ** consensus/pow.py *)

Variable fsub : float -> float -> float.

Record ProofOfWork : Type := mkPoW { difficulty : Z }.

Definition pow_message (miner : string) (b : Block) (elapsed : float)
    (d : Z) : string :=
  "Miner " +:+ str_take 8 miner +:+ ".. found nonce=" +:+ str_int (nonce b)
  +:+ " in " +:+ fmt_float 4 elapsed +:+ "s (difficulty=" +:+ str_int d
  +:+ "). Block #" +:+ str_int (index b) +:+ " added.".

Definition pow_run_round (fuel : nat) (txs : list Transaction)
    (nodes : list string) : M ProofOfWork ConsensusResult :=
  match nodes with
  | [] => ret (mkResult false None None 1 "No miners available.")
  | _ :: _ =>
      perform self <- get_self ;;
      perform miner <- on_world (random_choice nodes) ;;
      perform draft <- next_block (Some txs) (Some miner) ;;
      perform start <- now ;;
      let (mined, b) := mine fuel (difficulty self) draft in
      perform _ <- lift mined ;;
      perform stop <- now ;;
      let elapsed := fsub stop start in
      perform added <- on_chain (fun bc => add_block bc b) ;;
      ret (mkResult added (Some b) (Some miner) 1
             (pow_message miner b elapsed (difficulty self)))
  end.

#[export] Instance PoW_protocol : ConsensusProtocol ProofOfWork := {
  name := "Proof of Work (PoW)";
  run_round := pow_run_round
}.

(** ** consensus/pos.py *)

Variable fmul : float -> float -> float.
Variable fadd : float -> float -> float.
Variable fone : float.
Variable float_of_int : Z -> float.
(** [sum(weights)] and [total == 0]. *)
Variable fsum : list float -> float.
Variable f_eq_zero : float -> bool.
(** The position [random.choices(population, weights=weights, k=1)] picks,
    or the [ValueError] it raises on weights it rejects. *)
Variable choices_draw : list float -> World -> outcome nat * World.

Record StakeInfo : Type := mkStakeInfo {
  si_address : string;
  stake : float;
  age : Z
}.

Record ProofOfStake : Type := mkPoS {
  validators : list (string * StakeInfo);
  age_factor : float
}.

(** [ProofOfStake(stakes, age_factor)], for stakes that pass the check
    [ge=0] of [StakeInfo] (on a negative stake the constructor raises);
    the age factor is taken as it comes. *)
Definition ProofOfStake_init (stakes : list (string * float)) (af : float)
  : ProofOfStake :=
  mkPoS (dict_comprehension fst (fun kv => mkStakeInfo (fst kv) (snd kv) 0) stakes)
        af.

Definition effective_stake (af : float) (info : StakeInfo) : float :=
  fmul (stake info) (fadd fone (fmul af (float_of_int (age info)))).

Definition random_choices (population : list string) (weights : list float)
    (w : World) : outcome string * World :=
  match choices_draw weights w with
  | (Ret i, w1) =>
      (list_get population (Z.of_nat (i mod length population)), w1)
  | (Raise e, w1) => (Raise e, w1)
  | (Running, w1) => (Running, w1)
  end.

Definition select_validator : M ProofOfStake string :=
  perform self <- get_self ;;
  let infos := dict_values (validators self) in
  let weights := map (effective_stake (age_factor self)) infos in
  let addresses := map si_address infos in
  let total := fsum weights in
  if f_eq_zero total then on_world (random_choice addresses)
  else on_world (random_choices addresses weights).

(** The loop that resets the proposer's age and ages everyone else. *)
Definition age_step (proposer : string) (kv : string * StakeInfo)
  : string * StakeInfo :=
  let (addr, v) := kv in
  if String.eqb addr proposer then (addr, mkStakeInfo (si_address v) (stake v) 0)
  else (addr, mkStakeInfo (si_address v) (stake v) (age v + 1)).

Definition pos_message (proposer : string) (info : StakeInfo) (b : Block)
  : string :=
  "Validator " +:+ str_take 8 proposer +:+ ".. selected (stake="
  +:+ fmt_float 1 (stake info) +:+ ", age=" +:+ str_int (age info)
  +:+ "). Block #" +:+ str_int (index b) +:+ " added.".

Definition pos_run_round (fuel : nat) (txs : list Transaction)
    (nodes : list string) : M ProofOfStake ConsensusResult :=
  perform self <- get_self ;;
  match validators self with
  | [] => ret (mkResult false None None 1 "No validators registered.")
  | _ :: _ =>
      perform proposer <- select_validator ;;
      perform _ <- lift (dict_item (validators self) proposer) ;;
      perform draft <- next_block (Some txs) (Some proposer) ;;
      let b := set_hash draft (Some (compute_hash draft)) in
      perform added <- on_chain (fun bc => add_block bc b) ;;
      perform _ <- (if added : bool
                    then put_self (mkPoS (map (age_step proposer)
                                              (validators self))
                                         (age_factor self))
                    else ret tt) ;;
      perform self1 <- get_self ;;
      (* [info] is the object held by the dict, read after the loop *)
      perform info <- lift (dict_item (validators self1) proposer) ;;
      ret (mkResult added (Some b) (Some proposer) 1
             (pos_message proposer info b))
  end.

#[export] Instance PoS_protocol : ConsensusProtocol ProofOfStake := {
  name := "Proof of Stake (PoS)";
  run_round := pos_run_round
}.

(** ** consensus/dpos.py *)

(** [a < b] on floats, the comparison [sorted] uses on the vote keys. *)
Variable flt : float -> float -> bool.

Record Delegate : Type := mkDelegate {
  d_address : string;
  votes : float;
  blocks_produced : Z
}.

Record DelegatedProofOfStake : Type := mkDPoS {
  candidates : list (string * Delegate);
  num_delegates : Z;
  active_delegates : list string;
  round_index : Z
}.

(** [sorted(l, key=lambda d: d.votes, reverse=True)]: stable, so a
    candidate goes behind every earlier one whose votes are not smaller. *)
Fixpoint insert_by_votes (x : Delegate) (l : list Delegate) : list Delegate :=
  match l with
  | [] => [x]
  | y :: r => if flt (votes y) (votes x) then x :: y :: r
              else y :: insert_by_votes x r
  end.

Definition sorted_by_votes (l : list Delegate) : list Delegate :=
  fold_left (fun acc x => insert_by_votes x acc) l [].

(** [l[:k]] *)
Definition slice_to {A} (l : list A) (k : Z) : list A :=
  if k <? 0 then take (Z.to_nat (Z.of_nat (length l) + k)) l
  else take (Z.to_nat k) l.

Definition elect_delegates (self : DelegatedProofOfStake) (w : World)
  : DelegatedProofOfStake * World :=
  let sorted_candidates := sorted_by_votes (dict_values (candidates self)) in
  let top := map d_address (slice_to sorted_candidates (num_delegates self)) in
  let (shuffled, w1) := random_shuffle top w in
  (mkDPoS (candidates self) (num_delegates self) shuffled (round_index self), w1).

Definition DelegatedProofOfStake_init (votes_in : list (string * float))
    (n : Z) (w : World) : DelegatedProofOfStake * World :=
  elect_delegates
    (mkDPoS (dict_comprehension fst (fun kv => mkDelegate (fst kv) (snd kv) 0)
               votes_in)
            n [] 0)
    w.

Definition current_delegate (self : DelegatedProofOfStake)
  : outcome (option string) :=
  match active_delegates self with
  | [] => Ret None
  | _ :: _ =>
      match py_mod (round_index self)
                   (Z.of_nat (length (active_delegates self))) with
      | Ret i => match list_get (active_delegates self) i with
                 | Ret d => Ret (Some d)
                 | Raise e => Raise e
                 | Running => Running
                 end
      | Raise e => Raise e
      | Running => Running
      end
  end.

Definition produced (d : Delegate) : Delegate :=
  mkDelegate (d_address d) (votes d) (blocks_produced d + 1).

Definition dpos_message (delegate : string) (info : option Delegate)
    (b : Block) (slot : Z) : string :=
  let votes_str := match info with
                   | Some d => fmt_float 1 (votes d)
                   | None => "?"
                   end in
  "Delegate " +:+ str_take 8 delegate +:+ ".. (votes=" +:+ votes_str
  +:+ ") produced Block #" +:+ str_int (index b) +:+ " [round-robin slot "
  +:+ str_int slot +:+ "].".

Definition dpos_run_round (fuel : nat) (txs : list Transaction)
    (nodes : list string) : M DelegatedProofOfStake ConsensusResult :=
  perform self <- get_self ;;
  perform turn <- lift (current_delegate self) ;;
  match turn with
  | None => ret (mkResult false None None 1 "No active delegates elected.")
  | Some delegate =>
      perform draft <- next_block (Some txs) (Some delegate) ;;
      let b := set_hash draft (Some (compute_hash draft)) in
      perform added <- on_chain (fun bc => add_block bc b) ;;
      let candidates1 :=
        match dict_get (candidates self) delegate with
        | Some d => if added : bool
                    then dict_set (candidates self) delegate (produced d)
                    else candidates self
        | None => candidates self
        end in
      let self1 := mkDPoS candidates1 (num_delegates self)
                         (active_delegates self) (round_index self + 1) in
      perform _ <- put_self self1 ;;
      let delegate_info := dict_get candidates1 delegate in
      perform slot <- lift (py_mod (round_index self1 - 1)
                              (Z.of_nat (length (active_delegates self1)))) ;;
      ret (mkResult added (Some b) (Some delegate) 1
             (dpos_message delegate delegate_info b slot))
  end.

#[export] Instance DPoS_protocol : ConsensusProtocol DelegatedProofOfStake := {
  name := "Delegated Proof of Stake (DPoS)";
  run_round := dpos_run_round
}.

(** ** consensus/pbft.py *)

Inductive MessageType : Type := PRE_PREPARE | PREPARE | COMMIT.

Record PBFTMessage : Type := mkMessage {
  msg_type : MessageType;
  msg_sender : string;
  block_hash : string;
  view : Z
}.

Record PBFTNode : Type := mkNode {
  address : string;
  is_byzantine : bool;
  prepares_received : gset string;
  commits_received : gset string;
  prepared : bool;
  committed : bool
}.

Record PracticalBFT : Type := mkPBFT {
  node_list : list string;
  byzantine_count : Z;
  pbft_view : Z;
  pbft_nodes : list (string * PBFTNode)
}.

Definition tolerance_message (n f : Z) : string :=
  "PBFT tolerates at most f=floor((n-1)/3) Byzantine nodes. n=" +:+ str_int n
  +:+ ", max f=" +:+ str_int ((n - 1) / 3) +:+ ", got " +:+ str_int f +:+ ".".

(** [PracticalBFT(nodes, byzantine_nodes)] *)
Definition PracticalBFT_init (nodes : list string) (byzantine_nodes : Z)
    (w : World) : outcome PracticalBFT * World :=
  let n := Z.of_nat (length nodes) in
  if (n - 1) / 3 <? byzantine_nodes
  then (Raise (ValueError (tolerance_message n byzantine_nodes)), w)
  else
    match random_sample nodes byzantine_nodes w with
    | (Ret picked, w1) =>
        let byzantine_set : gset string := list_to_set picked in
        (Ret (mkPBFT nodes byzantine_nodes 0
                (dict_comprehension (fun addr => addr)
                   (fun addr => mkNode addr (bool_decide (addr ∈ byzantine_set))
                                       ∅ ∅ false false)
                   nodes)),
         w1)
    | (Raise e, w1) => (Raise e, w1)
    | (Running, w1) => (Running, w1)
    end.

Definition quorum (self : PracticalBFT) : Z := 2 * byzantine_count self + 1.

(** Apply a per-node update to every value of the node table. *)
Definition each_node (f : PBFTNode -> PBFTNode)
    (d : list (string * PBFTNode)) : list (string * PBFTNode) :=
  map (fun kv => (fst kv, f (snd kv))) d.

Definition reset_node (node : PBFTNode) : PBFTNode :=
  mkNode (address node) (is_byzantine node) ∅ ∅ false false.

Definition reset_round (self : PracticalBFT) : PracticalBFT :=
  mkPBFT (node_list self) (byzantine_count self) (pbft_view self)
         (each_node reset_node (pbft_nodes self)).

Definition phase_pre_prepare (self : PracticalBFT) (leader : string)
    (b : Block) : list PBFTMessage :=
  [mkMessage PRE_PREPARE leader (compute_hash b) (pbft_view self)].

Definition phase_prepare (self : PracticalBFT) (h : string)
  : list PBFTMessage :=
  map (fun node => mkMessage PREPARE (address node) h (pbft_view self))
      (filter (fun node => is_byzantine node = false)
              (dict_values (pbft_nodes self))).

Definition can_commit (self : PracticalBFT) (node : PBFTNode) : bool :=
  negb (is_byzantine node)
  && (quorum self <=? Z.of_nat (size (prepares_received node))).

Definition mark_prepared (self : PracticalBFT) (node : PBFTNode) : PBFTNode :=
  if can_commit self node
  then mkNode (address node) (is_byzantine node) (prepares_received node)
              (commits_received node) true (committed node)
  else node.

(** [_phase_commit]: the COMMIT messages and the object with the
    [prepared] flags set. *)
Definition phase_commit (self : PracticalBFT) (h : string)
  : list PBFTMessage * PracticalBFT :=
  (map (fun node => mkMessage COMMIT (address node) h (pbft_view self))
       (filter (fun node => can_commit self node = true)
               (dict_values (pbft_nodes self))),
   mkPBFT (node_list self) (byzantine_count self) (pbft_view self)
          (each_node (mark_prepared self) (pbft_nodes self))).

Definition receive_prepare (from : string) (node : PBFTNode) : PBFTNode :=
  mkNode (address node) (is_byzantine node) ({[from]} ∪ prepares_received node)
         (commits_received node) (prepared node) (committed node).

Definition receive_commit (from : string) (node : PBFTNode) : PBFTNode :=
  mkNode (address node) (is_byzantine node) (prepares_received node)
         ({[from]} ∪ commits_received node) (prepared node) (committed node).

(** [for msg in msgs: for node in self.pbft_nodes.values(): receive] *)
Definition distribute (receive : string -> PBFTNode -> PBFTNode)
    (msgs : list PBFTMessage) (d : list (string * PBFTNode))
  : list (string * PBFTNode) :=
  fold_left (fun d msg => each_node (receive (msg_sender msg)) d) msgs d.

Definition with_nodes (self : PracticalBFT) (d : list (string * PBFTNode))
  : PracticalBFT :=
  mkPBFT (node_list self) (byzantine_count self) (pbft_view self) d.

Definition next_view (self : PracticalBFT) : PracticalBFT :=
  mkPBFT (node_list self) (byzantine_count self) (pbft_view self + 1)
         (pbft_nodes self).

Definition has_committed (self : PracticalBFT) (node : PBFTNode) : bool :=
  (quorum self <=? Z.of_nat (size (commits_received node)))
  && negb (is_byzantine node).

Definition committed_count (self : PracticalBFT) : Z :=
  Z.of_nat (length (filter (fun node => has_committed self node = true)
                           (dict_values (pbft_nodes self)))).

Definition pbft_success_message (leader : string) (prepares commits : nat)
    (f n : Z) (b : Block) : string :=
  "PBFT consensus reached in " +:+ str_int 3 +:+ " phases. Leader="
  +:+ str_take 8 leader +:+ ".., prepares=" +:+ str_int (Z.of_nat prepares)
  +:+ ", commits=" +:+ str_int (Z.of_nat commits) +:+ ", byzantine="
  +:+ str_int f +:+ "/" +:+ str_int n +:+ ". Block #" +:+ str_int (index b)
  +:+ " finalized.".

Definition pbft_failure_message (count q f n : Z) : string :=
  "PBFT failed to reach consensus. Only " +:+ str_int count +:+ "/"
  +:+ str_int q +:+ " nodes committed (byzantine=" +:+ str_int f +:+ "/"
  +:+ str_int n +:+ ").".

Definition pbft_run_round (fuel : nat) (txs : list Transaction)
    (nodes : list string) : M PracticalBFT ConsensusResult :=
  perform self0 <- get_self ;;
  let self1 := reset_round self0 in
  perform _ <- put_self self1 ;;
  let n := Z.of_nat (length (node_list self1)) in
  let f := byzantine_count self1 in
  perform i <- lift (py_mod (pbft_view self1) n) ;;
  perform leader <- lift (list_get (node_list self1) i) ;;
  perform draft <- next_block (Some txs) (Some leader) ;;
  let h := compute_hash draft in
  let b := set_hash draft (Some h) in
  let pre_prepare_msgs := phase_pre_prepare self1 leader b in
  let prepare_msgs := phase_prepare self1 h in
  let self2 :=
    with_nodes self1 (distribute receive_prepare prepare_msgs (pbft_nodes self1)) in
  let (commit_msgs, self3) := phase_commit self2 h in
  let self4 :=
    with_nodes self3 (distribute receive_commit commit_msgs (pbft_nodes self3)) in
  perform _ <- put_self self4 ;;
  let count := committed_count self4 in
  let total_phases := 3 in
  if quorum self4 <=? count
  then
    perform added <- on_chain (fun bc => add_block bc b) ;;
    perform _ <- put_self (next_view self4) ;;
    ret (mkResult added (Some b) (Some leader) total_phases
           (pbft_success_message leader (length prepare_msgs)
              (length commit_msgs) f n b))
  else
    perform _ <- put_self (next_view self4) ;;
    ret (mkResult false None (Some leader) total_phases
           (pbft_failure_message count (quorum self4) f n)).

#[export] Instance PBFT_protocol : ConsensusProtocol PracticalBFT := {
  name := "Practical Byzantine Fault Tolerance (PBFT)";
  run_round := pbft_run_round
}.

(** The outcome of a call, apart from the objects it leaves behind. *)
Definition outcome_of {S A} (r : outcome A * S * Blockchain * World)
  : outcome A :=
  fst (fst (fst r)).

(** ** What the protocol contract asks of a round *)

(** The chain after a call is the chain before it, or that chain with one
    block more; a returned result says which in its [success] flag, and
    the block it appended is the one the result carries.  A call that
    raises, or a search that has not finished, has not touched the chain.
    The pending pool and the base difficulty are never touched. *)
Definition side_effect_consistent {S} (P : ConsensusProtocol S) : Prop :=
  forall (fuel : nat) (txs : list Transaction) (nodes : list string)
         (self : S) (bc : Blockchain) (w : World),
    match run_round fuel txs nodes self bc w with
    | (o, _, bc', _) =>
        pending_transactions bc' = pending_transactions bc
        /\ bc_difficulty bc' = bc_difficulty bc
        /\ match o with
           | Ret r =>
               (success r = true
                /\ exists b, block r = Some b /\ chain bc' = chain bc ++ [b])
               \/ (success r = false /\ chain bc' = chain bc)
           | Raise _ | Running => chain bc' = chain bc
           end
    end.

(** The draft a PoW round mines on. *)
Definition pow_draft (txs : list Transaction) (nodes : list string)
    (bc : Blockchain) (w : World) : outcome Block :=
  match random_choice nodes w with
  | (Ret miner, w1) =>
      match create_next_block bc (Some txs) (Some miner) w1 with
      | (o, _, _) => o
      end
  | (Raise e, _) => Raise e
  | (Running, _) => Running
  end.

(** The mining search of a PoW round ends within the step budget. *)
Definition pow_search_ends (fuel : nat) (self : ProofOfWork)
    (txs : list Transaction) (nodes : list string) (bc : Blockchain)
    (w : World) : Prop :=
  nodes = []
  \/ exists draft, pow_draft txs nodes bc w = Ret draft
       /\ returns (fst (mine fuel (difficulty self) draft)).

(** Every entry of the stake table sits under its own address, as the
    constructor builds it. *)
Definition pos_well_formed (self : ProofOfStake) : Prop :=
  Forall (fun kv => si_address (snd kv) = fst kv) (validators self).

(** [random.choices] accepts the weights of the stake table. *)
Definition pos_draw_accepted (self : ProofOfStake) (w : World) : Prop :=
  let weights :=
    map (effective_stake (age_factor self)) (dict_values (validators self)) in
  f_eq_zero (fsum weights) = false ->
  returns (fst (choices_draw weights w)).

(** The protocol objects a program can hold after any number of rounds,
    whatever chains, transactions and node lists the rounds were given. *)
Inductive reachable {S} `{ConsensusProtocol S} (s0 : S) : S -> Prop :=
| reach_start : reachable s0 s0
| reach_round (s s' : S) (fuel : nat) (txs : list Transaction)
    (nodes : list string) (bc bc' : Blockchain) (w w' : World)
    (o : outcome ConsensusResult) :
    reachable s0 s ->
    run_round fuel txs nodes s bc w = (o, s', bc', w') ->
    reachable s0 s'.

(** The addresses of the validators that are not Byzantine, in the order
    of the node table. *)
Definition honest_addresses (self : PracticalBFT) : list string :=
  map address (filter (fun node => is_byzantine node = false)
                      (dict_values (pbft_nodes self))).

(** The honest validators are distinct and enough for a quorum. *)
Definition pbft_live (self : PracticalBFT) : Prop :=
  node_list self <> []
  /\ NoDup (honest_addresses self)
  /\ quorum self <= Z.of_nat (length (honest_addresses self)).

(** A node after it has received the PREPAREs, or the COMMITs, of a set
    of senders. *)
Definition with_prepares (senders : gset string) (node : PBFTNode) : PBFTNode :=
  mkNode (address node) (is_byzantine node) (senders ∪ prepares_received node)
         (commits_received node) (prepared node) (committed node).

Definition with_commits (senders : gset string) (node : PBFTNode) : PBFTNode :=
  mkNode (address node) (is_byzantine node) (prepares_received node)
         (senders ∪ commits_received node) (prepared node) (committed node).

(** The senders every validator has heard from once the honest ones have
    all broadcast. *)
Definition heard (self : PracticalBFT) : gset string :=
  list_to_set (honest_addresses self).

(** An update of a node that leaves who it is and whether it is Byzantine. *)
Definition keeps_identity (f : PBFTNode -> PBFTNode) : Prop :=
  forall node, address (f node) = address node
               /\ is_byzantine (f node) = is_byzantine node.

(** The protocol object after the PREPARE messages of a round have been
    delivered, and after its COMMIT messages have been. *)
Definition after_prepare (self1 : PracticalBFT) (h : string) : PracticalBFT :=
  with_nodes self1
    (distribute receive_prepare (phase_prepare self1 h) (pbft_nodes self1)).

Definition after_commit (self1 : PracticalBFT) (h : string) : PracticalBFT :=
  let self2 := after_prepare self1 h in
  let (commit_msgs, self3) := phase_commit self2 h in
  with_nodes self3 (distribute receive_commit commit_msgs (pbft_nodes self3)).

(** ** Sample objects *)

(** A block hashed as it stands. *)
Definition hashed (b : Block) : Block :=
  set_hash b (Some (compute_hash b)).

(** A fresh chain: genesis only. *)
Definition fresh_chain (t0 : float) : Blockchain :=
  Blockchain_init t0 [] [] 2.

(** A transfer whose id was fixed when it was created. *)
Definition transfer (a t : float) : Transaction :=
  mkTransaction "alice" "bob" a t (Some "tx-1").

(** A block drafted on the tip of the fresh chain and hashed. *)
Definition second_block (t0 t : float) (txs : list Transaction)
    (v : option string) : Block :=
  hashed (mkBlock 1 t txs (str_or (hash (genesis t0)) "") 0 v None).

(** The fresh chain after that block was appended. *)
Definition two_block_chain (t0 t : float) (txs : list Transaction)
    (v : option string) : Blockchain :=
  snd (add_block (fresh_chain t0) (second_block t0 t txs v)).

(** A chain whose only block was never hashed, as
    [Blockchain(chain=[Block(index=0, previous_hash="")])] builds it. *)
Definition unhashed_chain (t : float) : Blockchain :=
  Blockchain_init t [mkBlock 0 t [] "" 0 None None] [] 2.

Definition seven_nodes : list string :=
  ["n0"; "n1"; "n2"; "n3"; "n4"; "n5"; "n6"].

(** ** Calls on a chain object

    The methods of [Blockchain] that change the object, as a program calls
    them one after the other. *)
Inductive chain_call : Type :=
| call_add_transaction (tx : Transaction)
| call_add_block (b : Block)
| call_create_next_block (txs : option (list Transaction)) (v : option string).

(** The chain object and the world after one call, whatever the call
    returned or raised. *)
Definition after_call (c : chain_call) (bc : Blockchain) (w : World)
  : Blockchain * World :=
  match c with
  | call_add_transaction tx => (add_transaction bc tx, w)
  | call_add_block b => (snd (add_block bc b), w)
  | call_create_next_block txs v =>
      (snd (fst (create_next_block bc txs v w)),
       snd (create_next_block bc txs v w))
  end.

Fixpoint after_calls (cs : list chain_call) (bc : Blockchain) (w : World)
  : Blockchain * World :=
  match cs with
  | [] => (bc, w)
  | c :: r => after_calls r (fst (after_call c bc w)) (snd (after_call c bc w))
  end.

(** Every block of the chain stores the hash of its own contents. *)
Definition self_hashed (bc : Blockchain) : Prop :=
  Forall (fun b => hash b = Some (compute_hash b)) (chain bc).

(** [candidate_hash.startswith("0" * difficulty)] for the block as it stands. *)
Definition qualifies (d : Z) (b : Block) : bool :=
  startswith (compute_hash b) (str_mul "0" d).

(** ** What a round proposes *)

(** The block a round drafts on the chain [bc] for the proposer [p] with
    [create_next_block(transactions, validator=p)], once it carries the
    hash of its contents. *)
Definition proposed_on (bc : Blockchain) (txs : list Transaction) (p : string)
    (b : Block) : Prop :=
  index b = height bc
  /\ transactions b = txs
  /\ validator b = Some p
  /\ hash b = Some (compute_hash b)
  /\ exists latest, latest_block bc = Ret latest
                    /\ previous_hash b = str_or (hash latest) "".

(** The stake table after a round that [p] won: the loop at the end of
    [ProofOfStake.run_round], entry by entry. *)
Definition aged (p k : string) (info : StakeInfo) : StakeInfo :=
  mkStakeInfo (si_address info) (stake info)
              (if String.eqb k p then 0 else age info + 1).

(** ** What the delegate election looks at *)

(** [a] has at least the votes of [b] in the comparison of [sorted]. *)
Definition outvotes (a b : Delegate) : Prop :=
  flt (votes a) (votes b) = false.

(** The comparison of the vote counts is a strict order in which any two
    counts compare (no vote count is a NaN). *)
Definition votes_ordered : Prop :=
  (forall a b : float, flt a b = true -> flt b a = false)
  /\ (forall a b c : float, flt a c = true -> flt a b = true \/ flt b c = true).

(** Every candidate sits under its own address, once: the table the
    constructor builds from the dict of votes. *)
Definition dpos_well_formed (self : DelegatedProofOfStake) : Prop :=
  NoDup (map fst (candidates self))
  /\ Forall (fun kv => d_address (snd kv) = fst kv) (candidates self).

(** ** What a PBFT round leaves in the node table *)

(** The honest validators, counted by distinct address, make a quorum. *)
Definition honest_quorum (self : PracticalBFT) : bool :=
  quorum self <=? Z.of_nat (size (heard self)).

(** The senders of the COMMIT messages of a round. *)
Definition committers (self : PracticalBFT) : gset string :=
  if honest_quorum self then heard self else ∅.

(** A node of the table at the end of a round, from the node at its
    start: what [_reset_round] cleared and the two broadcasts filled. *)
Definition node_after_round (self : PracticalBFT) (x : PBFTNode) : PBFTNode :=
  mkNode (address x) (is_byzantine x) (heard self) (committers self)
         (negb (is_byzantine x) && honest_quorum self) false.

(** ** network/node.py *)

Record NetworkNode : Type := mkNetworkNode {
  node_address : string;
  balance : float;
  node_stake : float;
  is_active : bool;
  node_blocks_produced : Z;
  node_blockchain : option Blockchain
}.

(** [NetworkNode.create(name, balance, stake)] *)
Definition NetworkNode_create (node_name : string) (b s : float) (w : World)
  : NetworkNode * World :=
  let (t, w1) := time_time w in
  (mkNetworkNode (sha256_hex (node_name +:+ "-" +:+ str_float t)) b s true 0 None,
   w1).

(** ** network/simulator.py *)

(** [round(random.uniform(0.1, 10.0), 2)] and [random.seed(n)]. *)
Variable uniform_amount : World -> float * World.
Variable random_seed_with : Z -> World -> World.

Record SimulationConfig : Type := mkConfig {
  num_rounds : Z;
  txs_per_round : Z;
  random_seed : option Z
}.

Record RoundResult : Type := mkRoundResult {
  round_number : Z;
  consensus_result : ConsensusResult;
  chain_height : Z;
  pending_txs : Z
}.

Record SimulationReport : Type := mkReport {
  algorithm : string;
  config : SimulationConfig;
  report_rounds : list RoundResult;
  final_chain_height : Z;
  successful_rounds : Z;
  failed_rounds : Z;
  total_transactions_processed : Z
}.

(** The simulator holds its nodes by value: the entries of the node list
    stand for separate node objects, as the scenarios create them. *)
Record NetworkSimulator (S : Type) : Type := mkSimulator {
  consensus : S;
  sim_nodes : list NetworkNode;
  sim_blockchain : Blockchain
}.

#[global] Arguments mkSimulator {S} _ _ _.
#[global] Arguments consensus {S} _.
#[global] Arguments sim_nodes {S} _.
#[global] Arguments sim_blockchain {S} _.

(** [NetworkSimulator(consensus, nodes, blockchain)]: [blockchain or
    Blockchain()]; [t0] is the float [0.0] of the genesis block. *)
Definition NetworkSimulator_init {S} (t0 : float) (c : S)
    (nodes : list NetworkNode) (blockchain : option Blockchain)
  : NetworkSimulator S :=
  mkSimulator c nodes
    match blockchain with
    | Some bc => bc
    | None => Blockchain_init t0 [] [] 2
    end.

(** [Transaction(sender=s, recipient=r, amount=a)]: every field is
    validated before the error is raised, so the clock is read for the
    default of the timestamp also when the check [gt=0] refuses the
    amount; otherwise the id is computed from the fields. *)
Definition Transaction_create (s r : string) (a : float) (w : World)
  : outcome Transaction * World :=
  let (t, w1) := time_time w in
  if flt (float_of_int 0) a
  then (Ret (Transaction_init s r a t None), w1)
  else (Raise (ValueError "Input should be greater than 0"), w1).

(** The loop of [_generate_transactions]: [count] times, two nodes drawn
    with [random.sample(self.nodes, 2)] and an amount. *)
Fixpoint generate_loop (count : nat) (nodes : list NetworkNode) (w : World)
  : outcome (list Transaction) * World :=
  match count with
  | O => (Ret [], w)
  | S k =>
      match random_sample nodes 2 w with
      | (Ret [from; to], w1) =>
          let (a, w2) := uniform_amount w1 in
          match Transaction_create (node_address from) (node_address to) a w2 with
          | (Ret tx, w3) =>
              match generate_loop k nodes w3 with
              | (Ret txs, w4) => (Ret (tx :: txs), w4)
              | (Raise e, w4) => (Raise e, w4)
              | (Running, w4) => (Running, w4)
              end
          | (Raise e, w3) => (Raise e, w3)
          | (Running, w3) => (Running, w3)
          end
      | (Ret ([] | [_]), w1) =>
          (Raise (ValueError "not enough values to unpack (expected 2)"), w1)
      | (Ret (_ :: _ :: _ :: _), w1) =>
          (Raise (ValueError "too many values to unpack (expected 2)"), w1)
      | (Raise e, w1) => (Raise e, w1)
      | (Running, w1) => (Running, w1)
      end
  end.

Definition generate_transactions {S} (self : NetworkSimulator S) (count : Z)
    (w : World) : outcome (list Transaction) * World :=
  if (length (sim_nodes self) <? 2)%nat then (Ret [], w)
  else generate_loop (Z.to_nat count) (sim_nodes self) w.

(** [node.blocks_produced += 1] *)
Definition produced_block (node : NetworkNode) : NetworkNode :=
  mkNetworkNode (node_address node) (balance node) (node_stake node)
                (is_active node) (node_blocks_produced node + 1)
                (node_blockchain node).

(** [for node in self.nodes: if node.address == result.proposer: ...] *)
Definition credit_proposer (p : option string) (nodes : list NetworkNode)
  : list NetworkNode :=
  map (fun node => if opt_str_eqb (Some (node_address node)) p
                   then produced_block node else node)
      nodes.

(** [range(a, b)] *)
Definition py_range (a b : Z) : list Z :=
  map (fun i : nat => a + Z.of_nat i) (seq 0 (Z.to_nat (b - a))).

(** The loop of [run] over the round numbers still to go: the rounds
    recorded and the transaction total when it ends, the simulator and
    the world as it leaves them.  An exception of a round goes through. *)
Fixpoint run_loop {S} `{ConsensusProtocol S} (fuel : nat)
    (cfg : SimulationConfig) (node_addresses : list string) (numbers : list Z)
    (rounds_so_far : list RoundResult) (total_txs : Z)
    (self : NetworkSimulator S) (w : World)
  : outcome (list RoundResult * Z) * NetworkSimulator S * World :=
  match numbers with
  | [] => (Ret (rounds_so_far, total_txs), self, w)
  | i :: rest =>
      match generate_transactions self (txs_per_round cfg) w with
      | (Ret txs, w1) =>
          match run_round fuel txs node_addresses (consensus self)
                          (sim_blockchain self) w1 with
          | (Ret result, c1, bc1, w2) =>
              let total1 := if success result
                            then total_txs + Z.of_nat (length txs)
                            else total_txs in
              let nodes1 := if success result
                            then credit_proposer (proposer result) (sim_nodes self)
                            else sim_nodes self in
              let r := mkRoundResult i result (height bc1)
                         (Z.of_nat (length (pending_transactions bc1))) in
              run_loop fuel cfg node_addresses rest (rounds_so_far ++ [r]) total1
                       (mkSimulator c1 nodes1 bc1) w2
          | (Raise e, c1, bc1, w2) =>
              (Raise e, mkSimulator c1 (sim_nodes self) bc1, w2)
          | (Running, c1, bc1, w2) =>
              (Running, mkSimulator c1 (sim_nodes self) bc1, w2)
          end
      | (Raise e, w1) => (Raise e, self, w1)
      | (Running, w1) => (Running, self, w1)
      end
  end.

(** [[n.address for n in self.nodes if n.is_active]] *)
Definition active_addresses {S} (self : NetworkSimulator S) : list string :=
  map node_address (filter (fun n => is_active n = true) (sim_nodes self)).

(** [NetworkSimulator.run(config)] *)
Definition run {S} `{ConsensusProtocol S} (fuel : nat)
    (config_arg : option SimulationConfig) (self : NetworkSimulator S)
    (w : World) : outcome SimulationReport * NetworkSimulator S * World :=
  let cfg := match config_arg with
             | Some c => c
             | None => mkConfig 5 3 None
             end in
  let w0 := match random_seed cfg with
            | Some n => random_seed_with n w
            | None => w
            end in
  let node_addresses := active_addresses self in
  match run_loop fuel cfg node_addresses (py_range 1 (num_rounds cfg + 1))
                 [] 0 self w0 with
  | (Ret (rounds_done, total_txs), self1, w1) =>
      let successful :=
        Z.of_nat (length (filter (fun r => success (consensus_result r) = true)
                                 rounds_done)) in
      (Ret (mkReport name cfg rounds_done (height (sim_blockchain self1))
                     successful (Z.of_nat (length rounds_done) - successful)
                     total_txs),
       self1, w1)
  | (Raise e, self1, w1) => (Raise e, self1, w1)
  | (Running, self1, w1) => (Running, self1, w1)
  end.

(** The block a recorded round added to the chain, if it did. *)
Definition appended (r : RoundResult) : option Block :=
  if success (consensus_result r) then block (consensus_result r) else None.

(** How many of the recorded rounds succeeded with [addr] as proposer. *)
Definition credited (rounds_done : list RoundResult) (addr : string) : Z :=
  Z.of_nat (length (filter (fun r => success (consensus_result r) = true
                                     /\ proposer (consensus_result r) = Some addr)
                           rounds_done)).

(** Every drawn amount passes the [gt=0] check of [Transaction]: what
    [round(random.uniform(0.1, 10.0), 2)] returns is at least 0.1. *)
Definition amounts_positive : Prop :=
  forall w, flt (float_of_int 0) (fst (uniform_amount w)) = true.

(** A transaction between two nodes of [nodes] at different positions,
    with the id [Transaction] computes for it. *)
Definition drawn_between (nodes : list NetworkNode) (tx : Transaction) : Prop :=
  exists (i j : nat) (from to : NetworkNode),
    i <> j
    /\ nodes !! i = Some from
    /\ nodes !! j = Some to
    /\ sender tx = node_address from
    /\ recipient tx = node_address to
    /\ tx_id tx = Some (tx_compute_hash tx).

(** Number of the recorded rounds that succeeded. *)
Definition successes (rounds_done : list RoundResult) : Z :=
  Z.of_nat (length (filter (fun r => success (consensus_result r) = true)
                           rounds_done)).

(** [len(txs)] in a round of [run]: what [_generate_transactions] returns
    for the nodes and the configuration of the run. *)
Definition generated_per_round {S} (self : NetworkSimulator S)
    (cfg : SimulationConfig) : Z :=
  if (length (sim_nodes self) <? 2)%nat then 0
  else Z.of_nat (Z.to_nat (txs_per_round cfg)).

(** A node after the recorded rounds: its counter of produced blocks
    went up once for every successful round it proposed. *)
Definition credit (rounds_done : list RoundResult) (node : NetworkNode)
  : NetworkNode :=
  mkNetworkNode (node_address node) (balance node) (node_stake node)
                (is_active node)
                (node_blocks_produced node
                 + credited rounds_done (node_address node))
                (node_blockchain node).

(** The configuration [run] works with: [config or SimulationConfig()]. *)
Definition config_of (config_arg : option SimulationConfig) : SimulationConfig :=
  match config_arg with
  | Some c => c
  | None => mkConfig 5 3 None
  end.

(** ** What a round reads of the chain object *)

(** A method call that reads of the chain object only its list of blocks:
    on a chain object with the same blocks and any other pending pool and
    difficulty it returns the same, leaves the same protocol object and
    world, and the same blocks; and it leaves pool and difficulty alone. *)
Definition reads_blocks_only {S A} (m : M S A) : Prop :=
  forall (s : S) (bc : Blockchain) (pending : list Transaction) (d : Z)
         (w : World),
    match m s bc w with
    | (o, s', bc', w') =>
        m s (mkBlockchain (chain bc) pending d) w
        = (o, s', mkBlockchain (chain bc') pending d, w')
        /\ pending_transactions bc' = pending_transactions bc
        /\ bc_difficulty bc' = bc_difficulty bc
    end.

(** ** simulation/scenarios.py *)

(** [_default_config(num_rounds, seed)] *)
Definition default_config (rounds_arg : Z) (seed : option Z) : SimulationConfig :=
  mkConfig rounds_arg 3 seed.

(** [[NetworkNode.create(name_of(i), balance=b, stake=stake_of(i))
      for i in range(first, first + count)]] *)
Fixpoint create_nodes_from (name_of : Z -> string) (b : float)
    (stake_of : Z -> float) (first : Z) (count : nat) (w : World)
  : list NetworkNode * World :=
  match count with
  | O => ([], w)
  | Datatypes.S k =>
      let (node, w1) := NetworkNode_create (name_of first) b (stake_of first) w in
      let (rest, w2) := create_nodes_from name_of b stake_of (first + 1) k w1 in
      (node :: rest, w2)
  end.

Definition create_nodes (name_of : Z -> string) (b : float)
    (stake_of : Z -> float) (n : Z) (w : World) : list NetworkNode * World :=
  create_nodes_from name_of b stake_of 0 (Z.to_nat n) w.

(** The texts [NetworkNode.create] hashes into the addresses of these
    nodes, ["{name}-{time.time()}"] for each node in turn. *)
Fixpoint created_texts (name_of : Z -> string) (first : Z) (count : nat)
    (w : World) : list string :=
  match count with
  | O => []
  | Datatypes.S k =>
      let (t, w1) := time_time w in
      (name_of first +:+ "-" +:+ str_float t)
        :: created_texts name_of (first + 1) k w1
  end.

(** [enumerate(l)], counting from [i]. *)
Fixpoint enumerate_from {A} (i : Z) (l : list A) : list (Z * A) :=
  match l with
  | [] => []
  | x :: r => (i, x) :: enumerate_from (i + 1) r
  end.

(** [run_dpos_scenario(num_candidates, num_delegates, num_rounds, seed)] *)
Definition run_dpos_scenario (fuel : nat) (num_candidates delegates_arg
    rounds_arg : Z) (seed : option Z) (w : World)
  : outcome SimulationReport * World :=
  let (nodes, w1) :=
    create_nodes (fun i => "candidate-" +:+ str_int i) (float_of_int 100)
                 (fun _ => float_of_int 0) num_candidates w in
  let votes_dict :=
    dict_comprehension
      (fun p : Z * NetworkNode => node_address (snd p))
      (fun p => fmul (float_of_int (num_candidates - fst p)) (float_of_int 100))
      (enumerate_from 0 nodes) in
  let (protocol, w2) := DelegatedProofOfStake_init votes_dict delegates_arg w1 in
  let sim := NetworkSimulator_init (float_of_int 0) protocol nodes None in
  match run (H := DPoS_protocol) fuel (Some (default_config rounds_arg seed))
            sim w2 with
  | (o, _, w3) => (o, w3)
  end.

(** [run_pbft_scenario(num_nodes, byzantine_nodes, num_rounds, seed)] *)
Definition run_pbft_scenario (fuel : nat) (num_nodes byzantine_nodes
    rounds_arg : Z) (seed : option Z) (w : World)
  : outcome SimulationReport * World :=
  let (nodes, w1) :=
    create_nodes (fun i => "pbft-node-" +:+ str_int i) (float_of_int 100)
                 (fun _ => float_of_int 0) num_nodes w in
  match PracticalBFT_init (map node_address nodes) byzantine_nodes w1 with
  | (Ret protocol, w2) =>
      let sim := NetworkSimulator_init (float_of_int 0) protocol nodes None in
      match run (H := PBFT_protocol) fuel
                (Some (default_config rounds_arg seed)) sim w2 with
      | (o, _, w3) => (o, w3)
      end
  | (Raise e, w2) => (Raise e, w2)
  | (Running, w2) => (Running, w2)
  end.

(** [s] has a ['-'] in it. *)
Fixpoint has_dash (s : string) : bool :=
  match s with
  | EmptyString => false
  | String c r => Ascii.eqb c "-" || has_dash r
  end.

(** Node names that stay apart once ["-"] and a timestamp are put behind
    them, as [NetworkNode.create] does. *)
Definition names_separate (name_of : Z -> string) : Prop :=
  forall (i j : Z) (s s' : string),
    0 <= i -> 0 <= j ->
    name_of i +:+ "-" +:+ s = name_of j +:+ "-" +:+ s' -> i = j.

(** * Properties *)

(** ** Strings and lists *)

Lemma opt_str_eqb_eq (a b : option string) : opt_str_eqb a b = true <-> a = b.
Proof.
  destruct a as [x|], b as [y|]; simpl; try (split; congruence).
  rewrite String.eqb_eq. split; congruence.
Qed.

Lemma opt_str_eqb_neq (a b : option string) : opt_str_eqb a b = false <-> a <> b.
Proof.
  rewrite <- opt_str_eqb_eq. destruct (opt_str_eqb a b); split; congruence.
Qed.

Lemma list_get_last {A} (l : list A) (x : A) : list_get (l ++ [x]) (-1) = Ret x.
Proof.
  unfold list_get. rewrite length_app. simpl length.
  replace (-1 <? 0) with true by reflexivity.
  destruct (Z.ltb_spec (-1 + Z.of_nat (length l + 1)) 0); [lia|].
  destruct (Z.leb_spec (Z.of_nat (length l + 1)) (-1 + Z.of_nat (length l + 1)));
    [lia|]. simpl.
  replace (Z.to_nat (-1 + Z.of_nat (length l + 1))) with (length l) by lia.
  rewrite nth_error_app2 by lia. rewrite Nat.sub_diag. reflexivity.
Qed.

Lemma list_get_nil {A} (i : Z) : exists e, list_get (@nil A) i = Raise e.
Proof.
  unfold list_get.
  destruct (_ || _); [eauto|].
  destruct (Z.to_nat _); simpl; eauto.
Qed.

Lemma last_cons_default {A} (l : list A) (x d : A) :
  List.last (x :: l) d = List.last l x.
Proof.
  revert x d. induction l as [|y l IH]; intros x d; [reflexivity|].
  change (List.last (x :: y :: l) d) with (List.last (y :: l) d).
  rewrite (IH y d), (IH y x). reflexivity.
Qed.

Lemma nonempty_snoc {A} (l : list A) : l <> [] -> exists l' x, l = l' ++ [x].
Proof.
  intros H. destruct (exists_last H) as (l' & x & ->). eauto.
Qed.

Lemma to_int_nonnil (n : Z) :
  Z.to_int n <> Decimal.Pos Decimal.Nil /\ Z.to_int n <> Decimal.Neg Decimal.Nil.
Proof.
  destruct n; simpl; split; try discriminate; intros [= H];
    (apply (DecimalPos.Unsigned.to_uint_nonnil p); exact H).
Qed.

Lemma str_int_inj (n m : Z) : str_int n = str_int m -> n = m.
Proof.
  unfold str_int. intros H. apply DecimalZ.to_int_inj.
  destruct (to_int_nonnil n), (to_int_nonnil m).
  assert (Some (Z.to_int n) = Some (Z.to_int m)) as [= E]; [|exact E].
  rewrite <- !NilZero.isi by assumption. now rewrite H.
Qed.

Lemma list_ascii_app (a b : string) :
  list_ascii_of_string (a +:+ b)
  = list_ascii_of_string a ++ list_ascii_of_string b.
Proof.
  induction a as [|c a IH]; [reflexivity|].
  change (String c a +:+ b) with (String c (a +:+ b)). simpl. now rewrite IH.
Qed.

Lemma str_app_inv_tail (a b s : string) : a +:+ s = b +:+ s -> a = b.
Proof.
  intros H. apply (f_equal list_ascii_of_string) in H.
  rewrite !list_ascii_app in H. apply app_inv_tail in H.
  rewrite <- (string_of_list_ascii_of_string a),
          <- (string_of_list_ascii_of_string b).
  now rewrite H.
Qed.

Lemma str_app_inv_head (s a b : string) : s +:+ a = s +:+ b -> a = b.
Proof. apply String.app_inj. Qed.

(** ** The chain *)

Lemma latest_block_snoc (bc : Blockchain) (c : list Block) (b : Block) :
  chain bc = c ++ [b] -> latest_block bc = Ret b.
Proof. unfold latest_block. intros ->. apply list_get_last. Qed.

Lemma latest_block_nonempty (bc : Blockchain) :
  chain bc <> [] -> exists b, latest_block bc = Ret b.
Proof.
  intros H. destruct (nonempty_snoc _ H) as (c & b & E).
  exists b. eapply latest_block_snoc; eauto.
Qed.

Lemma latest_block_empty (bc : Blockchain) :
  chain bc = [] -> exists e, latest_block bc = Raise e.
Proof. unfold latest_block. intros ->. apply list_get_nil. Qed.

Lemma compute_hash_set_hash (b : Block) (h : option string) :
  compute_hash (set_hash b h) = compute_hash b.
Proof. reflexivity. Qed.

Lemma add_block_accept (bc : Blockchain) (latest b : Block) :
  latest_block bc = Ret latest -> admissible latest b ->
  add_block bc b = (Ret true, set_chain bc (chain bc ++ [b])).
Proof.
  intros HL [Hp Hh]. unfold add_block. rewrite HL.
  apply opt_str_eqb_eq in Hp. rewrite Hp. simpl. rewrite Hh.
  rewrite String.eqb_refl. reflexivity.
Qed.

Lemma add_block_reject (bc : Blockchain) (latest b : Block) :
  latest_block bc = Ret latest -> ~ admissible latest b ->
  add_block bc b = (Ret false, bc).
Proof.
  intros HL Hn. unfold add_block. rewrite HL.
  destruct (opt_str_eqb (Some (previous_hash b)) (hash latest)) eqn:Ep;
    simpl; [|reflexivity].
  destruct (hash b) as [h|] eqn:Eh; [|reflexivity].
  destruct (String.eqb h (compute_hash b)) eqn:Ec; simpl; [|reflexivity].
  exfalso. apply Hn. apply opt_str_eqb_eq in Ep. apply String.eqb_eq in Ec.
  split; congruence.
Qed.

(** Whatever [add_block] does, the chain afterwards is the old one or the
    old one with the candidate at its end, and the flag says which. *)
Lemma add_block_cases (bc : Blockchain) (b : Block) :
  add_block bc b = (Ret true, set_chain bc (chain bc ++ [b]))
  \/ add_block bc b = (Ret false, bc)
  \/ exists e, add_block bc b = (Raise e, bc).
Proof.
  unfold add_block, latest_block.
  destruct (list_get (chain bc) (-1)) as [latest|e|] eqn:HL.
  - destruct (negb _); [right; left; reflexivity|].
    destruct (hash b); [|right; left; reflexivity].
    destruct (negb _); [right; left; reflexivity | left; reflexivity].
  - right; right; eauto.
  - exfalso. unfold list_get in HL.
    destruct (_ || _); [discriminate|]. destruct (nth_error _ _); discriminate.
Qed.

Lemma turned_away_iff (latest b : Block) :
  turned_away latest b <-> ~ admissible latest b.
Proof.
  unfold turned_away, admissible. split.
  - intros [H | [H | H]] [Hp Hh]; congruence.
  - intros H.
    destruct (decide (Some (previous_hash b) = hash latest)) as [Hp|]; [|auto].
    right. destruct (hash b) as [h|]; [|auto]. right. intros Hh. auto.
Qed.

(** C2. The admission gate: on a chain with a latest block, [add_block]
    returns false and leaves the chain (so its height) as it was when the
    candidate's previous_hash is not the latest hash, or its hash is
    absent, or its hash is not the recomputed one; otherwise it returns
    true, the chain is the old one with the candidate at its end, and the
    height has grown by exactly 1. *)
Theorem add_block_admission_gate (bc : Blockchain) (latest b : Block) :
  latest_block bc = Ret latest ->
  (turned_away latest b ->
     fst (add_block bc b) = Ret false
     /\ snd (add_block bc b) = bc
     /\ height (snd (add_block bc b)) = height bc)
  /\ (~ turned_away latest b ->
     fst (add_block bc b) = Ret true
     /\ chain (snd (add_block bc b)) = chain bc ++ [b]
     /\ height (snd (add_block bc b)) = height bc + 1).
Proof.
  intros HL. split; intros H.
  - apply turned_away_iff in H.
    rewrite (add_block_reject bc latest b HL H). auto.
  - assert (Ha : admissible latest b).
    { unfold admissible.
      destruct (decide (Some (previous_hash b) = hash latest)) as [Hp|Hp];
        [|exfalso; apply H; left; exact Hp].
      split; [exact Hp|].
      destruct (decide (hash b = Some (compute_hash b))) as [Hh|Hh];
        [exact Hh|exfalso; apply H; right; right; exact Hh]. }
    rewrite (add_block_accept bc latest b HL Ha). simpl.
    repeat split. unfold height. simpl. rewrite length_app. simpl. lia.
Qed.

(** C9. [add_block] never looks at the candidate's index: on a chain whose
    latest block has hash [h], a candidate with any index at all (equal
    to the height or not) is accepted and appended as soon as its
    previous_hash is [h] and its stored hash is the recomputed one. *)
Theorem add_block_ignores_index (bc : Blockchain) (latest : Block)
    (h : string) (i : Z) (t : float) (txs : list Transaction) (n : Z)
    (v : option string) :
  latest_block bc = Ret latest ->
  hash latest = Some h ->
  let draft := mkBlock i t txs h n v None in
  let b := set_hash draft (Some (compute_hash draft)) in
  index b = i
  /\ add_block bc b = (Ret true, set_chain bc (chain bc ++ [b])).
Proof.
  intros HL Hh draft b. split; [reflexivity|].
  apply (add_block_accept bc latest b HL).
  split; [simpl; congruence | reflexivity].
Qed.

(** ** Mining *)

Lemma startswith_zeros (n : nat) (h : string) :
  startswith h (str_repeat "0" n) = true -> (n <= leading_zeros h)%nat.
Proof.
  revert h. induction n as [|n IH]; intros h; [simpl; lia|].
  unfold startswith.
  change (str_repeat "0" (S n)) with (String "0"%char (str_repeat "0" n)).
  destruct h as [|c r]; cbn [String.prefix]; [discriminate|].
  destruct (ascii_dec "0"%char c) as [<-|]; [|discriminate].
  intros H. apply IH in H. simpl. lia.
Qed.

Lemma startswith_empty (s : string) : startswith s "" = true.
Proof. destruct s; reflexivity. Qed.

Lemma bump_0 (b : Block) : bump 0 b = b.
Proof. destruct b. unfold bump, set_nonce. simpl. f_equal. lia. Qed.

Lemma bump_S (k : nat) (b : Block) :
  bump k (set_nonce b (nonce b + 1)) = bump (S k) b.
Proof. unfold bump, set_nonce. simpl. f_equal. lia. Qed.

(** A search that returns has stopped at the first nonce, counted from the
    block's own, whose hash starts with the target. *)
Lemma mine_returns_first (fuel : nat) (d : Z) (b b' : Block) (h : string) :
  mine fuel d b = (Ret h, b') ->
  exists k, (k < fuel)%nat
    /\ h = compute_hash (bump k b)
    /\ b' = set_hash (bump k b) (Some h)
    /\ startswith h (str_mul "0" d) = true
    /\ forall j, (j < k)%nat ->
         startswith (compute_hash (bump j b)) (str_mul "0" d) = false.
Proof.
  revert b. induction fuel as [|fuel IH]; intros b; simpl; [discriminate|].
  destruct (startswith (compute_hash b) (str_mul "0" d)) eqn:E.
  - intros [= <- <-]. exists O. rewrite bump_0.
    repeat split; [lia | exact E | intros j Hj; lia].
  - intros H. destruct (IH _ H) as (k & Hk & Hh & Hb & Hs & Hfirst).
    exists (S k). rewrite bump_S in Hh, Hb.
    repeat split; [lia | exact Hh | exact Hb | exact Hs |].
    intros [|j] Hj; [rewrite bump_0; exact E|].
    rewrite <- bump_S. apply Hfirst. lia.
Qed.

(** With enough steps the search does return: it needs one check more
    than the distance to the first qualifying nonce. *)
Lemma mine_finds (fuel k : nat) (d : Z) (b : Block) :
  (k < fuel)%nat ->
  startswith (compute_hash (bump k b)) (str_mul "0" d) = true ->
  (forall j, (j < k)%nat ->
     startswith (compute_hash (bump j b)) (str_mul "0" d) = false) ->
  mine fuel d b
  = (Ret (compute_hash (bump k b)),
     set_hash (bump k b) (Some (compute_hash (bump k b)))).
Proof.
  revert k b. induction fuel as [|fuel IH]; intros k b Hk Hhit Hmiss; [lia|].
  simpl. destruct k as [|k].
  - rewrite bump_0 in *. rewrite Hhit. reflexivity.
  - rewrite <- (bump_0 b) at 1. rewrite (Hmiss O) by lia.
    rewrite <- bump_S. apply IH; [lia | rewrite bump_S; exact Hhit |].
    intros j Hj. rewrite bump_S. apply Hmiss. lia.
Qed.

(** C6. Whenever [mine d] returns for a difficulty [d >= 0], the hash it
    returns has at least [d] leading '0' characters, is the hash stored in
    the block and is the hash of the block as it stands; and for [d = 0]
    the very first check returns, with the nonce never incremented. *)
Theorem mine_difficulty_bound :
  (forall (fuel : nat) (d : Z) (b b' : Block) (h : string),
      0 <= d ->
      mine fuel d b = (Ret h, b') ->
      d <= Z.of_nat (leading_zeros h)
      /\ hash b' = Some h
      /\ compute_hash b' = h)
  /\ (forall (fuel : nat) (b : Block),
      mine (S fuel) 0 b
      = (Ret (compute_hash b), set_hash b (Some (compute_hash b)))
      /\ nonce (snd (mine (S fuel) 0 b)) = nonce b).
Proof.
  split.
  - intros fuel d b b' h Hd H.
    destruct (mine_returns_first _ _ _ _ _ H) as (k & _ & Hh & Hb & Hs & _).
    unfold str_mul in Hs. apply startswith_zeros in Hs.
    subst b'. simpl. repeat split; [lia | symmetry; exact Hh].
  - intros fuel b. cbn [mine].
    change (str_mul "0" 0) with EmptyString.
    rewrite startswith_empty. auto.
Qed.

(** ** Validity of the whole history *)

Lemma is_valid_from_cons (previous current : Block) (tl : list Block) :
  is_valid_from previous (current :: tl)
  = link_ok previous current && is_valid_from current tl.
Proof.
  unfold link_ok. cbn [is_valid_from].
  destruct (opt_str_eqb (hash current) (Some (compute_hash current)));
    cbn [negb andb]; [|reflexivity].
  destruct (opt_str_eqb (Some (previous_hash current)) (hash previous));
    reflexivity.
Qed.

Lemma is_valid_from_app (previous current : Block) (l1 l2 : list Block) :
  is_valid_from previous (l1 ++ current :: l2)
  = is_valid_from previous l1
    && link_ok (List.last l1 previous) current
    && is_valid_from current l2.
Proof.
  revert previous. induction l1 as [|x l1 IH]; intros previous.
  - simpl app. rewrite is_valid_from_cons. reflexivity.
  - change ((x :: l1) ++ current :: l2) with (x :: (l1 ++ current :: l2)).
    rewrite !is_valid_from_cons, IH.
    rewrite last_cons_default, !andb_assoc. reflexivity.
Qed.

Lemma latest_block_inv (bc : Blockchain) (latest : Block) :
  latest_block bc = Ret latest -> exists c, chain bc = c ++ [latest].
Proof.
  intros H. destruct (chain bc) as [|x c] eqn:E.
  - destruct (latest_block_empty bc E) as [e He]. congruence.
  - assert (Hne : chain bc <> []) by (rewrite E; discriminate).
    destruct (nonempty_snoc _ Hne) as (c' & y & E').
    rewrite (latest_block_snoc bc c' y E') in H. injection H as <-.
    exists c'. congruence.
Qed.

Lemma add_block_true_inv (bc bc' : Blockchain) (b : Block) :
  add_block bc b = (Ret true, bc') ->
  exists latest, latest_block bc = Ret latest
    /\ admissible latest b
    /\ bc' = set_chain bc (chain bc ++ [b]).
Proof.
  intros H. destruct (latest_block bc) as [latest|e|] eqn:HL.
  - exists latest. split; [reflexivity|].
    destruct (decide (Some (previous_hash b) = hash latest)) as [Hp|Hp].
    + destruct (decide (hash b = Some (compute_hash b))) as [Hh|Hh].
      * assert (Ha : admissible latest b) by (split; assumption).
        rewrite (add_block_accept bc latest b HL Ha) in H.
        split; [exact Ha | congruence].
      * rewrite (add_block_reject bc latest b HL) in H; [discriminate|].
        intros [_ ?]. contradiction.
    + rewrite (add_block_reject bc latest b HL) in H; [discriminate|].
      intros [? _]. contradiction.
  - unfold add_block in H. rewrite HL in H. discriminate.
  - unfold add_block in H. rewrite HL in H. discriminate.
Qed.

Lemma admissible_link_ok (latest b : Block) :
  admissible latest b -> link_ok latest b = true.
Proof.
  intros [Hp Hh]. unfold link_ok.
  apply andb_true_intro. split; apply opt_str_eqb_eq; assumption.
Qed.

(** An accepted append keeps a valid chain valid. *)
Lemma is_valid_add_block (bc bc' : Blockchain) (b : Block) :
  is_valid bc = true -> add_block bc b = (Ret true, bc') -> is_valid bc' = true.
Proof.
  intros Hv H.
  destruct (add_block_true_inv _ _ _ H) as (latest & HL & Ha & ->).
  destruct (latest_block_inv _ _ HL) as [c Hc].
  unfold is_valid in *. simpl. rewrite Hc in *.
  destruct c as [|first c]; simpl app in *.
  - cbv iota. rewrite is_valid_from_cons, (admissible_link_ok _ _ Ha).
    reflexivity.
  - cbv iota. rewrite is_valid_from_app, Hv.
    rewrite last_last, (admissible_link_ok _ _ Ha). reflexivity.
Qed.

(** A transaction that carries an id contributes that id to the hashed
    text and nothing else: its amount is not hashed again. *)
Lemma amount_not_hashed (tx : Transaction) (a : float) (id : string) :
  tx_id tx = Some id -> id <> "" ->
  tx_key (mkTransaction (sender tx) (recipient tx) a (tx_timestamp tx) (tx_id tx))
  = tx_key tx.
Proof.
  intros Hid Hne. unfold tx_key, str_or. cbn [tx_id]. rewrite Hid.
  destruct (String.eqb_spec id ""); [contradiction|reflexivity].
Qed.

(** [is_valid] reads nothing of the first block but its stored hash. *)
Lemma first_block_only_by_hash (bc : Blockchain) (first first' : Block)
    (rest : list Block) :
  chain bc = first :: rest ->
  hash first' = hash first ->
  is_valid (set_chain bc (first' :: rest)) = is_valid bc.
Proof.
  intros Hc Hh. unfold is_valid. rewrite Hc. cbn [chain set_chain].
  destruct rest as [|x tl]; [reflexivity|].
  rewrite !is_valid_from_cons. unfold link_ok. rewrite Hh. reflexivity.
Qed.

Lemma tx_data_replace (before after : list Transaction) (tx tx' : Transaction) :
  tx_data (before ++ tx' :: after) = tx_data (before ++ tx :: after) ->
  tx_key tx' = tx_key tx.
Proof.
  induction before as [|x before IH]; simpl; intros H.
  - eapply str_app_inv_tail; exact H.
  - apply IH. eapply str_app_inv_head; exact H.
Qed.

(** Tampering changes the text that is hashed. *)
Lemma block_data_tampered (b b' : Block) :
  tampered b b' -> block_data b' <> block_data b.
Proof.
  intros [n' Hn | before after tx tx' Htx Hkey] H; unfold block_data in H;
    simpl in H; do 2 apply str_app_inv_head in H.
  - do 2 apply str_app_inv_head in H. apply str_app_inv_tail in H.
    apply str_int_inj in H. contradiction.
  - apply str_app_inv_tail in H. rewrite Htx in H.
    apply tx_data_replace in H. contradiction.
Qed.

Lemma tampered_keeps_hash (b b' : Block) :
  tampered b b' -> hash b' = hash b /\ previous_hash b' = previous_hash b.
Proof. intros [|]; split; reflexivity. Qed.

Lemma tamper_breaks_link (previous b b' : Block) :
  no_collision_among [block_data b; block_data b'] ->
  hash b = Some (compute_hash b) ->
  tampered b b' ->
  link_ok previous b' = false.
Proof.
  intros Hcf Hh Ht. unfold link_ok.
  destruct (tampered_keeps_hash _ _ Ht) as [-> _]. rewrite Hh.
  apply andb_false_intro1. apply opt_str_eqb_neq. intros [= E].
  apply (block_data_tampered _ _ Ht). symmetry.
  apply Hcf; [apply list_elem_of_here| |exact E].
  apply list_elem_of_further, list_elem_of_here.
Qed.

Lemma link_ok_hash (previous b : Block) :
  link_ok previous b = true -> hash b = Some (compute_hash b).
Proof.
  unfold link_ok. intros H. apply andb_prop in H as [H _].
  apply opt_str_eqb_eq in H. exact H.
Qed.

(** Every reachable chain is non-empty, valid, and ends in a block that
    carries a hash. *)
Lemma built_invariant (bc : Blockchain) :
  built bc ->
  is_valid bc = true
  /\ exists latest h, latest_block bc = Ret latest /\ hash latest = Some h.
Proof.
  induction 1 as [t0 pending d | bc bc' b Hb [IHv IHl] Hadd
                 | bc pending Hb [IHv IHl]].
  - split; [reflexivity|].
    exists (genesis t0), (compute_hash (genesis_draft t0)).
    split; [|reflexivity]. apply (latest_block_snoc _ []). reflexivity.
  - split; [eapply is_valid_add_block; eauto|].
    destruct (add_block_true_inv _ _ _ Hadd) as (latest & HL & [_ Hh] & ->).
    exists b, (compute_hash b). split; [|exact Hh].
    eapply latest_block_snoc. reflexivity.
  - split; [exact IHv|]. exact IHl.
Qed.

Lemma link_ok_alike (p p' b b' : Block) :
  reads_alike p p' -> reads_alike b b' -> link_ok p' b' = link_ok p b.
Proof.
  intros (Hp & _ & _) (Hh & Hprev & Hc). unfold link_ok.
  rewrite Hp, Hh, Hprev, Hc. reflexivity.
Qed.

Lemma is_valid_from_alike (l l' : list Block) :
  Forall2 reads_alike l l' ->
  forall p p', reads_alike p p' -> is_valid_from p' l' = is_valid_from p l.
Proof.
  induction 1 as [|b b' l l' Hb _ IH]; intros p p' Hp; [reflexivity|].
  rewrite !is_valid_from_cons, (link_ok_alike p p' b b' Hp Hb), (IH b b' Hb).
  reflexivity.
Qed.

Lemma reads_alike_refl (b : Block) : reads_alike b b.
Proof. repeat split. Qed.

Lemma is_valid_alike (bc : Blockchain) (l1 post : list Block) (b b' : Block) :
  chain bc = l1 ++ b :: post ->
  reads_alike b b' ->
  is_valid (set_chain bc (l1 ++ b' :: post)) = is_valid bc.
Proof.
  intros Hc Hb.
  assert (Hall : Forall2 reads_alike (l1 ++ b :: post) (l1 ++ b' :: post)).
  { apply Forall2_app; [|constructor; [exact Hb|]];
      apply Forall_Forall2_diag, Forall_forall; intros; apply reads_alike_refl. }
  unfold is_valid. rewrite Hc. cbn [chain set_chain].
  destruct Hall as [|x x' l l' Hx Hl]; [reflexivity|].
  apply is_valid_from_alike; assumption.
Qed.

Lemma tx_data_same_key (before after : list Transaction) (tx tx' : Transaction) :
  tx_key tx' = tx_key tx ->
  tx_data (before ++ tx' :: after) = tx_data (before ++ tx :: after).
Proof.
  intros Hk. induction before as [|x before IH]; simpl; congruence.
Qed.

(** C3, as amended.  An accepted append keeps a valid chain valid; on a
    valid chain, changing the nonce of a block at index 1 or more, or
    replacing one of its transactions by a transaction with a different
    id, makes [is_valid] return false, as long as the hash function does
    not collide on the two encodings of the block, the one before and the
    one after the change; and replacing a transaction of any block by one
    with the same id changes nothing of what [is_valid] returns. *)
Theorem validity_monotonic_and_tamper_evident :
  (forall (bc bc' : Blockchain) (b : Block),
      is_valid bc = true ->
      add_block bc b = (Ret true, bc') ->
      is_valid bc' = true)
  /\ (forall (bc : Blockchain) (first b b' : Block) (l1 post : list Block),
        chain bc = first :: l1 ++ b :: post ->
        is_valid bc = true ->
        tampered b b' ->
        no_collision_among [block_data b; block_data b'] ->
        is_valid (set_chain bc (first :: l1 ++ b' :: post)) = false)
  /\ (forall (bc : Blockchain) (b : Block) (l1 post : list Block)
          (before after : list Transaction) (tx tx' : Transaction),
        chain bc = l1 ++ b :: post ->
        transactions b = before ++ tx :: after ->
        tx_key tx' = tx_key tx ->
        is_valid (set_chain bc
                    (l1 ++ set_transactions b (before ++ tx' :: after) :: post))
        = is_valid bc).
Proof.
  split; [exact is_valid_add_block|]. split.
  - intros bc first b b' l1 post Hc Hv Ht Hcf.
    unfold is_valid in *. rewrite Hc in Hv. simpl chain. cbv iota in *.
    rewrite is_valid_from_app in *.
    apply andb_prop in Hv as [Hv _]. apply andb_prop in Hv as [_ Hl].
    rewrite (tamper_breaks_link _ b b' Hcf (link_ok_hash _ _ Hl) Ht).
    rewrite andb_false_r. reflexivity.
  - intros bc b l1 post before after tx tx' Hc Htx Hk.
    apply (is_valid_alike bc l1 post b); [exact Hc|].
    repeat split. unfold compute_hash, block_data. cbn [set_transactions
      index timestamp transactions previous_hash nonce validator].
    rewrite Htx, (tx_data_same_key before after tx tx' Hk). reflexivity.
Qed.

(** ** PBFT: construction *)

Lemma random_sample_cases {A} (population : list A) (k : Z) (w : World) :
  (0 <= k <= Z.of_nat (length population)
   /\ exists l w1, random_sample population k w = (Ret l, w1)
        /\ sample_loop (Z.to_nat k) population w = (l, w1))
  \/ ((k < 0 \/ Z.of_nat (length population) < k)
      /\ random_sample population k w
         = (Raise (ValueError "Sample larger than population or is negative"), w)).
Proof.
  unfold random_sample.
  destruct (Z.ltb_spec k 0); simpl; [right; split; [lia|reflexivity]|].
  destruct (Z.ltb_spec (Z.of_nat (length population)) k); simpl;
    [right; split; [lia|reflexivity]|].
  left. split; [lia|].
  destruct (sample_loop (Z.to_nat k) population w) as [l w1]. eauto.
Qed.

(** The three ways a construction can end. *)
Lemma PracticalBFT_init_cases (nodes : list string) (f : Z) (w : World) :
  let n := Z.of_nat (length nodes) in
  ((n - 1) / 3 < f
   /\ PracticalBFT_init nodes f w
      = (Raise (ValueError (tolerance_message n f)), w))
  \/ (f < 0 /\ f <= (n - 1) / 3
      /\ PracticalBFT_init nodes f w
         = (Raise (ValueError "Sample larger than population or is negative"), w))
  \/ (0 <= f <= (n - 1) / 3
      /\ exists picked w1,
           sample_loop (Z.to_nat f) nodes w = (picked, w1)
           /\ PracticalBFT_init nodes f w
              = (Ret (mkPBFT nodes f 0
                        (dict_comprehension (fun addr => addr)
                           (fun addr =>
                              mkNode addr
                                (bool_decide (addr ∈ (list_to_set picked : gset string)))
                                ∅ ∅ false false)
                           nodes)),
                 w1)).
Proof.
  intros n. unfold PracticalBFT_init. fold n.
  destruct (Z.ltb_spec ((n - 1) / 3) f) as [Hlt|Hle]; [left; auto|].
  assert (Hn : (n - 1) / 3 <= n).
  { assert (0 <= n) by (unfold n; lia).
    pose proof (Z.div_mod (n - 1) 3). pose proof (Z.mod_pos_bound (n - 1) 3).
    lia. }
  destruct (random_sample_cases nodes f w)
    as [(Hr & l & w1 & -> & Hs) | ([Hneg|Hbig] & ->)].
  - right; right. split; [lia|]. eauto.
  - right; left. auto.
  - exfalso. fold n in Hbig. lia.
Qed.

(** C4. Construction raises the tolerance error exactly when
    [f > floor((n-1)/3)], and for a count [f >= 0] it fails exactly then;
    with seven validators [f = 3] is refused and [f = 2] is accepted; and
    every constructed instance has quorum [2f + 1], which is 5 for
    [f = 2]. *)
Theorem pbft_tolerance_bound :
  (forall (nodes : list string) (f : Z) (w : World),
      let n := Z.of_nat (length nodes) in
      (fst (PracticalBFT_init nodes f w)
         = Raise (ValueError (tolerance_message n f))
       <-> (n - 1) / 3 < f)
      /\ (0 <= f ->
          (~ returns (fst (PracticalBFT_init nodes f w)) <-> (n - 1) / 3 < f)))
  /\ (forall (nodes : list string) (w : World),
      length nodes = 7%nat ->
      fst (PracticalBFT_init nodes 3 w)
        = Raise (ValueError (tolerance_message 7 3))
      /\ returns (fst (PracticalBFT_init nodes 2 w)))
  /\ (forall (nodes : list string) (f : Z) (w : World) (self : PracticalBFT),
      fst (PracticalBFT_init nodes f w) = Ret self ->
      quorum self = 2 * f + 1
      /\ (f = 2 -> quorum self = 5)
      /\ byzantine_count self = f
      /\ node_list self = nodes).
Proof.
  split; [|split].
  - intros nodes f w n.
    destruct (PracticalBFT_init_cases nodes f w)
      as [(Hf & E) | [(Hneg & Hf & E) | (Hf & l & w1 & _ & E)]];
      fold n in Hf |- *; rewrite E; simpl.
    + split; [split; [intros _; exact Hf | reflexivity]|].
      intros _. split; [intros _; exact Hf|].
      intros _ [a Ha]. discriminate.
    + split.
      * split; [|lia]. intros [= H].
      * intros; lia.
    + split.
      * split; [discriminate|lia].
      * intros _. split; [|lia]. intros H. exfalso. apply H. eexists; eauto.
  - intros nodes w Hlen.
    split.
    + destruct (PracticalBFT_init_cases nodes 3 w)
        as [(Hf & E) | [(Hneg & Hf & E) | (Hf & l & w1 & _ & E)]];
        rewrite Hlen in *; change ((Z.of_nat 7 - 1) / 3) with 2 in Hf; try lia.
      rewrite E. reflexivity.
    + destruct (PracticalBFT_init_cases nodes 2 w)
        as [(Hf & E) | [(Hneg & Hf & E) | (Hf & l & w1 & _ & E)]];
        rewrite Hlen in *; change ((Z.of_nat 7 - 1) / 3) with 2 in Hf; try lia.
      rewrite E. eexists; reflexivity.
  - intros nodes f w self H.
    destruct (PracticalBFT_init_cases nodes f w)
      as [(Hf & E) | [(Hneg & Hf & E) | (Hf & l & w1 & _ & E)]];
      rewrite E in H; simpl in H; try discriminate.
    injection H as <-. unfold quorum. simpl. repeat split. intros ->. reflexivity.
Qed.

(** ** Drafting and admitting the next block *)

Lemma create_next_block_given (bc : Blockchain) (latest : Block)
    (txs : list Transaction) (v : option string) (w : World) :
  latest_block bc = Ret latest ->
  create_next_block bc (Some txs) v w
  = (Ret (mkBlock (height bc) (fst (time_time w)) txs
                  (str_or (hash latest) "") 0 v None),
     bc, snd (time_time w)).
Proof.
  intros HL. unfold create_next_block. rewrite HL.
  destruct (time_time w). reflexivity.
Qed.

Lemma create_next_block_raises (bc : Blockchain)
    (txs : list Transaction) (v : option string) (w : World) :
  chain bc = [] ->
  exists e, create_next_block bc (Some txs) v w = (Raise e, bc, w).
Proof.
  intros E. destruct (latest_block_empty bc E) as [e He].
  exists e. unfold create_next_block. rewrite He. reflexivity.
Qed.

Lemma str_or_some (h : string) : str_or (Some h) "" = h.
Proof.
  unfold str_or. destruct (String.eqb_spec h ""); congruence.
Qed.

(** A block drafted on the tip and hashed as it stands is admitted exactly
    when the tip carries a hash. *)
Lemma add_block_on_tip (bc : Blockchain) (latest b : Block) :
  latest_block bc = Ret latest ->
  previous_hash b = str_or (hash latest) "" ->
  hash b = Some (compute_hash b) ->
  add_block bc b
  = match hash latest with
    | Some _ => (Ret true, set_chain bc (chain bc ++ [b]))
    | None => (Ret false, bc)
    end.
Proof.
  intros HL Hp Hh. destruct (hash latest) as [h|] eqn:E.
  - apply (add_block_accept bc latest b HL). split; [|exact Hh].
    rewrite Hp, E, str_or_some. reflexivity.
  - apply (add_block_reject bc latest b HL). intros [H _].
    rewrite E in H. discriminate.
Qed.

Lemma chain_empty_or_latest (bc : Blockchain) :
  chain bc = [] \/ exists latest, latest_block bc = Ret latest.
Proof.
  destruct (chain bc) as [|x c] eqn:E; [left; reflexivity|right].
  apply latest_block_nonempty. rewrite E. discriminate.
Qed.

Lemma create_next_block_cases (bc : Blockchain) (txs : list Transaction)
    (v : option string) (w : World) :
  (exists e, create_next_block bc (Some txs) v w = (Raise e, bc, w))
  \/ (exists latest, latest_block bc = Ret latest
       /\ create_next_block bc (Some txs) v w
          = (Ret (mkBlock (height bc) (fst (time_time w)) txs
                          (str_or (hash latest) "") 0 v None),
             bc, snd (time_time w))).
Proof.
  destruct (chain_empty_or_latest bc) as [Hemp | [latest HL]].
  - left. apply create_next_block_raises. exact Hemp.
  - right. exists latest. split; [exact HL|].
    apply create_next_block_given. exact HL.
Qed.

(** ** DPoS: the rotation *)

Lemma list_get_in_range {A} (l : list A) (i : Z) :
  0 <= i < Z.of_nat (length l) ->
  exists x, list_get l i = Ret x /\ l !! Z.to_nat i = Some x.
Proof.
  intros Hi. unfold list_get.
  destruct (Z.ltb_spec i 0); [lia|].
  destruct (Z.ltb_spec i 0); [lia|].
  destruct (Z.leb_spec (Z.of_nat (length l)) i); [lia|]. simpl.
  destruct (nth_error l (Z.to_nat i)) as [x|] eqn:E.
  - exists x. split; [reflexivity|].
    rewrite <- E. clear. revert l. generalize (Z.to_nat i) as n.
    induction n as [|n IH]; intros [|y l]; simpl; auto.
  - apply nth_error_None in E. lia.
Qed.

Lemma current_delegate_turn (self : DelegatedProofOfStake) :
  active_delegates self <> [] ->
  let k := Z.of_nat (length (active_delegates self)) in
  exists d,
    current_delegate self = Ret (Some d)
    /\ list_get (active_delegates self) (round_index self mod k) = Ret d
    /\ active_delegates self !! Z.to_nat (round_index self mod k) = Some d.
Proof.
  intros Hne k. unfold current_delegate.
  destruct (active_delegates self) as [|a l] eqn:E; [congruence|].
  assert (Hk : 0 < k) by (unfold k; simpl; lia).
  unfold py_mod. fold k.
  destruct (Z.eqb_spec k 0); [lia|].
  destruct (list_get_in_range (a :: l) (round_index self mod k)) as (d & Hd & Hl).
  { fold k. apply Z.mod_pos_bound. exact Hk. }
  exists d. rewrite Hd. auto.
Qed.

(** One round of DPoS on a chain with a latest block, when some delegate
    is active. *)
Lemma dpos_round (fuel : nat) (txs : list Transaction) (nodes : list string)
    (self : DelegatedProofOfStake) (bc : Blockchain) (latest : Block) (w : World) :
  active_delegates self <> [] ->
  latest_block bc = Ret latest ->
  let k := Z.of_nat (length (active_delegates self)) in
  exists d res self' bc' b,
    dpos_run_round fuel txs nodes self bc w = (Ret res, self', bc', snd (time_time w))
    /\ active_delegates self !! Z.to_nat (round_index self mod k) = Some d
    /\ proposer res = Some d
    /\ block res = Some b
    /\ rounds res = 1
    /\ round_index self' = round_index self + 1
    /\ active_delegates self' = active_delegates self
    /\ add_block bc b = (Ret (success res), bc')
    /\ success res = has_hash latest.
Proof.
  intros Hne HL k.
  destruct (current_delegate_turn self Hne) as (d & Hcur & _ & Hd). fold k in Hd.
  unfold dpos_run_round, bind, get_self, lift, next_block, on_chain, put_self, ret.
  rewrite Hcur.
  rewrite (create_next_block_given bc latest txs (Some d) w HL).
  set (draft := mkBlock _ _ _ _ _ _ _).
  set (b := set_hash draft (Some (compute_hash draft))).
  pose proof (add_block_on_tip bc latest b HL eq_refl eq_refl) as Hadd.
  rewrite Hadd.
  assert (Hk : (k =? 0) = false).
  { apply Z.eqb_neq. unfold k. destruct (active_delegates self); [congruence|].
    simpl. lia. }
  unfold has_hash, py_mod.
  destruct (hash latest) as [h|]; cbn [active_delegates round_index];
    fold k; rewrite Hk; cbn [fst snd];
    (eexists d, _, _, _, b; repeat split; first [exact Hd | exact Hadd]).
Qed.

Lemma add_block_keeps_latest (bc bc' : Blockchain) (latest b : Block)
    (o : outcome bool) :
  latest_block bc = Ret latest ->
  add_block bc b = (o, bc') ->
  exists latest', latest_block bc' = Ret latest'.
Proof.
  intros HL H.
  destruct (add_block_cases bc b) as [E | [E | [e E]]]; rewrite E in H;
    injection H as <- <-; eauto.
  exists b. eapply latest_block_snoc. reflexivity.
Qed.

(** The delegate whose turn it is [i] rounds from now. *)
Lemma dpos_rounds (fuel : nat) (inputs : list (list Transaction * list string)) :
  forall (self : DelegatedProofOfStake) (bc : Blockchain) (latest : Block)
         (w : World),
    active_delegates self <> [] ->
    latest_block bc = Ret latest ->
    let k := Z.of_nat (length (active_delegates self)) in
    exists rs self' bc' w',
      run_rounds fuel inputs self bc w = (rs, self', bc', w')
      /\ map proposer rs
         = map (fun i : nat =>
                  active_delegates self
                    !! Z.to_nat ((round_index self + Z.of_nat i) mod k))
               (seq 0 (length inputs))
      /\ round_index self' = round_index self + Z.of_nat (length inputs)
      /\ active_delegates self' = active_delegates self.
Proof.
  induction inputs as [|[txs nodes] inputs IH]; intros self bc latest w Hne HL k.
  - exists [], self, bc, w. simpl. repeat split. lia.
  - destruct (dpos_round fuel txs nodes self bc latest w Hne HL)
      as (d & res & self1 & bc1 & b & Hrun & Hd & Hp & _ & _ & Hri & Hact & Hadd & _).
    fold k in Hd.
    destruct (add_block_keeps_latest _ _ _ _ _ HL Hadd) as [latest1 HL1].
    assert (Hne1 : active_delegates self1 <> []) by (rewrite Hact; exact Hne).
    destruct (IH self1 bc1 latest1 (snd (time_time w)) Hne1 HL1)
      as (rs & self2 & bc2 & w2 & Hrest & Hps & Hri2 & Hact2).
    exists (res :: rs), self2, bc2, w2.
    cbn [run_rounds run_round DPoS_protocol]. rewrite Hrun, Hrest.
    split; [reflexivity|]. split; [|split].
    + cbn [map length seq]. rewrite Hp, Hps, Hact, Hri.
      rewrite Z.add_0_r, Hd. f_equal.
      rewrite <- seq_shift, map_map. apply map_ext. intros i. fold k.
      do 3 f_equal. lia.
    + rewrite Hri2, Hri. cbn [length]. lia.
    + congruence.
Qed.

Lemma rotate_Permutation {A} (n : nat) (l : list A) : Permutation (rotate n l) l.
Proof.
  unfold rotate. rewrite Permutation_app_comm. rewrite take_drop. reflexivity.
Qed.

Lemma lookups_rotate {A} (l : list A) (r : Z) :
  l <> [] ->
  let k := Z.of_nat (length l) in
  map (fun i : nat => l !! Z.to_nat ((r + Z.of_nat i) mod k)) (seq 0 (length l))
  = map Some (rotate (Z.to_nat (r mod k)) l).
Proof.
  intros Hne k.
  assert (Hk : 0 < k) by (unfold k; destruct l; [congruence|simpl; lia]).
  apply list_eq. intros i.
  change (map ?f ?x) with (f <$> x). rewrite !list_lookup_fmap.
  destruct (decide (i < length l)%nat) as [Hi|Hi].
  - rewrite lookup_seq_lt by exact Hi. rewrite lookup_rotate_r by exact Hi.
    unfold rotate_nat_add. fold k. simpl.
    rewrite Z2Nat.id by (apply Z.mod_pos_bound; exact Hk).
    rewrite Zplus_mod_idemp_l.
    destruct (lookup_lt_is_Some_2 l (Z.to_nat ((r + Z.of_nat i) mod k)))
      as [x ->]; [|reflexivity].
    pose proof (Z.mod_pos_bound (r + Z.of_nat i) k Hk). unfold k in *. lia.
  - rewrite lookup_seq_ge by lia.
    rewrite (lookup_ge_None_2 (rotate _ l)); [reflexivity|].
    rewrite length_rotate. lia.
Qed.

(** ** DPoS: what the constructor elects *)

Lemma dict_set_keys {V} (d : list (string * V)) (k x : string) (v : V) :
  x ∈ map fst (dict_set d k v) -> x = k \/ x ∈ map fst d.
Proof.
  induction d as [|[k' v'] d IH]; simpl; intros H.
  - apply list_elem_of_singleton in H. auto.
  - destruct (String.eqb k' k); simpl in H.
    + right. exact H.
    + apply elem_of_cons in H as [->|H]; [right; left|].
      destruct (IH H) as [->|Hin]; [left; reflexivity|right; right; exact Hin].
Qed.

Lemma dict_set_distinct {V} (d : list (string * V)) (k : string) (v : V) :
  NoDup (map fst d) -> NoDup (map fst (dict_set d k v)).
Proof.
  induction d as [|[k' v'] d IH]; simpl; intros H.
  - apply NoDup_singleton.
  - apply NoDup_cons in H as [Hk' Hd].
    destruct (String.eqb_spec k' k); simpl.
    + apply NoDup_cons. auto.
    + apply NoDup_cons. split; [|auto].
      intros Hin. apply dict_set_keys in Hin as [->|Hin]; congruence.
Qed.

Lemma dict_set_Forall {V} (P : string * V -> Prop) (d : list (string * V))
    (k : string) (v : V) :
  Forall P d -> P (k, v) -> Forall P (dict_set d k v).
Proof.
  intros Hd Hkv. induction Hd as [|[k' v'] d Hx Hd IH]; simpl.
  - repeat constructor. exact Hkv.
  - destruct (String.eqb_spec k' k) as [->|]; constructor; auto.
Qed.

(** A comprehension has distinct keys, and every entry is one of the
    pairs it was built from. *)
Lemma dict_comprehension_invariant {A V} (key : A -> string) (value : A -> V)
    (P : string * V -> Prop) (l : list A) :
  (forall x, P (key x, value x)) ->
  NoDup (map fst (dict_comprehension key value l))
  /\ Forall P (dict_comprehension key value l).
Proof.
  intros HP. unfold dict_comprehension.
  assert (Hgen : forall acc : list (string * V),
             NoDup (map fst acc) -> Forall P acc ->
             NoDup (map fst (fold_left
                      (fun d x => dict_set d (key x) (value x)) l acc))
             /\ Forall P (fold_left
                      (fun d x => dict_set d (key x) (value x)) l acc)).
  { induction l as [|x l IH]; intros acc Hnd Hall; simpl; [auto|].
    apply IH; [apply dict_set_distinct; exact Hnd|].
    apply dict_set_Forall; [exact Hall|apply HP]. }
  apply Hgen; constructor.
Qed.

Lemma insert_by_votes_Permutation (x : Delegate) (l : list Delegate) :
  insert_by_votes x l ≡ₚ x :: l.
Proof.
  induction l as [|y l IH]; simpl; [reflexivity|].
  destruct (flt (votes y) (votes x)); [reflexivity|].
  rewrite IH. apply Permutation_swap.
Qed.

Lemma sorted_by_votes_Permutation (l : list Delegate) : sorted_by_votes l ≡ₚ l.
Proof.
  unfold sorted_by_votes.
  assert (Hgen : forall acc,
             fold_left (fun acc x => insert_by_votes x acc) l acc ≡ₚ acc ++ l).
  { induction l as [|x l IH]; intros acc; simpl.
    - rewrite app_nil_r. reflexivity.
    - rewrite IH, insert_by_votes_Permutation.
      rewrite (Permutation_middle acc l x). reflexivity. }
  apply (Hgen []).
Qed.

Lemma slice_to_sublist {A} (l : list A) (k : Z) : slice_to l k `sublist_of` l.
Proof. unfold slice_to. destruct (k <? 0); apply sublist_take. Qed.

Lemma list_swap_Permutation {A} (i j : nat) (x : list A) : list_swap i j x ≡ₚ x.
Proof.
  unfold list_swap.
  destruct (x !! i) as [a|] eqn:Ei; [|reflexivity].
  destruct (x !! j) as [b|] eqn:Ej; [|reflexivity].
  apply Permutation_insert_swap; assumption.
Qed.

Lemma shuffle_from_Permutation {A} (i : nat) :
  forall (x : list A) (w : World), fst (shuffle_from i x w) ≡ₚ x.
Proof.
  induction i as [|i IH]; intros x w; simpl; [reflexivity|].
  destruct (rand_raw w) as [r w1]. rewrite IH. apply list_swap_Permutation.
Qed.

Lemma random_shuffle_Permutation {A} (x : list A) (w : World) :
  fst (random_shuffle x w) ≡ₚ x.
Proof. apply shuffle_from_Permutation. Qed.

(** The elected delegates are distinct, whatever the votes, the number of
    seats and the shuffle. *)
Lemma DelegatedProofOfStake_init_distinct (votes_in : list (string * float))
    (n : Z) (w : World) :
  NoDup (active_delegates (fst (DelegatedProofOfStake_init votes_in n w))).
Proof.
  unfold DelegatedProofOfStake_init, elect_delegates. cbn [candidates num_delegates].
  set (d := dict_comprehension fst (fun kv => mkDelegate (fst kv) (snd kv) 0)
                               votes_in).
  destruct (dict_comprehension_invariant fst
              (fun kv : string * float => mkDelegate (fst kv) (snd kv) 0)
              (fun kv => d_address (snd kv) = fst kv) votes_in
              ltac:(reflexivity)) as [Hkeys Haddr].
  fold d in Hkeys, Haddr.
  assert (Hvalues : NoDup (map d_address (dict_values d))).
  { replace (map d_address (dict_values d)) with (map fst d); [exact Hkeys|].
    unfold dict_values. clear Hkeys.
    induction Haddr as [|kv d' Hkv _ IH]; simpl; [reflexivity|]. congruence. }
  pose proof (random_shuffle_Permutation
                (map d_address (slice_to (sorted_by_votes (dict_values d)) n)) w)
    as Hperm.
  destruct (random_shuffle _ w) as [shuffled w1]. cbn [fst active_delegates] in *.
  rewrite Hperm.
  change (map d_address ?l) with (d_address <$> l) in Hvalues |- *.
  eapply sublist_NoDup;
    [|apply (fmap_sublist d_address), slice_to_sublist].
  rewrite sorted_by_votes_Permutation. exact Hvalues.
Qed.

(** A round never changes the order of the delegates. *)
Lemma dpos_round_keeps_order (fuel : nat) (txs : list Transaction)
    (nodes : list string) (self self' : DelegatedProofOfStake)
    (bc bc' : Blockchain) (w w' : World) (o : outcome ConsensusResult) :
  dpos_run_round fuel txs nodes self bc w = (o, self', bc', w') ->
  active_delegates self' = active_delegates self.
Proof.
  unfold dpos_run_round, bind, get_self, put_self, lift, next_block, on_chain, ret.
  destruct (current_delegate self) as [[d|]|e|]; try (intros [= <- <- <- <-]; reflexivity).
  destruct (create_next_block_cases bc txs (Some d) w)
    as [[e ->] | (latest & HL & ->)]; [intros [= <- <- <- <-]; reflexivity|].
  destruct (add_block bc _) as [oa bc1].
  destruct oa as [flag| |]; try (intros [= <- <- <- <-]; reflexivity).
  cbn [active_delegates round_index].
  destruct (py_mod _ _); intros [= <- <- <- <-]; reflexivity.
Qed.

Lemma reachable_dpos (self0 self : DelegatedProofOfStake) :
  reachable self0 self -> active_delegates self = active_delegates self0.
Proof.
  induction 1 as [|s s' fuel txs nodes bc bc' w w' o _ IH Hrun]; [reflexivity|].
  cbn [run_round DPoS_protocol] in Hrun.
  rewrite (dpos_round_keeps_order _ _ _ _ _ _ _ _ _ _ Hrun). exact IH.
Qed.

(** C7, as amended.  For every DPoS instance with at least one active
    delegate, on a chain with a latest block: the proposer of a round is
    the delegate at position [round_index mod delegate_count] of the
    active order, and [round_index] goes up by exactly 1 whether or not
    the block was admitted; so [k] consecutive rounds over an order of
    size [k] propose the order rotated, a permutation of it, without a
    repeat when the delegates are distinct, as they are in every instance
    the constructor built, whatever rounds it ran before.  With no active
    delegate the round fails at once and changes nothing. *)
Theorem dpos_round_robin :
  (forall (fuel : nat) (txs : list Transaction) (nodes : list string)
          (self : DelegatedProofOfStake) (bc : Blockchain) (latest : Block)
          (w : World),
      active_delegates self <> [] ->
      latest_block bc = Ret latest ->
      let k := Z.of_nat (length (active_delegates self)) in
      exists d res self' bc' w',
        run_round fuel txs nodes self bc w = (Ret res, self', bc', w')
        /\ active_delegates self !! Z.to_nat (round_index self mod k) = Some d
        /\ proposer res = Some d
        /\ success res = has_hash latest
        /\ round_index self' = round_index self + 1
        /\ active_delegates self' = active_delegates self)
  /\ (forall (fuel : nat) (inputs : list (list Transaction * list string))
          (self : DelegatedProofOfStake) (bc : Blockchain) (latest : Block)
          (w : World),
      active_delegates self <> [] ->
      latest_block bc = Ret latest ->
      length inputs = length (active_delegates self) ->
      let k := Z.of_nat (length (active_delegates self)) in
      let order := rotate (Z.to_nat (round_index self mod k))
                          (active_delegates self) in
      exists rs self' bc' w',
        run_rounds fuel inputs self bc w = (rs, self', bc', w')
        /\ map proposer rs = map Some order
        /\ Permutation order (active_delegates self)
        /\ (NoDup (active_delegates self) -> NoDup (map proposer rs))
        /\ round_index self' = round_index self + k)
  /\ (forall (votes_in : list (string * float)) (n : Z) (w : World)
          (self : DelegatedProofOfStake),
      reachable (fst (DelegatedProofOfStake_init votes_in n w)) self ->
      NoDup (active_delegates self))
  /\ (forall (fuel : nat) (txs : list Transaction) (nodes : list string)
          (self : DelegatedProofOfStake) (bc : Blockchain) (w : World),
      active_delegates self = [] ->
      exists res,
        run_round fuel txs nodes self bc w = (Ret res, self, bc, w)
        /\ success res = false
        /\ block res = None).
Proof.
  split; [|split; [|split]].
  - intros fuel txs nodes self bc latest w Hne HL k.
    destruct (dpos_round fuel txs nodes self bc latest w Hne HL)
      as (d & res & self1 & bc1 & b & Hrun & Hd & Hp & _ & _ & Hri & Hact & _ & Hs).
    exists d, res, self1, bc1, (snd (time_time w)).
    repeat split; assumption.
  - intros fuel inputs self bc latest w Hne HL Hlen k order.
    destruct (dpos_rounds fuel inputs self bc latest w Hne HL)
      as (rs & self1 & bc1 & w1 & Hrun & Hps & Hri & _).
    rewrite Hlen in Hps, Hri. rewrite (lookups_rotate _ _ Hne) in Hps.
    exists rs, self1, bc1, w1. repeat split; auto.
    + apply rotate_Permutation.
    + intros Hnd. rewrite Hps.
      apply (NoDup_fmap_2 Some). rewrite rotate_Permutation. exact Hnd.
  - intros votes_in n w self Hreach.
    rewrite (reachable_dpos _ _ Hreach).
    apply DelegatedProofOfStake_init_distinct.
  - intros fuel txs nodes self bc w Hnone. cbn [run_round DPoS_protocol].
    unfold dpos_run_round, bind, get_self, lift, ret, current_delegate.
    rewrite Hnone. eexists. repeat split.
Qed.

(** C10. The rounds of PoS, DPoS and PBFT never look at [nodes]: two
    calls on the same protocol object, chain, transactions and world that
    differ in the list of active nodes give the same result and leave the
    same protocol object, chain and world behind; and the PoS selection
    does not even receive the list. *)
Theorem nodes_argument_ignored (fuel : nat) (txs : list Transaction)
    (nodes1 nodes2 : list string) (bc : Blockchain) (w : World) :
  (forall self : ProofOfStake,
      run_round fuel txs nodes1 self bc w = run_round fuel txs nodes2 self bc w)
  /\ (forall self : DelegatedProofOfStake,
      run_round fuel txs nodes1 self bc w = run_round fuel txs nodes2 self bc w)
  /\ (forall self : PracticalBFT,
      run_round fuel txs nodes1 self bc w = run_round fuel txs nodes2 self bc w).
Proof. repeat split; reflexivity. Qed.

(** ** The protocol contract *)

Lemma add_block_effect (bc bc' : Blockchain) (b : Block) (o : outcome bool) :
  add_block bc b = (o, bc') ->
  pending_transactions bc' = pending_transactions bc
  /\ bc_difficulty bc' = bc_difficulty bc
  /\ match o with
     | Ret flag =>
         (flag = true /\ chain bc' = chain bc ++ [b])
         \/ (flag = false /\ chain bc' = chain bc)
     | Raise _ | Running => chain bc' = chain bc
     end.
Proof.
  intros H.
  destruct (add_block_cases bc b) as [E | [E | [e E]]]; rewrite E in H;
    injection H as <- <-; simpl; auto.
Qed.

Lemma dpos_consistent : side_effect_consistent DPoS_protocol.
Proof.
  intros fuel txs nodes self bc w. cbn [run_round DPoS_protocol].
  destruct (active_delegates self) as [|a l] eqn:Eact.
  - unfold dpos_run_round, bind, get_self, lift, ret, current_delegate.
    rewrite Eact. simpl. auto.
  - assert (Hne : active_delegates self <> []) by (rewrite Eact; discriminate).
    destruct (chain_empty_or_latest bc) as [Hemp | [latest HL]].
    + destruct (current_delegate_turn self Hne) as (d & Hcur & _ & _).
      destruct (create_next_block_raises bc txs (Some d) w Hemp) as [e He].
      unfold dpos_run_round, bind, get_self, lift, next_block.
      rewrite Hcur, He. auto.
    + destruct (dpos_round fuel txs nodes self bc latest w Hne HL)
        as (d & res & self1 & bc1 & b & -> & _ & _ & Hb & _ & _ & _ & Hadd & _).
      destruct (add_block_effect _ _ _ _ Hadd) as (Hp & Hd & [[Hs Hc] | [Hs Hc]]).
      * split; [exact Hp|]. split; [exact Hd|]. left. eauto.
      * split; [exact Hp|]. split; [exact Hd|]. right. auto.
Qed.

(** What is left to show of the contract once the chain is only touched
    by one [add_block] whose flag becomes the [success] of the result. *)
Ltac after_add_block Hadd :=
  destruct (add_block_effect _ _ _ _ Hadd) as (? & ? & Hcases);
  repeat (split; [assumption|]);
  match type of Hcases with
  | _ \/ _ =>
      destruct Hcases as [[-> ?] | [-> ?]];
      [left; split; [reflexivity|]; eexists; split; [reflexivity|assumption]
      |right; split; [reflexivity|assumption]]
  | _ => assumption
  end.

Lemma pbft_consistent : side_effect_consistent PBFT_protocol.
Proof.
  intros fuel txs nodes self bc w. cbn [run_round PBFT_protocol].
  unfold pbft_run_round, bind, get_self, put_self, lift, next_block, on_chain, ret.
  destruct (py_mod _ _) as [i|e|]; [|auto..].
  destruct (list_get _ i) as [leader|e|]; [|auto..].
  destruct (create_next_block_cases bc txs (Some leader) w)
    as [[e ->] | (latest & HL & ->)]; [auto|].
  unfold phase_commit. cbv beta iota zeta.
  destruct (quorum _ <=? committed_count _).
  - destruct (add_block bc _) as [o bc1] eqn:Hadd.
    destruct o as [flag| |]; cbn [success block]; after_add_block Hadd.
  - cbn [success]. auto.
Qed.

Lemma age_step_key (proposer : string) (kv : string * StakeInfo) :
  fst (age_step proposer kv) = fst kv
  /\ si_address (snd (age_step proposer kv)) = si_address (snd kv)
  /\ stake (snd (age_step proposer kv)) = stake (snd kv).
Proof.
  destruct kv as [k v]. unfold age_step.
  destruct (String.eqb k proposer); auto.
Qed.

Lemma dict_get_age_step (proposer k : string) (d : list (string * StakeInfo)) :
  is_Some (dict_get d k) -> is_Some (dict_get (map (age_step proposer) d) k).
Proof.
  induction d as [|[k' v] d IH]; [simpl; auto|].
  cbn [map dict_get].
  destruct (age_step_key proposer (k', v)) as (Hk & _).
  destruct (age_step proposer (k', v)) as [k'' v'']. cbn [fst] in Hk. subst k''.
  destruct (String.eqb k' k); [eauto|exact IH].
Qed.

Lemma select_validator_cases (self : ProofOfStake) (bc : Blockchain) (w : World) :
  exists o w1, select_validator self bc w = (o, self, bc, w1).
Proof.
  unfold select_validator, bind, get_self, on_world.
  destruct (f_eq_zero _).
  - destruct (random_choice _ w) as [o w1]. eauto.
  - destruct (random_choices _ _ w) as [o w1]. eauto.
Qed.

Lemma pos_consistent : side_effect_consistent PoS_protocol.
Proof.
  intros fuel txs nodes self bc w. cbn [run_round PoS_protocol].
  unfold pos_run_round, bind, get_self, put_self, lift, next_block, on_chain, ret.
  destruct (validators self) as [|kv vs] eqn:Ev; [cbn [success]; auto|].
  rewrite <- Ev.
  destruct (select_validator_cases self bc w) as (o & w1 & ->).
  destruct o as [proposer|e|]; [|auto..].
  destruct (dict_item (validators self) proposer) as [info|e|] eqn:Einfo; [|auto..].
  destruct (create_next_block_cases bc txs (Some proposer) w1)
    as [[e ->] | (latest & HL & ->)]; [auto|].
  destruct (add_block bc _) as [o bc1] eqn:Hadd.
  destruct o as [flag| |]; [|after_add_block Hadd..].
  destruct (add_block_effect _ _ _ _ Hadd) as (Hp & Hd & [[-> Hc] | [-> Hc]]).
  - cbn [validators]. unfold dict_item in *.
    destruct (dict_get_age_step proposer proposer (validators self)) as [info' ->].
    { destruct (dict_get (validators self) proposer); [eauto|discriminate]. }
    cbn [success block]. repeat (split; [assumption|]). left. eauto.
  - rewrite Einfo. cbn [success block]. repeat (split; [assumption|]). right. auto.
Qed.

Lemma pow_consistent : side_effect_consistent PoW_protocol.
Proof.
  intros fuel txs nodes self bc w. cbn [run_round PoW_protocol].
  unfold pow_run_round.
  destruct nodes as [|n0 nodes]; [unfold ret; cbn [success]; auto|].
  unfold bind, get_self, now, on_world, lift, next_block, on_chain, ret.
  destruct (random_choice (n0 :: nodes) w) as [o w1].
  destruct o as [miner|e|]; [|auto..].
  destruct (create_next_block_cases bc txs (Some miner) w1)
    as [[e ->] | (latest & HL & ->)]; [auto|].
  destruct (time_time (snd (time_time w1))) as [start w2].
  destruct (mine fuel (difficulty self) _) as [mined b].
  destruct mined as [h|e|]; [|auto..].
  destruct (time_time w2) as [stop w3].
  destruct (add_block bc b) as [o bc1] eqn:Hadd.
  destruct o as [flag| |]; cbn [success block]; after_add_block Hadd.
Qed.

(** ** When a round returns *)

Lemma list_get_mod {A} (l : list A) (r : nat) :
  l <> [] ->
  exists x, list_get l (Z.of_nat (r mod length l)) = Ret x /\ x ∈ l.
Proof.
  intros Hne.
  assert (Hlen : length l <> 0%nat) by (destruct l; [congruence|discriminate]).
  pose proof (Nat.mod_upper_bound r (length l) Hlen) as Hlt.
  destruct (list_get_in_range l (Z.of_nat (r mod length l))) as (x & Hx & Hl);
    [lia|].
  exists x. split; [exact Hx|]. eapply list_elem_of_lookup_2. exact Hl.
Qed.

Lemma random_choice_member {A} (l : list A) (w : World) :
  l <> [] ->
  exists x, random_choice l w = (Ret x, snd (rand_raw w)) /\ x ∈ l.
Proof.
  intros Hne. unfold random_choice.
  destruct l as [|a l]; [congruence|].
  destruct (rand_raw w) as [r w1].
  destruct (list_get_mod (a :: l) r Hne) as (x & -> & Hx). eauto.
Qed.

Lemma dict_get_member {V} (d : list (string * V)) (k : string) :
  k ∈ map fst d -> is_Some (dict_get d k).
Proof.
  induction d as [|[k' v] d IH]; simpl; intros H.
  - apply elem_of_nil in H. contradiction.
  - destruct (String.eqb_spec k' k); [eauto|].
    apply IH. apply elem_of_cons in H as [H|H]; [congruence|exact H].
Qed.

Lemma pos_addresses_are_keys (self : ProofOfStake) :
  pos_well_formed self ->
  map si_address (dict_values (validators self)) = map fst (validators self).
Proof.
  unfold pos_well_formed, dict_values. intros H.
  induction H as [|kv d Hkv _ IH]; simpl; [reflexivity|]. congruence.
Qed.

(** The selection returns a registered validator, unless the weighted
    draw rejects the weights. *)
Lemma select_validator_member (self : ProofOfStake) (bc : Blockchain) (w : World) :
  validators self <> [] ->
  pos_well_formed self ->
  pos_draw_accepted self w ->
  exists p w1,
    select_validator self bc w = (Ret p, self, bc, w1)
    /\ is_Some (dict_get (validators self) p).
Proof.
  intros Hne Hwf Hdraw.
  assert (Haddr : map si_address (dict_values (validators self)) <> []).
  { rewrite (pos_addresses_are_keys self Hwf).
    destruct (validators self); [congruence|discriminate]. }
  unfold select_validator, bind, get_self, on_world.
  unfold pos_draw_accepted in Hdraw. cbv zeta in Hdraw.
  destruct (f_eq_zero _) eqn:Ez.
  - destruct (random_choice_member _ w Haddr) as (p & -> & Hp).
    exists p, (snd (rand_raw w)). split; [reflexivity|].
    apply dict_get_member. rewrite <- (pos_addresses_are_keys self Hwf). exact Hp.
  - destruct (Hdraw eq_refl) as [i Hi]. unfold random_choices.
    destruct (choices_draw _ w) as [o w1]. simpl in Hi. subst o.
    destruct (list_get_mod _ i Haddr) as (p & -> & Hp).
    exists p, w1. split; [reflexivity|].
    apply dict_get_member. rewrite <- (pos_addresses_are_keys self Hwf). exact Hp.
Qed.

(** ** PBFT: the message exchange *)

Lemma each_node_compose (f g : PBFTNode -> PBFTNode) (d : list (string * PBFTNode)) :
  each_node f (each_node g d) = each_node (fun node => f (g node)) d.
Proof. unfold each_node. rewrite map_map. reflexivity. Qed.

Lemma each_node_ext (f g : PBFTNode -> PBFTNode) (d : list (string * PBFTNode)) :
  (forall node, f node = g node) -> each_node f d = each_node g d.
Proof. intros H. unfold each_node. apply map_ext. intros [k v]. simpl. now rewrite H. Qed.

Lemma each_node_id (f : PBFTNode -> PBFTNode) (d : list (string * PBFTNode)) :
  (forall node, f node = node) -> each_node f d = d.
Proof.
  intros H. unfold each_node. rewrite <- (map_id d) at 2.
  apply map_ext. intros [k v]. simpl. now rewrite H.
Qed.

Lemma union_insert_first (x : string) (seen old : gset string) :
  seen ∪ ({[x]} ∪ old) = ({[x]} ∪ seen) ∪ old.
Proof.
  rewrite (assoc_L (∪) seen {[x]} old), (comm_L (∪) seen {[x]}). reflexivity.
Qed.

Lemma distribute_prepares (msgs : list PBFTMessage) (d : list (string * PBFTNode)) :
  distribute receive_prepare msgs d
  = each_node (with_prepares (list_to_set (map msg_sender msgs))) d.
Proof.
  unfold distribute. revert d. induction msgs as [|m msgs IH]; intros d; simpl.
  - symmetry. apply each_node_id. intros [a b p c x y]. unfold with_prepares.
    simpl. f_equal. apply (left_id_L ∅ (∪)).
  - rewrite IH, each_node_compose. apply each_node_ext.
    intros [a b p c x y]. unfold with_prepares, receive_prepare. simpl.
    f_equal. apply union_insert_first.
Qed.

Lemma distribute_commits (msgs : list PBFTMessage) (d : list (string * PBFTNode)) :
  distribute receive_commit msgs d
  = each_node (with_commits (list_to_set (map msg_sender msgs))) d.
Proof.
  unfold distribute. revert d. induction msgs as [|m msgs IH]; intros d; simpl.
  - symmetry. apply each_node_id. intros [a b p c x y]. unfold with_commits.
    simpl. f_equal. apply (left_id_L ∅ (∪)).
  - rewrite IH, each_node_compose. apply each_node_ext.
    intros [a b p c x y]. unfold with_commits, receive_commit. simpl.
    f_equal. apply union_insert_first.
Qed.

Lemma each_node_values (f : PBFTNode -> PBFTNode) (d : list (string * PBFTNode)) :
  dict_values (each_node f d) = map f (dict_values d).
Proof. unfold dict_values, each_node. rewrite !map_map. reflexivity. Qed.

Lemma filter_map_honest (f : PBFTNode -> PBFTNode) (l : list PBFTNode) :
  keeps_identity f ->
  filter (fun node => is_byzantine node = false) (map f l)
  = map f (filter (fun node => is_byzantine node = false) l).
Proof.
  intros Hf. induction l as [|x l IH]; [reflexivity|].
  destruct (Hf x) as [_ Hb]. cbn [map].
  rewrite !filter_cons. rewrite Hb.
  destruct (decide (is_byzantine x = false)); cbn [map]; now rewrite IH.
Qed.

Lemma each_node_honest (f : PBFTNode -> PBFTNode) (self : PracticalBFT)
    (d : list (string * PBFTNode)) :
  keeps_identity f ->
  honest_addresses (with_nodes self (each_node f d))
  = honest_addresses (with_nodes self d).
Proof.
  intros Hf. unfold honest_addresses, with_nodes. cbn [pbft_nodes].
  rewrite each_node_values, (filter_map_honest f _ Hf), map_map.
  apply map_ext. intros node. apply Hf.
Qed.

Lemma filter_map_equiv {A B} (f : A -> B) (P : B -> Prop) (Q : A -> Prop)
    `{!forall y, Decision (P y)} `{!forall x, Decision (Q x)} (l : list A) :
  (forall x, P (f x) <-> Q x) ->
  filter P (map f l) = map f (filter Q l).
Proof.
  intros Hequiv. induction l as [|x l IH]; [reflexivity|].
  cbn [map]. rewrite !filter_cons.
  destruct (decide (P (f x))) as [HP|HP], (decide (Q x)) as [HQ|HQ];
    cbn [map]; rewrite ?IH; try reflexivity; exfalso.
  - apply HQ, Hequiv, HP.
  - apply HP, Hequiv, HQ.
Qed.

Lemma keeps_identity_reset : keeps_identity reset_node.
Proof. intros node. split; reflexivity. Qed.

Lemma keeps_identity_with_prepares (senders : gset string) :
  keeps_identity (with_prepares senders).
Proof. intros node. split; reflexivity. Qed.

Lemma keeps_identity_with_commits (senders : gset string) :
  keeps_identity (with_commits senders).
Proof. intros node. split; reflexivity. Qed.

Lemma keeps_identity_mark_prepared (self : PracticalBFT) :
  keeps_identity (mark_prepared self).
Proof.
  intros node. unfold mark_prepared. destruct (can_commit self node);
    split; reflexivity.
Qed.

Lemma with_nodes_same (self : PracticalBFT) :
  with_nodes self (pbft_nodes self) = self.
Proof. destruct self. reflexivity. Qed.

Lemma honest_addresses_with_nodes (self self' : PracticalBFT)
    (d : list (string * PBFTNode)) :
  honest_addresses (with_nodes self d) = honest_addresses (with_nodes self' d).
Proof. reflexivity. Qed.

Lemma honest_reset (self : PracticalBFT) :
  honest_addresses (reset_round self) = honest_addresses self.
Proof.
  rewrite <- (with_nodes_same self) at 2.
  rewrite <- (each_node_honest reset_node self _ keeps_identity_reset).
  reflexivity.
Qed.

Lemma honest_after_prepare (self : PracticalBFT) (h : string) :
  honest_addresses (after_prepare self h) = honest_addresses self.
Proof.
  unfold after_prepare. rewrite distribute_prepares.
  rewrite (each_node_honest _ self _ (keeps_identity_with_prepares _)).
  rewrite with_nodes_same. reflexivity.
Qed.

Lemma honest_after_commit (self : PracticalBFT) (h : string) :
  honest_addresses (after_commit self h) = honest_addresses self.
Proof.
  unfold after_commit, phase_commit. cbv zeta iota beta.
  cbn [pbft_nodes]. rewrite distribute_commits.
  rewrite (each_node_honest _ _ _ (keeps_identity_with_commits _)).
  rewrite (honest_addresses_with_nodes _ (after_prepare self h)).
  rewrite (each_node_honest _ _ _ (keeps_identity_mark_prepared _)).
  rewrite with_nodes_same. apply honest_after_prepare.
Qed.

Lemma after_commit_fixed (self : PracticalBFT) (h : string) :
  node_list (after_commit self h) = node_list self
  /\ byzantine_count (after_commit self h) = byzantine_count self
  /\ pbft_view (after_commit self h) = pbft_view self.
Proof. repeat split; reflexivity. Qed.

Lemma prepare_senders (self : PracticalBFT) (h : string) :
  map msg_sender (phase_prepare self h) = honest_addresses self.
Proof. unfold phase_prepare, honest_addresses. rewrite map_map. reflexivity. Qed.

Lemma after_prepare_values (self : PracticalBFT) (h : string) :
  dict_values (pbft_nodes (after_prepare (reset_round self) h))
  = map (fun x => with_prepares (list_to_set (honest_addresses self))
                                (reset_node x))
        (dict_values (pbft_nodes self)).
Proof.
  unfold after_prepare. cbn [pbft_nodes with_nodes].
  rewrite distribute_prepares, prepare_senders, honest_reset.
  rewrite each_node_values. cbn [reset_round pbft_nodes].
  rewrite each_node_values, map_map. reflexivity.
Qed.

Section Live.

Variable self : PracticalBFT.
Variable h : string.
Hypothesis honest_distinct : NoDup (honest_addresses self).
Hypothesis honest_quorum :
  quorum self <= Z.of_nat (length (honest_addresses self)).

Lemma heard_size (old : gset string) :
  old = ∅ -> size (heard self ∪ old) = length (honest_addresses self).
Proof.
  intros ->. rewrite (right_id_L ∅ (∪)). unfold heard. apply size_list_to_set.
  exact honest_distinct.
Qed.

(** Every honest validator has (heard self) a quorum of PREPAREs, so it commits. *)
Lemma can_commit_after_prepare (x : PBFTNode) :
  can_commit (after_prepare (reset_round self) h)
             (with_prepares (heard self) (reset_node x)) = true
  <-> is_byzantine x = false.
Proof.
  unfold can_commit. cbn [is_byzantine prepares_received with_prepares reset_node].
  rewrite (heard_size ∅ eq_refl).
  change (quorum (after_prepare (reset_round self) h)) with (quorum self).
  destruct (Z.leb_spec (quorum self) (Z.of_nat (length (honest_addresses self))));
    [|lia].
  rewrite andb_true_r. destruct (is_byzantine x); simpl; split; congruence.
Qed.

Lemma commit_senders :
  map msg_sender (fst (phase_commit (after_prepare (reset_round self) h) h))
  = honest_addresses self.
Proof.
  unfold phase_commit. cbn [fst]. rewrite map_map. cbn [msg_sender].
  rewrite after_prepare_values. fold (heard self).
  rewrite (filter_map_equiv _ _ (fun x => is_byzantine x = false) _
             can_commit_after_prepare).
  unfold honest_addresses. rewrite map_map. reflexivity.
Qed.

Lemma after_commit_values :
  dict_values (pbft_nodes (after_commit (reset_round self) h))
  = map (fun x =>
           with_commits (heard self)
             (mark_prepared (after_prepare (reset_round self) h)
                (with_prepares (heard self) (reset_node x))))
        (dict_values (pbft_nodes self)).
Proof.
  unfold after_commit.
  pose proof commit_senders as Hc.
  destruct (phase_commit (after_prepare (reset_round self) h) h)
    as [commit_msgs self3] eqn:E.
  cbn [fst] in Hc. cbn [pbft_nodes with_nodes].
  rewrite distribute_commits, Hc. fold (heard self).
  unfold phase_commit in E. injection E as _ <-. cbn [pbft_nodes].
  rewrite !each_node_values.
  change (distribute receive_prepare (phase_prepare (reset_round self) h)
            (each_node reset_node (pbft_nodes self)))
    with (pbft_nodes (after_prepare (reset_round self) h)).
  rewrite after_prepare_values, !map_map. reflexivity.
Qed.

Lemma has_committed_after_commit (x : PBFTNode) :
  has_committed (after_commit (reset_round self) h)
    (with_commits (heard self)
       (mark_prepared (after_prepare (reset_round self) h)
          (with_prepares (heard self) (reset_node x)))) = true
  <-> is_byzantine x = false.
Proof.
  unfold has_committed.
  destruct (keeps_identity_mark_prepared (after_prepare (reset_round self) h)
              (with_prepares (heard self) (reset_node x))) as [_ Hb].
  cbn [is_byzantine commits_received with_commits]. rewrite Hb.
  cbn [is_byzantine with_prepares reset_node].
  assert (Hsize : size ((heard self) ∪ commits_received
                    (mark_prepared (after_prepare (reset_round self) h)
                       (with_prepares (heard self) (reset_node x))))
                  = length (honest_addresses self)).
  { apply heard_size. unfold mark_prepared.
    destruct (can_commit _ _); reflexivity. }
  rewrite Hsize.
  change (quorum (after_commit (reset_round self) h)) with (quorum self).
  destruct (Z.leb_spec (quorum self) (Z.of_nat (length (honest_addresses self))));
    [|lia].
  destruct (is_byzantine x); simpl; split; congruence.
Qed.

(** Every honest validator collects a quorum of COMMITs. *)
Lemma committed_count_live :
  committed_count (after_commit (reset_round self) h)
  = Z.of_nat (length (honest_addresses self)).
Proof.
  unfold committed_count. rewrite after_commit_values.
  rewrite (filter_map_equiv _ _ (fun x => is_byzantine x = false) _
             has_committed_after_commit).
  unfold honest_addresses. rewrite !length_map. reflexivity.
Qed.

End Live.

(** ** PBFT: one round *)

Lemma honest_after_round (self : PracticalBFT) (h : string) :
  honest_addresses (next_view (after_commit (reset_round self) h))
  = honest_addresses self.
Proof.
  change (honest_addresses (next_view (after_commit (reset_round self) h)))
    with (honest_addresses (after_commit (reset_round self) h)).
  rewrite honest_after_commit. apply honest_reset.
Qed.

(** Whatever a round does, it leaves the validator list, the Byzantine
    count and the honest validators as they were. *)
Lemma pbft_round_preserves (fuel : nat) (txs : list Transaction)
    (nodes : list string) (self self' : PracticalBFT) (bc bc' : Blockchain)
    (w w' : World) (o : outcome ConsensusResult) :
  pbft_run_round fuel txs nodes self bc w = (o, self', bc', w') ->
  node_list self' = node_list self
  /\ byzantine_count self' = byzantine_count self
  /\ honest_addresses self' = honest_addresses self.
Proof.
  unfold pbft_run_round, bind, get_self, put_self, lift, next_block, on_chain, ret.
  destruct (py_mod _ _) as [i|e|];
    [|intros [= <- <- <- <-]; repeat split; apply honest_reset..].
  destruct (list_get _ i) as [leader|e|];
    [|intros [= <- <- <- <-]; repeat split; apply honest_reset..].
  destruct (create_next_block_cases bc txs (Some leader) w)
    as [[e ->] | (latest & HL & ->)];
    [intros [= <- <- <- <-]; repeat split; apply honest_reset|].
  set (draft := mkBlock _ _ _ _ _ _ _).
  unfold phase_commit. cbv beta iota zeta.
  destruct (quorum _ <=? committed_count _).
  - destruct (add_block bc _) as [oa bc1].
    destruct oa as [flag| |]; intros [= <- <- <- <-]; repeat split;
      first [exact (honest_after_round self (compute_hash draft))
            |exact (eq_trans (honest_after_commit (reset_round self)
                                (compute_hash draft)) (honest_reset self))].
  - intros [= <- <- <- <-]. repeat split.
    exact (honest_after_round self (compute_hash draft)).
Qed.

(** A round on a chain with a latest block, for a non-empty validator
    list: it returns after three phases, and succeeds exactly when the
    committed validators reach the quorum and the tip carries a hash. *)
Lemma pbft_round (fuel : nat) (txs : list Transaction) (nodes : list string)
    (self : PracticalBFT) (bc : Blockchain) (latest : Block) (w : World) :
  node_list self <> [] ->
  latest_block bc = Ret latest ->
  exists res leader h bc',
    pbft_run_round fuel txs nodes self bc w
    = (Ret res, next_view (after_commit (reset_round self) h), bc',
       snd (time_time w))
    /\ rounds res = 3
    /\ proposer res = Some leader
    /\ ((quorum self <= committed_count (after_commit (reset_round self) h)
         /\ success res = has_hash latest
         /\ exists b, block res = Some b
                      /\ add_block bc b = (Ret (success res), bc'))
        \/ (committed_count (after_commit (reset_round self) h) < quorum self
            /\ success res = false /\ block res = None /\ bc' = bc)).
Proof.
  intros Hne HL.
  unfold pbft_run_round, bind, get_self, put_self, lift, next_block, on_chain, ret.
  cbn [node_list byzantine_count pbft_view reset_round].
  assert (Hn : 0 < Z.of_nat (length (node_list self))).
  { destruct (node_list self); [congruence|simpl; lia]. }
  unfold py_mod. destruct (Z.eqb_spec (Z.of_nat (length (node_list self))) 0);
    [lia|].
  destruct (list_get_in_range (node_list self)
              (pbft_view self mod Z.of_nat (length (node_list self))))
    as (leader & -> & _); [apply Z.mod_pos_bound; exact Hn|].
  rewrite (create_next_block_given bc latest txs (Some leader) w HL).
  set (draft := mkBlock _ _ _ _ _ _ _).
  set (b := set_hash draft (Some (compute_hash draft))).
  pose proof (add_block_on_tip bc latest b HL eq_refl eq_refl) as Hadd.
  unfold phase_commit. cbv beta iota zeta.
  change (quorum (with_nodes _ _)) with (quorum self).
  change (committed_count (with_nodes _ _))
    with (committed_count (after_commit (reset_round self) (compute_hash draft))).
  destruct (Z.leb_spec (quorum self)
              (committed_count (after_commit (reset_round self) (compute_hash draft)))).
  - rewrite Hadd. unfold has_hash.
    destruct (hash latest) as [x|].
    + eexists _, leader, (compute_hash draft), _.
      split; [reflexivity|]. cbn [rounds proposer success block].
      split; [reflexivity|]. split; [reflexivity|]. left.
      split; [assumption|]. split; [reflexivity|].
      exists b. split; [reflexivity|exact Hadd].
    + eexists _, leader, (compute_hash draft), _.
      split; [reflexivity|]. cbn [rounds proposer success block].
      split; [reflexivity|]. split; [reflexivity|]. left.
      split; [assumption|]. split; [reflexivity|].
      exists b. split; [reflexivity|exact Hadd].
  - eexists _, leader, (compute_hash draft), _.
    split; [reflexivity|]. cbn [rounds proposer success block].
    split; [reflexivity|]. split; [reflexivity|]. right.
    split; [assumption|]. auto.
Qed.

(** ** PBFT: what the constructor builds *)

Lemma dict_set_fresh {V} (d : list (string * V)) (k : string) (v : V) :
  k ∉ map fst d -> dict_set d k v = d ++ [(k, v)].
Proof.
  induction d as [|[k' v'] d IH]; simpl; intros H; [reflexivity|].
  apply not_elem_of_cons in H as [Hne H].
  destruct (String.eqb_spec k' k); [congruence|]. now rewrite IH.
Qed.

Lemma dict_comprehension_distinct {A V} (key : A -> string) (value : A -> V)
    (l : list A) :
  NoDup (map key l) ->
  dict_comprehension key value l = map (fun x => (key x, value x)) l.
Proof.
  unfold dict_comprehension.
  assert (Hgen : forall acc : list (string * V),
             NoDup (map fst acc ++ map key l) ->
             fold_left (fun d x => dict_set d (key x) (value x)) l acc
             = acc ++ map (fun x => (key x, value x)) l).
  { induction l as [|x l IH]; intros acc Hnd; simpl.
    - now rewrite app_nil_r.
    - rewrite dict_set_fresh.
      + rewrite IH.
        * now rewrite <- app_assoc.
        * rewrite map_app. simpl. rewrite <- app_assoc. exact Hnd.
      + simpl in Hnd. apply NoDup_app in Hnd as (_ & Hdisj & _).
        intros Hin. apply (Hdisj _ Hin). left. }
  intros Hnd. apply (Hgen []). exact Hnd.
Qed.

Lemma delete_middle {A} (l : list A) (j : nat) (x : A) :
  l !! j = Some x ->
  l = take j l ++ x :: drop (S j) l /\ delete j l = take j l ++ drop (S j) l.
Proof.
  intros H. split.
  - symmetry. apply take_drop_middle. exact H.
  - apply delete_take_drop.
Qed.

(** A sample of [k] out of distinct candidates: [k] distinct members. *)
Lemma sample_loop_distinct {A} (k : nat) :
  forall (pool picked : list A) (w w1 : World),
    NoDup pool -> (k <= length pool)%nat ->
    sample_loop k pool w = (picked, w1) ->
    length picked = k /\ NoDup picked /\ (forall x, x ∈ picked -> x ∈ pool).
Proof.
  induction k as [|k IH]; intros pool picked w w1 Hnd Hk; simpl.
  - intros [= <- <-]. repeat split; [constructor|].
    intros x Hx. apply elem_of_nil in Hx. contradiction.
  - destruct (rand_raw w) as [r w0].
    assert (Hlen : length pool <> 0%nat) by lia.
    pose proof (Nat.mod_upper_bound r (length pool) Hlen) as Hj.
    destruct (lookup_lt_is_Some_2 pool _ Hj) as [x Hx]. rewrite Hx.
    destruct (delete_middle pool _ x Hx) as [Hpool Hdel].
    destruct (sample_loop k (delete (r mod length pool)%nat pool) w0)
      as [rest w2] eqn:Erest.
    intros [= <- <-].
    assert (Hnd' : NoDup (delete (r mod length pool)%nat pool)).
    { rewrite Hdel. rewrite Hpool in Hnd.
      apply NoDup_app in Hnd as (H1 & H2 & H3). apply NoDup_cons in H3 as [_ H3].
      apply NoDup_app. repeat split; [exact H1| |exact H3].
      intros y Hy1 Hy2. apply (H2 y Hy1). right. exact Hy2. }
    assert (Hx' : x ∉ delete (r mod length pool)%nat pool).
    { rewrite Hdel. rewrite Hpool in Hnd.
      apply NoDup_app in Hnd as (H1 & H2 & H3). apply NoDup_cons in H3 as [H3 _].
      intros Hin. apply elem_of_app in Hin as [Hin|Hin]; [|contradiction].
      apply (H2 x Hin). left. }
    destruct (IH _ _ _ _ Hnd' ltac:(rewrite length_delete; [lia|eauto]) Erest)
      as (Hl & Hr & Hsub).
    repeat split.
    + simpl. lia.
    + apply NoDup_cons. split; [|exact Hr].
      intros Hin. apply Hx'. apply Hsub. exact Hin.
    + intros y Hy. apply elem_of_cons in Hy as [->|Hy].
      * eapply list_elem_of_lookup_2. exact Hx.
      * eapply list_elem_of_delete_inv. apply Hsub. exact Hy.
Qed.

Lemma length_filter_out (pool picked : list string) :
  NoDup pool -> NoDup picked -> (forall x, x ∈ picked -> x ∈ pool) ->
  length (filter (fun a => a ∉ (list_to_set picked : gset string)) pool)
  = (length pool - length picked)%nat.
Proof.
  intros Hpool Hpicked Hsub.
  pose proof (filter_app_complement
                (fun a => a ∉ (list_to_set picked : gset string)) pool) as Hperm.
  apply Permutation_length in Hperm. rewrite length_app in Hperm.
  assert (Hin : filter (fun a : string =>
                          ¬ (a ∉ (list_to_set picked : gset string))) pool
                ≡ₚ picked).
  { apply NoDup_Permutation; [apply NoDup_filter; exact Hpool|exact Hpicked|].
    intros x. rewrite list_elem_of_filter, elem_of_list_to_set. split.
    - intros [Hx _]. destruct (decide (x ∈ picked)); [assumption|contradiction].
    - intros Hx. split; [auto|apply Hsub; exact Hx]. }
  apply Permutation_length in Hin. lia.
Qed.

(** A constructed instance over distinct validators has [n - f] honest
    validators, all distinct, and that is enough for a quorum. *)
Lemma PracticalBFT_init_live (nodes : list string) (f : Z) (w w1 : World)
    (self : PracticalBFT) :
  NoDup nodes ->
  PracticalBFT_init nodes f w = (Ret self, w1) ->
  pbft_live self
  /\ length (honest_addresses self) = (length nodes - Z.to_nat f)%nat
  /\ byzantine_count self = f
  /\ node_list self = nodes.
Proof.
  intros Hnd Hinit.
  destruct (PracticalBFT_init_cases nodes f w)
    as [(Hf & E) | [(Hneg & Hf & E) | (Hf & picked & w2 & Hs & E)]];
    rewrite E in Hinit; try discriminate.
  injection Hinit as <- <-.
  destruct (sample_loop_distinct (Z.to_nat f) nodes picked w w2 Hnd) as
    (Hlen & Hpicked & Hsub); [|exact Hs|].
  { assert (Hn : 0 <= Z.of_nat (length nodes)) by lia.
    pose proof (Z.div_mod (Z.of_nat (length nodes) - 1) 3).
    pose proof (Z.mod_pos_bound (Z.of_nat (length nodes) - 1) 3). lia. }
  assert (Hhonest :
    honest_addresses
      (mkPBFT nodes f 0
         (dict_comprehension (fun addr => addr)
            (fun addr => mkNode addr
                (bool_decide (addr ∈ (list_to_set picked : gset string)))
                ∅ ∅ false false) nodes))
    = filter (fun a => a ∉ (list_to_set picked : gset string)) nodes).
  { unfold honest_addresses. cbn [pbft_nodes].
    rewrite dict_comprehension_distinct by (rewrite map_id; exact Hnd).
    unfold dict_values. rewrite map_map. cbn [snd].
    rewrite (filter_map_equiv _ _
               (fun a => a ∉ (list_to_set picked : gset string))).
    - rewrite map_map. cbn [address]. apply map_id.
    - intros a. cbn [is_byzantine]. rewrite bool_decide_eq_false. reflexivity. }
  rewrite Hhonest.
  pose proof (length_filter_out nodes picked Hnd Hpicked Hsub) as Hcount.
  rewrite Hlen in Hcount.
  split; [|split; [exact Hcount|split; reflexivity]].
  unfold pbft_live. rewrite Hhonest, Hcount. cbn [node_list].
  assert (Hbound : 3 * f <= Z.of_nat (length nodes) - 1).
  { pose proof (Z.div_mod (Z.of_nat (length nodes) - 1) 3).
    pose proof (Z.mod_pos_bound (Z.of_nat (length nodes) - 1) 3). lia. }
  split; [|split].
  - destruct nodes; [simpl in Hbound; lia|discriminate].
  - apply NoDup_filter. exact Hnd.
  - unfold quorum. cbn [byzantine_count]. lia.
Qed.

Lemma reachable_pbft (self0 self : PracticalBFT) :
  reachable self0 self ->
  node_list self = node_list self0
  /\ byzantine_count self = byzantine_count self0
  /\ honest_addresses self = honest_addresses self0.
Proof.
  induction 1 as [|s s' fuel txs nodes bc bc' w w' o _ (IH1 & IH2 & IH3) Hrun].
  - repeat split.
  - cbn [run_round PBFT_protocol] in Hrun.
    destruct (pbft_round_preserves _ _ _ _ _ _ _ _ _ _ Hrun) as (H1 & H2 & H3).
    repeat split; congruence.
Qed.

Lemma reachable_live (self0 self : PracticalBFT) :
  reachable self0 self -> pbft_live self0 -> pbft_live self.
Proof.
  intros Hr (H1 & H2 & H3).
  destruct (reachable_pbft _ _ Hr) as (E1 & E2 & E3).
  unfold pbft_live, quorum in *. rewrite E1, E2, E3. auto.
Qed.

(** A live instance finalizes a block in every round on a chain whose tip
    carries a hash. *)
Lemma pbft_live_round (fuel : nat) (txs : list Transaction) (nodes : list string)
    (self : PracticalBFT) (bc : Blockchain) (latest : Block) (w : World) :
  pbft_live self ->
  latest_block bc = Ret latest ->
  hash latest <> None ->
  exists res self' bc' b,
    pbft_run_round fuel txs nodes self bc w
    = (Ret res, self', bc', snd (time_time w))
    /\ success res = true
    /\ rounds res = 3
    /\ block res = Some b
    /\ chain bc' = chain bc ++ [b]
    /\ committed_count self' = Z.of_nat (length (honest_addresses self)).
Proof.
  intros (Hne & Hnd & Hq) HL Hh.
  destruct (pbft_round fuel txs nodes self bc latest w Hne HL)
    as (res & leader & h & bc' & Hrun & Hrounds & _ & Hcase).
  pose proof (committed_count_live self h Hnd Hq) as Hcount.
  destruct Hcase as [(_ & Hs & b & Hb & Hadd) | (Hlt & _)]; [|lia].
  assert (Hs' : success res = true).
  { rewrite Hs. unfold has_hash. destruct (hash latest); congruence. }
  rewrite Hs' in Hadd.
  destruct (add_block_true_inv _ _ _ Hadd) as (_ & _ & _ & ->).
  exists res, (next_view (after_commit (reset_round self) h)),
    (set_chain bc (chain bc ++ [b])), b.
  repeat split; first [assumption | reflexivity | exact Hcount].
Qed.

(** C5. A PBFT instance built over seven distinct validators with two
    Byzantine ones has quorum 5 and five honest validators; in every round
    it is ever asked to run on a chain whose latest block carries a hash,
    all five honest validators collect a quorum of COMMITs, and the round
    returns success with [rounds = 3] and the block appended. *)
Theorem pbft_liveness_n7_f2 (nodes : list string) (w0 w1 : World)
    (self0 self : PracticalBFT) (fuel : nat) (txs : list Transaction)
    (active : list string) (bc : Blockchain) (latest : Block) (w : World) :
  length nodes = 7%nat ->
  NoDup nodes ->
  PracticalBFT_init nodes 2 w0 = (Ret self0, w1) ->
  reachable self0 self ->
  latest_block bc = Ret latest ->
  hash latest <> None ->
  quorum self = 5
  /\ length (honest_addresses self) = 5%nat
  /\ exists res self' bc' w' b,
       run_round fuel txs active self bc w = (Ret res, self', bc', w')
       /\ success res = true
       /\ rounds res = 3
       /\ block res = Some b
       /\ chain bc' = chain bc ++ [b]
       /\ committed_count self' = 5.
Proof.
  intros Hlen Hnd Hinit Hreach HL Hh.
  destruct (PracticalBFT_init_live nodes 2 w0 w1 self0 Hnd Hinit)
    as (Hlive0 & Hcount0 & Hf0 & _).
  destruct (reachable_pbft _ _ Hreach) as (_ & Ef & Eh).
  pose proof (reachable_live _ _ Hreach Hlive0) as Hlive.
  assert (Hfive : length (honest_addresses self) = 5%nat).
  { rewrite Eh, Hcount0, Hlen. reflexivity. }
  split; [unfold quorum; rewrite Ef, Hf0; reflexivity|].
  split; [exact Hfive|].
  destruct (pbft_live_round fuel txs active self bc latest w Hlive HL Hh)
    as (res & self' & bc' & b & Hrun & Hs & Hr & Hb & Hc & Hcc).
  exists res, self', bc', (snd (time_time w)), b.
  rewrite Hfive in Hcc. repeat split; assumption.
Qed.

(** ** PoS and PoW: one round *)

Lemma pos_round (fuel : nat) (txs : list Transaction) (nodes : list string)
    (self : ProofOfStake) (bc : Blockchain) (latest : Block) (w : World) :
  validators self <> [] ->
  pos_well_formed self ->
  pos_draw_accepted self w ->
  latest_block bc = Ret latest ->
  exists p res self' bc' w' b,
    pos_run_round fuel txs nodes self bc w = (Ret res, self', bc', w')
    /\ proposer res = Some p
    /\ block res = Some b
    /\ success res = has_hash latest
    /\ add_block bc b = (Ret (success res), bc').
Proof.
  intros Hne Hwf Hdraw HL.
  destruct (select_validator_member self bc w Hne Hwf Hdraw)
    as (p & w1 & Hsel & [info Hinfo]).
  unfold pos_run_round, bind, get_self, put_self, lift, next_block, on_chain, ret.
  destruct (validators self) as [|kv vs] eqn:Ev; [congruence|].
  rewrite <- Ev in Hinfo |- *.
  rewrite Hsel. unfold dict_item. rewrite Hinfo.
  rewrite (create_next_block_given bc latest txs (Some p) w1 HL).
  set (draft := mkBlock _ _ _ _ _ _ _).
  set (b := set_hash draft (Some (compute_hash draft))).
  pose proof (add_block_on_tip bc latest b HL eq_refl eq_refl) as Hadd.
  rewrite Hadd. unfold has_hash.
  destruct (hash latest) as [x|]; cbn [validators].
  - destruct (dict_get_age_step p p (validators self)) as [info' ->];
      [rewrite Hinfo; eauto|].
    eexists p, _, _, _, _, b. repeat split. exact Hadd.
  - rewrite Hinfo. eexists p, _, _, _, _, b. repeat split. exact Hadd.
Qed.

Lemma pow_round (fuel : nat) (txs : list Transaction) (nodes : list string)
    (self : ProofOfWork) (bc : Blockchain) (latest : Block) (w : World) :
  nodes <> [] ->
  pow_search_ends fuel self txs nodes bc w ->
  latest_block bc = Ret latest ->
  exists miner res bc' w' b,
    pow_run_round fuel txs nodes self bc w = (Ret res, self, bc', w')
    /\ proposer res = Some miner
    /\ block res = Some b
    /\ success res = has_hash latest
    /\ add_block bc b = (Ret (success res), bc').
Proof.
  intros Hne [Hnil | (draft & Hdraft & [h Hmine])] HL; [congruence|].
  unfold pow_draft in Hdraft. unfold pow_run_round.
  destruct nodes as [|n0 nodes]; [congruence|].
  destruct (random_choice_member (n0 :: nodes) w Hne) as (miner & Hc & _).
  unfold bind, get_self, now, on_world, lift, next_block, on_chain, ret.
  rewrite Hc in *.
  rewrite (create_next_block_given bc latest txs (Some miner) _ HL) in *.
  cbv beta iota in Hdraft. injection Hdraft as <-.
  set (draft := mkBlock _ _ _ _ _ _ _) in *.
  destruct (time_time (snd (time_time (snd (rand_raw w))))) as [start w2].
  destruct (mine fuel (difficulty self) draft) as [mined b] eqn:Em.
  simpl in Hmine. subst mined.
  destruct (mine_returns_first _ _ _ _ _ Em) as (k & _ & Hh & Hb & _).
  destruct (time_time w2) as [stop w3].
  assert (Hadd : add_block bc b
                 = match hash latest with
                   | Some _ => (Ret true, set_chain bc (chain bc ++ [b]))
                   | None => (Ret false, bc)
                   end).
  { apply (add_block_on_tip bc latest b HL); subst b; [reflexivity|].
    simpl. rewrite Hh. reflexivity. }
  rewrite Hadd. unfold has_hash.
  destruct (hash latest) as [x|];
    eexists miner, _, _, _, b; repeat split; exact Hadd.
Qed.

Lemma pow_returns (fuel : nat) (txs : list Transaction) (nodes : list string)
    (self : ProofOfWork) (bc : Blockchain) (w : World) :
  chain bc <> [] ->
  pow_search_ends fuel self txs nodes bc w ->
  returns (outcome_of (run_round fuel txs nodes self bc w)).
Proof.
  intros Hc Hs. cbn [run_round PoW_protocol].
  destruct nodes as [|n0 nodes]; [eexists; reflexivity|].
  destruct (latest_block_nonempty bc Hc) as [latest HL].
  destruct (pow_round fuel txs (n0 :: nodes) self bc latest w
              ltac:(discriminate) Hs HL) as (m & res & bc' & w' & b & -> & _).
  eexists; reflexivity.
Qed.

(** A PoW round whose nonce search is still running when the step budget
    is spent has not returned, and has left protocol object and chain as
    they were. *)
Lemma pow_round_unfinished (fuel : nat) (txs : list Transaction)
    (nodes : list string) (self : ProofOfWork) (bc : Blockchain)
    (latest : Block) (w : World) :
  nodes <> [] ->
  latest_block bc = Ret latest ->
  (forall b, fst (mine fuel (difficulty self) b) = Running) ->
  exists w', pow_run_round fuel txs nodes self bc w = (Running, self, bc, w').
Proof.
  intros Hne HL Hrun. unfold pow_run_round.
  destruct nodes as [|n0 nodes]; [congruence|].
  destruct (random_choice_member (n0 :: nodes) w Hne) as (miner & Hc & _).
  unfold bind, get_self, now, on_world, lift, next_block, on_chain, ret.
  rewrite Hc.
  rewrite (create_next_block_given bc latest txs (Some miner) _ HL).
  set (draft := mkBlock _ _ _ _ _ _ _).
  destruct (time_time (snd (time_time (snd (rand_raw w))))) as [start w2].
  specialize (Hrun draft).
  destruct (mine fuel (difficulty self) draft) as [mined b].
  cbn [fst] in Hrun. subst mined. eexists. reflexivity.
Qed.

Lemma pos_returns (fuel : nat) (txs : list Transaction) (nodes : list string)
    (self : ProofOfStake) (bc : Blockchain) (w : World) :
  chain bc <> [] ->
  pos_well_formed self ->
  pos_draw_accepted self w ->
  returns (outcome_of (run_round fuel txs nodes self bc w)).
Proof.
  intros Hc Hwf Hdraw. cbn [run_round PoS_protocol].
  destruct (validators self) as [|kv vs] eqn:Ev.
  - unfold pos_run_round, bind, get_self, ret. rewrite Ev. eexists; reflexivity.
  - destruct (latest_block_nonempty bc Hc) as [latest HL].
    destruct (pos_round fuel txs nodes self bc latest w
                ltac:(rewrite Ev; discriminate) Hwf Hdraw HL)
      as (p & res & self' & bc' & w' & b & -> & _).
    eexists; reflexivity.
Qed.

Lemma dpos_returns (fuel : nat) (txs : list Transaction) (nodes : list string)
    (self : DelegatedProofOfStake) (bc : Blockchain) (w : World) :
  chain bc <> [] ->
  returns (outcome_of (run_round fuel txs nodes self bc w)).
Proof.
  intros Hc. cbn [run_round DPoS_protocol].
  destruct (active_delegates self) as [|a l] eqn:Ea.
  - unfold dpos_run_round, bind, get_self, lift, ret, current_delegate.
    rewrite Ea. eexists; reflexivity.
  - destruct (latest_block_nonempty bc Hc) as [latest HL].
    destruct (dpos_round fuel txs nodes self bc latest w
                ltac:(rewrite Ea; discriminate) HL)
      as (d & res & self' & bc' & b & -> & _).
    eexists; reflexivity.
Qed.

Lemma pbft_returns (fuel : nat) (txs : list Transaction) (nodes : list string)
    (self : PracticalBFT) (bc : Blockchain) (w : World) :
  chain bc <> [] ->
  node_list self <> [] ->
  returns (outcome_of (run_round fuel txs nodes self bc w)).
Proof.
  intros Hc Hne. cbn [run_round PBFT_protocol].
  destruct (latest_block_nonempty bc Hc) as [latest HL].
  destruct (pbft_round fuel txs nodes self bc latest w Hne HL)
    as (res & leader & h & bc' & -> & _).
  eexists; reflexivity.
Qed.

(** ** The instances a program can hold *)

Lemma ProofOfStake_init_well_formed (stakes : list (string * float)) (af : float) :
  pos_well_formed (ProofOfStake_init stakes af).
Proof.
  unfold pos_well_formed, ProofOfStake_init. cbn [validators].
  apply (dict_comprehension_invariant fst
           (fun kv : string * float => mkStakeInfo (fst kv) (snd kv) 0)
           (fun kv => si_address (snd kv) = fst kv) stakes).
  reflexivity.
Qed.

Lemma age_step_well_formed (proposer : string) (d : list (string * StakeInfo)) :
  Forall (fun kv => si_address (snd kv) = fst kv) d ->
  Forall (fun kv => si_address (snd kv) = fst kv) (map (age_step proposer) d).
Proof.
  intros H. induction H as [|kv d Hkv _ IH]; simpl; constructor; [|exact IH].
  destruct (age_step_key proposer kv) as (Hk & Ha & _). congruence.
Qed.

(** A round leaves the stake table as it was or ages it around a proposer. *)
Lemma pos_round_state (fuel : nat) (txs : list Transaction) (nodes : list string)
    (self self' : ProofOfStake) (bc bc' : Blockchain) (w w' : World)
    (o : outcome ConsensusResult) :
  pos_run_round fuel txs nodes self bc w = (o, self', bc', w') ->
  self' = self
  \/ exists p, self' = mkPoS (map (age_step p) (validators self)) (age_factor self).
Proof.
  unfold pos_run_round, bind, get_self, put_self, lift, next_block, on_chain, ret.
  destruct (validators self) as [|kv vs] eqn:Ev;
    [intros [= <- <- <- <-]; left; reflexivity|].
  rewrite <- Ev.
  destruct (select_validator_cases self bc w) as (os & w1 & ->).
  destruct os as [proposer|e|]; try (intros [= <- <- <- <-]; left; reflexivity).
  destruct (dict_item (validators self) proposer) as [info|e|];
    try (intros [= <- <- <- <-]; left; reflexivity).
  destruct (create_next_block_cases bc txs (Some proposer) w1)
    as [[e ->] | (latest & HL & ->)];
    [intros [= <- <- <- <-]; left; reflexivity|].
  destruct (add_block bc _) as [oa bc1].
  destruct oa as [[|]| |]; try (intros [= <- <- <- <-]; left; reflexivity).
  - destruct (dict_item _ proposer); intros [= <- <- <- <-]; right; eauto.
  - destruct (dict_item _ proposer); intros [= <- <- <- <-]; left; reflexivity.
Qed.

Lemma reachable_pos (self0 self : ProofOfStake) :
  reachable self0 self -> pos_well_formed self0 -> pos_well_formed self.
Proof.
  induction 1 as [|s s' fuel txs nodes bc bc' w w' o _ IH Hrun]; [auto|].
  intros H0. specialize (IH H0). cbn [run_round PoS_protocol] in Hrun.
  destruct (pos_round_state _ _ _ _ _ _ _ _ _ _ Hrun) as [->|[p ->]];
    [exact IH|].
  unfold pos_well_formed. cbn [validators]. apply age_step_well_formed. exact IH.
Qed.

Lemma PracticalBFT_init_nonempty (nodes : list string) (f : Z) (w w1 : World)
    (self : PracticalBFT) :
  PracticalBFT_init nodes f w = (Ret self, w1) -> node_list self <> [].
Proof.
  intros Hinit.
  destruct (PracticalBFT_init_cases nodes f w)
    as [(Hf & E) | [(Hneg & Hf & E) | (Hf & picked & w2 & Hs & E)]];
    rewrite E in Hinit; try discriminate.
  injection Hinit as <- <-. cbn [node_list].
  destruct nodes; [|discriminate].
  change ((Z.of_nat (length (@nil string)) - 1) / 3) with (-1) in Hf. lia.
Qed.

(** C1, as amended.  For each of the four protocols, a call of
    [run_round] that returns has left the chain with exactly one block
    more, the block of the result, and returns [success = true], or has
    left the chain as it was and returns [success = false]; a call that
    raises or whose search does not end has not touched the chain either;
    no call touches the pending pool or the difficulty of the chain.  Not
    every call returns.  On a chain that is not empty the call returns:
    always for DPoS, for every PBFT instance the constructor built,
    whatever rounds it ran before, for every PoS instance the constructor
    built when the weighted draw accepts the stake table, for PoW when the
    nonce search ends. *)
Theorem run_round_side_effect_consistent :
  (side_effect_consistent PoW_protocol
   /\ side_effect_consistent PoS_protocol
   /\ side_effect_consistent DPoS_protocol
   /\ side_effect_consistent PBFT_protocol)
  /\ (forall fuel txs nodes (self : ProofOfWork) bc w,
        chain bc <> [] ->
        pow_search_ends fuel self txs nodes bc w ->
        returns (outcome_of (run_round fuel txs nodes self bc w)))
  /\ (forall fuel txs nodes stakes af (self : ProofOfStake) bc w,
        reachable (ProofOfStake_init stakes af) self ->
        chain bc <> [] ->
        pos_draw_accepted self w ->
        returns (outcome_of (run_round fuel txs nodes self bc w)))
  /\ (forall fuel txs nodes (self : DelegatedProofOfStake) bc w,
        chain bc <> [] ->
        returns (outcome_of (run_round fuel txs nodes self bc w)))
  /\ (forall fuel txs nodes validators f w0 w1 (self0 self : PracticalBFT) bc w,
        PracticalBFT_init validators f w0 = (Ret self0, w1) ->
        reachable self0 self ->
        chain bc <> [] ->
        returns (outcome_of (run_round fuel txs nodes self bc w))).
Proof.
  split; [|split; [|split; [|split]]].
  - split; [exact pow_consistent|].
    split; [exact pos_consistent|].
    split; [exact dpos_consistent|exact pbft_consistent].
  - exact pow_returns.
  - intros fuel txs nodes stakes af self bc w Hreach Hc Hdraw.
    apply pos_returns; [exact Hc| |exact Hdraw].
    exact (reachable_pos _ _ Hreach (ProofOfStake_init_well_formed stakes af)).
  - exact dpos_returns.
  - intros fuel txs nodes vs f w0 w1 self0 self bc w Hinit Hreach Hc.
    apply pbft_returns; [exact Hc|].
    destruct (reachable_pbft _ _ Hreach) as (-> & _).
    exact (PracticalBFT_init_nonempty _ _ _ _ _ Hinit).
Qed.

(** ** The chain under any sequence of calls *)

Lemma is_valid_from_positions (rest : list Block) :
  forall previous,
    is_valid_from previous rest = true <->
    forall (i : nat) (p c : Block),
      (previous :: rest) !! i = Some p -> (previous :: rest) !! S i = Some c ->
      link_ok p c = true.
Proof.
  induction rest as [|current tl IH]; intros previous.
  - split; [|reflexivity]. intros _ i p c _ Hc. destruct i; discriminate.
  - rewrite is_valid_from_cons, andb_true_iff, IH. split.
    + intros [Hl Hr] i p c Hp Hc. destruct i as [|i].
      * simpl in Hp, Hc. injection Hp as <-. injection Hc as <-. exact Hl.
      * apply (Hr i); assumption.
    + intros Hall. split.
      * apply (Hall 0%nat); reflexivity.
      * intros i p c Hp Hc. apply (Hall (S i)); assumption.
Qed.

(** X1.  [Blockchain.is_valid] returns true exactly when every block after
    the first stores the hash of its own contents and names in
    [previous_hash] the stored hash of the block before it.  Nothing else
    is read: not the indices, not the timestamps, not the contents of the
    first block. *)
Theorem is_valid_by_position (bc : Blockchain) :
  is_valid bc = true <->
  forall (i : nat) (previous current : Block),
    chain bc !! i = Some previous -> chain bc !! S i = Some current ->
    hash current = Some (compute_hash current)
    /\ Some (previous_hash current) = hash previous.
Proof.
  unfold is_valid. destruct (chain bc) as [|first rest].
  - split; [|reflexivity]. intros _ i p c Hp. discriminate.
  - rewrite is_valid_from_positions.
    split; intros Hall i p c Hp Hc; specialize (Hall i p c Hp Hc);
      unfold link_ok in *; rewrite andb_true_iff, !opt_str_eqb_eq in *;
      exact Hall.
Qed.

Lemma create_next_block_frame (bc : Blockchain)
    (txs : option (list Transaction)) (v : option string) (w : World) :
  chain (snd (fst (create_next_block bc txs v w))) = chain bc
  /\ bc_difficulty (snd (fst (create_next_block bc txs v w))) = bc_difficulty bc.
Proof.
  unfold create_next_block.
  destruct (latest_block bc); [|split; reflexivity..].
  destruct (time_time w). destruct txs; split; reflexivity.
Qed.

Lemma is_valid_chain (bc bc' : Blockchain) :
  chain bc' = chain bc -> is_valid bc' = is_valid bc.
Proof. unfold is_valid. intros ->. reflexivity. Qed.

Lemma after_call_step (c : chain_call) (bc : Blockchain) (w : World) :
  let bc' := fst (after_call c bc w) in
  bc_difficulty bc' = bc_difficulty bc
  /\ (chain bc' = chain bc
      \/ exists latest b, latest_block bc = Ret latest /\ admissible latest b
                          /\ chain bc' = chain bc ++ [b]).
Proof.
  destruct c as [tx|b|txs v]; cbn [after_call fst].
  - split; [reflexivity|left; reflexivity].
  - destruct (add_block bc b) as [o bc'] eqn:Hadd. cbn [snd].
    destruct (add_block_effect _ _ _ _ Hadd) as (_ & Hd & Hc).
    split; [exact Hd|].
    destruct o as [[|]| |]; [|left..].
    + destruct (add_block_true_inv _ _ _ Hadd) as (latest & Hl & Ha & ->).
      right. exists latest, b.
      split; [exact Hl|split; [exact Ha|reflexivity]].
    + destruct Hc as [[? _]|[_ ?]]; [discriminate|assumption].
    + exact Hc.
    + exact Hc.
  - destruct (create_next_block_frame bc txs v w) as [Hc Hd].
    split; [exact Hd|left; exact Hc].
Qed.

(** X2.  No sequence of [add_transaction], [add_block] and
    [create_next_block] calls removes, replaces or reorders a block: the
    chain before is a prefix of the chain after, each call adds at most
    one block, and the base difficulty stays as it was. *)
Theorem blockchain_calls_append_only (cs : list chain_call) :
  forall (bc : Blockchain) (w : World),
    chain bc `prefix_of` chain (fst (after_calls cs bc w))
    /\ bc_difficulty (fst (after_calls cs bc w)) = bc_difficulty bc
    /\ height bc <= height (fst (after_calls cs bc w))
       <= height bc + Z.of_nat (length cs).
Proof.
  induction cs as [|c r IH]; intros bc w; cbn [after_calls].
  - cbn [fst length]. repeat split; [reflexivity|lia..].
  - destruct (after_call_step c bc w) as [Hd Hc].
    destruct (IH (fst (after_call c bc w)) (snd (after_call c bc w)))
      as (Hp & Hd' & Hh).
    unfold height in *. cbn [length].
    destruct Hc as [Hc|(latest & b & _ & _ & Hc)]; rewrite Hc in *.
    + repeat split; [exact Hp|congruence|lia..].
    + rewrite length_app in Hh. cbn [length] in Hh.
      repeat split; [|congruence|lia..].
      etransitivity; [|exact Hp]. apply prefix_app_r. reflexivity.
Qed.

Lemma after_call_invariant (c : chain_call) (bc : Blockchain) (w : World)
    (g : Block) :
  is_valid bc = true /\ self_hashed bc /\ chain bc !! 0%nat = Some g ->
  let bc' := fst (after_call c bc w) in
  is_valid bc' = true /\ self_hashed bc' /\ chain bc' !! 0%nat = Some g.
Proof.
  intros (Hv & Hs & Hg). cbn zeta.
  destruct (after_call_step c bc w) as [_ [Hc|(latest & b & Hl & Ha & Hc)]].
  - unfold self_hashed. rewrite (is_valid_chain _ _ Hc), Hc. auto.
  - assert (Hadd := add_block_accept bc latest b Hl Ha).
    split; [|split].
    + rewrite (is_valid_chain (set_chain bc (chain bc ++ [b])) _ Hc).
      exact (is_valid_add_block _ _ _ Hv Hadd).
    + unfold self_hashed. rewrite Hc. apply Forall_app. split; [exact Hs|].
      constructor; [exact (proj2 Ha)|constructor].
    + rewrite Hc. apply lookup_app_l_Some. exact Hg.
Qed.

(** X3.  A chain object created without blocks, whatever is then called on
    it, starts with the genesis block, passes [is_valid], and has every
    block, the latest one included, storing the hash of its own contents. *)
Theorem fresh_blockchain_stays_valid (t0 : float) (pending : list Transaction)
    (d : Z) (cs : list chain_call) (w : World) :
  let bc := fst (after_calls cs (Blockchain_init t0 [] pending d) w) in
  is_valid bc = true
  /\ chain bc !! 0%nat = Some (genesis t0)
  /\ self_hashed bc
  /\ exists latest, latest_block bc = Ret latest
                    /\ hash latest = Some (compute_hash latest).
Proof.
  cbn zeta.
  assert (Hall : forall cs bc w,
             is_valid bc = true /\ self_hashed bc
             /\ chain bc !! 0%nat = Some (genesis t0) ->
             let bc' := fst (after_calls cs bc w) in
             is_valid bc' = true /\ self_hashed bc'
             /\ chain bc' !! 0%nat = Some (genesis t0)).
  { clear. induction cs as [|c r IH]; intros bc w Hinv; [exact Hinv|].
    cbn [after_calls]. apply IH. apply after_call_invariant, Hinv. }
  destruct (Hall cs (Blockchain_init t0 [] pending d) w) as (Hv & Hs & Hg).
  { repeat split.
    constructor; [reflexivity|constructor]. }
  repeat split; try assumption.
  destruct (chain_empty_or_latest (fst (after_calls cs (Blockchain_init t0 [] pending d) w)))
    as [Hnil|[latest Hl]].
  - rewrite Hnil in Hg. discriminate.
  - exists latest. split; [exact Hl|].
    destruct (latest_block_inv _ _ Hl) as [c Hc].
    unfold self_hashed in Hs. rewrite Hc in Hs.
    apply Forall_app in Hs. destruct Hs as [_ Hs]. inversion Hs. assumption.
Qed.

(** ** The pending pool and the draft of the next block *)

Lemma fold_add_transaction (txs : list Transaction) :
  forall bc,
    fold_left add_transaction txs bc
    = mkBlockchain (chain bc) (pending_transactions bc ++ txs) (bc_difficulty bc).
Proof.
  induction txs as [|tx r IH]; intros bc; cbn [fold_left].
  - rewrite app_nil_r. destruct bc; reflexivity.
  - rewrite IH. unfold add_transaction. cbn [chain pending_transactions bc_difficulty].
    rewrite <- app_assoc. reflexivity.
Qed.

(** X4.  Transactions handed to [add_transaction] come out of the pool
    once and in the order they went in: a [create_next_block] call without
    a transaction list drafts a block with the whole pool, oldest first,
    and empties the pool, so that the next such draft has no transaction.
    The blocks of the chain are not touched. *)
Theorem pending_pool_round_trip (bc : Blockchain) (latest : Block)
    (txs : list Transaction) (v v' : option string) (w : World) :
  latest_block bc = Ret latest ->
  exists b bc1 w1,
    create_next_block (fold_left add_transaction txs bc) None v w
    = (Ret b, bc1, w1)
    /\ transactions b = pending_transactions bc ++ txs
    /\ pending_transactions bc1 = []
    /\ chain bc1 = chain bc
    /\ exists b' w2,
         create_next_block bc1 None v' w1 = (Ret b', bc1, w2)
         /\ transactions b' = [].
Proof.
  intros Hl. rewrite fold_add_transaction.
  unfold create_next_block, latest_block in *.
  cbn [chain pending_transactions bc_difficulty]. rewrite Hl.
  destruct (time_time w) as [t w1] eqn:Ht.
  eexists _, _, _. split; [reflexivity|].
  cbn [transactions pending_transactions chain bc_difficulty].
  repeat split. rewrite Hl. destruct (time_time w1) as [t' w2].
  eexists _, _. split; reflexivity.
Qed.

(** X5.  On a chain whose latest block carries a hash, the draft that
    [create_next_block] returns has the current height as index, the hash
    of the latest block as [previous_hash] and no hash of its own;
    [add_block] turns the draft away as it is and admits it once its hash
    field is set to [compute_hash()].  The admitted block becomes the
    latest block and sits at the position its index names. *)
Theorem drafted_block_is_admitted (bc : Blockchain) (latest : Block)
    (h : string) (txs : option (list Transaction)) (v : option string)
    (w : World) :
  latest_block bc = Ret latest ->
  hash latest = Some h ->
  exists draft bc1 w1 bc2,
    create_next_block bc txs v w = (Ret draft, bc1, w1)
    /\ index draft = height bc
    /\ previous_hash draft = h
    /\ validator draft = v
    /\ hash draft = None
    /\ add_block bc1 draft = (Ret false, bc1)
    /\ add_block bc1 (hashed draft) = (Ret true, bc2)
    /\ chain bc2 = chain bc ++ [hashed draft]
    /\ latest_block bc2 = Ret (hashed draft)
    /\ chain bc2 !! Z.to_nat (index draft) = Some (hashed draft).
Proof.
  intros Hl Hh.
  destruct (create_next_block bc txs v w) as [[o bc1] w1] eqn:Hc.
  assert (Hchain : chain bc1 = chain bc).
  { pose proof (create_next_block_frame bc txs v w) as [H _].
    rewrite Hc in H. exact H. }
  assert (Hl1 : latest_block bc1 = Ret latest).
  { unfold latest_block in *. rewrite Hchain. exact Hl. }
  unfold create_next_block in Hc. rewrite Hl in Hc.
  destruct (time_time w) as [t w'].
  injection Hc as <- Hbc1 <-.
  set (draft := mkBlock (height bc) t
                  match txs with Some l => l | None => pending_transactions bc end
                  (str_or (hash latest) "") 0 v None).
  assert (Hprev : previous_hash draft = h).
  { cbn [draft previous_hash]. rewrite Hh. apply str_or_some. }
  exists draft, bc1, w', (set_chain bc1 (chain bc1 ++ [hashed draft])).
  split; [reflexivity|].
  split; [reflexivity|].
  split; [exact Hprev|].
  split; [reflexivity|].
  split; [reflexivity|].
  split.
  { apply (add_block_reject bc1 latest); [exact Hl1|].
    intros [_ Hd]. discriminate. }
  split.
  { apply (add_block_accept bc1 latest); [exact Hl1|].
    split; [|reflexivity].
    change (previous_hash (hashed draft)) with (previous_hash draft).
    rewrite Hprev, Hh. reflexivity. }
  cbn [set_chain chain]. rewrite Hchain.
  split; [reflexivity|].
  split.
  { apply (latest_block_snoc _ (chain bc)). reflexivity. }
  cbn [draft index]. unfold height. rewrite Nat2Z.id.
  apply list_lookup_middle. reflexivity.
Qed.

(** X6.  A chain object whose list of blocks is empty (the constructor
    never builds one) makes [latest_block], [add_block] and
    [create_next_block] raise [IndexError] and leaves the object as it
    was, the pending pool included, also when the call would have drained
    it; [is_valid] returns true on it and its height is 0. *)
Theorem empty_chain_raises (bc : Blockchain) :
  chain bc = [] ->
  let e := IndexError "list index out of range" in
  latest_block bc = Raise e
  /\ (forall b, add_block bc b = (Raise e, bc))
  /\ (forall txs v w, create_next_block bc txs v w = (Raise e, bc, w))
  /\ is_valid bc = true
  /\ height bc = 0
  /\ (forall t0 c pending d, chain (Blockchain_init t0 c pending d) <> []).
Proof.
  intros Hnil e.
  assert (Hl : latest_block bc = Raise e).
  { unfold latest_block. rewrite Hnil. reflexivity. }
  split; [exact Hl|].
  split; [intros b; unfold add_block; rewrite Hl; reflexivity|].
  split; [intros txs v w; unfold create_next_block; rewrite Hl; reflexivity|].
  split; [unfold is_valid; rewrite Hnil; reflexivity|].
  split; [unfold height; rewrite Hnil; reflexivity|].
  intros t0 c pending d. destruct c; discriminate.
Qed.

(** ** The nonce search *)

Lemma mine_running (fuel : nat) :
  forall (d : Z) (b : Block),
    (forall k, (k < fuel)%nat -> qualifies d (bump k b) = false) ->
    mine fuel d b = (Running, bump fuel b).
Proof.
  induction fuel as [|fuel IH]; intros d b Hno; cbn [mine].
  - rewrite bump_0. reflexivity.
  - pose proof (Hno 0%nat ltac:(lia)) as H0. rewrite bump_0 in H0.
    unfold qualifies in H0. rewrite H0.
    rewrite IH; [rewrite bump_S; reflexivity|].
    intros k Hk. rewrite bump_S. apply Hno. lia.
Qed.

Lemma mine_never_raises (fuel : nat) :
  forall (d : Z) (b : Block) (e : exn), fst (mine fuel d b) <> Raise e.
Proof.
  induction fuel as [|fuel IH]; intros d b e; cbn [mine]; [discriminate|].
  destruct (startswith _ _); [discriminate|apply IH].
Qed.

Lemma mine_running_inv (fuel : nat) :
  forall (d : Z) (b : Block),
    fst (mine fuel d b) = Running ->
    forall k, (k < fuel)%nat -> qualifies d (bump k b) = false.
Proof.
  induction fuel as [|fuel IH]; intros d b Hrun k Hk; [lia|].
  cbn [mine] in Hrun.
  destruct (startswith (compute_hash b) (str_mul "0" d)) eqn:Hq;
    [discriminate|].
  destruct k as [|k]; [rewrite bump_0; exact Hq|].
  rewrite <- bump_S. apply IH; [exact Hrun|lia].
Qed.

(** X7.  [Block.mine] returns exactly at the first nonce, counted up from
    the block's own, whose hash starts with the target: the returned hash
    is the hash of the block with that nonce and is stored in it, and the
    other fields are as they were.  A search that has not ended after
    [fuel] checks has found no such nonce among the first [fuel].  The
    search never raises. *)
Theorem mine_stops_at_first_qualifying_nonce (fuel : nat) (d : Z) (b : Block) :
  (forall (h : string) (b' : Block),
      mine fuel d b = (Ret h, b') <->
      exists k, (k < fuel)%nat
        /\ qualifies d (bump k b) = true
        /\ (forall j, (j < k)%nat -> qualifies d (bump j b) = false)
        /\ h = compute_hash (bump k b)
        /\ b' = set_hash (bump k b) (Some h))
  /\ (fst (mine fuel d b) = Running <->
      forall k, (k < fuel)%nat -> qualifies d (bump k b) = false)
  /\ (forall e, fst (mine fuel d b) <> Raise e).
Proof.
  split; [|split].
  - intros h b'. split.
    + intros Hm. destruct (mine_returns_first _ _ _ _ _ Hm)
        as (k & Hk & Hh & Hb & Hq & Hfirst).
      exists k. unfold qualifies. rewrite <- Hh. auto.
    + intros (k & Hk & Hq & Hfirst & -> & ->).
      apply mine_finds; assumption.
  - split.
    + apply mine_running_inv.
    + intros Hno. rewrite (mine_running fuel d b Hno). reflexivity.
  - apply mine_never_raises.
Qed.

Lemma prefix_length (t s : string) :
  String.prefix t s = true -> (String.length t <= String.length s)%nat.
Proof.
  revert s. induction t as [|c t IH]; intros s H; cbn [String.length]; [lia|].
  destruct s as [|c' s]; cbn [String.prefix] in H; [discriminate|].
  destruct (ascii_dec c c'); [|discriminate].
  cbn [String.length]. apply IH in H. lia.
Qed.

Lemma str_repeat_length (n : nat) : String.length (str_repeat "0" n) = n.
Proof.
  induction n as [|n IH]; [reflexivity|].
  change (str_repeat "0" (S n)) with (String "0"%char (str_repeat "0" n)).
  cbn [String.length]. rewrite IH. reflexivity.
Qed.

(** X8.  When the difficulty asked for is larger than the length of every
    hash (64 for SHA-256), no nonce qualifies and [Block.mine] never
    returns: after any number of checks the search is still running and
    has raised the nonce by that number. *)
Theorem mine_never_ends_beyond_hash_length (n : nat) (d : Z) :
  (forall data, String.length (sha256_hex data) = n) ->
  Z.of_nat n < d ->
  forall (fuel : nat) (b : Block), mine fuel d b = (Running, bump fuel b).
Proof.
  intros Hlen Hd fuel b. apply mine_running. intros k _.
  unfold qualifies, startswith, str_mul.
  destruct (String.prefix _ _) eqn:Hp; [exfalso|reflexivity].
  apply prefix_length in Hp. rewrite str_repeat_length in Hp.
  unfold compute_hash in Hp. rewrite Hlen in Hp. lia.
Qed.

(** ** What a returned round has done *)

Lemma proposed_on_draft (bc : Blockchain) (latest : Block)
    (txs : list Transaction) (p : string) (t : float) :
  latest_block bc = Ret latest ->
  proposed_on bc txs p
    (hashed (mkBlock (height bc) t txs (str_or (hash latest) "") 0 (Some p) None)).
Proof.
  intros HL. repeat split. exists latest. split; [exact HL|reflexivity].
Qed.

Lemma dict_get_aged (p k : string) (d : list (string * StakeInfo)) :
  dict_get (map (age_step p) d) k = option_map (aged p k) (dict_get d k).
Proof.
  induction d as [|[k' v] d IH]; [reflexivity|].
  cbn [map dict_get age_step].
  destruct (String.eqb k' p) eqn:Ep; cbn [dict_get];
    destruct (String.eqb_spec k' k) as [->|Hk]; try exact IH;
    cbn [option_map]; unfold aged; rewrite Ep; reflexivity.
Qed.

Lemma map_fst_age_step (p : string) (d : list (string * StakeInfo)) :
  map fst (map (age_step p) d) = map fst d.
Proof.
  rewrite map_map. apply map_ext. intros kv.
  exact (proj1 (age_step_key p kv)).
Qed.

(** The ways a PoS round returns. *)
Lemma pos_round_shape (fuel : nat) (txs : list Transaction) (nodes : list string)
    (self self' : ProofOfStake) (bc bc' : Blockchain) (w w' : World)
    (res : ConsensusResult) :
  pos_run_round fuel txs nodes self bc w = (Ret res, self', bc', w') ->
  (validators self = [] /\ success res = false /\ block res = None
   /\ proposer res = None /\ self' = self /\ bc' = bc /\ w' = w)
  \/ exists p info latest t b,
       dict_get (validators self) p = Some info
       /\ latest_block bc = Ret latest
       /\ b = hashed (mkBlock (height bc) t txs (str_or (hash latest) "") 0
                              (Some p) None)
       /\ add_block bc b = (Ret (success res), bc')
       /\ block res = Some b
       /\ proposer res = Some p
       /\ self' = (if success res
                   then mkPoS (map (age_step p) (validators self)) (age_factor self)
                   else self).
Proof.
  unfold pos_run_round, bind, get_self, put_self, lift, next_block, on_chain, ret.
  intros Hrun.
  destruct (validators self) as [|kv vs] eqn:Ev.
  - injection Hrun as <- <- <- <-. left. repeat split.
  - rewrite <- Ev in *. right.
    destruct (select_validator_cases self bc w) as (o & w1 & Hsel).
    rewrite Hsel in Hrun.
    destruct o as [p|e|]; [|discriminate..].
    destruct (dict_item (validators self) p) as [info|e|] eqn:Einfo;
      [|discriminate..].
    destruct (create_next_block_cases bc txs (Some p) w1)
      as [[e He] | (latest & HL & He)]; rewrite He in Hrun; [discriminate|].
    destruct (add_block bc _) as [o bc1] eqn:Hadd.
    destruct o as [added| |]; [|discriminate..].
    assert (Hinfo : dict_get (validators self) p = Some info).
    { unfold dict_item in Einfo.
      destruct (dict_get (validators self) p); [congruence|discriminate]. }
    destruct added.
    + cbn [validators] in Hrun.
      destruct (dict_item (map (age_step p) (validators self)) p);
        [|discriminate..].
      injection Hrun as <- <- <- <-.
      eexists p, info, latest, (fst (time_time w1)), _.
      cbn [success block proposer].
      split; [exact Hinfo|]. split; [exact HL|]. split; [reflexivity|].
      split; [exact Hadd|]. repeat split.
    + rewrite Einfo in Hrun. injection Hrun as <- <- <- <-.
      eexists p, info, latest, (fst (time_time w1)), _.
      cbn [success block proposer].
      split; [exact Hinfo|]. split; [exact HL|]. split; [reflexivity|].
      split; [exact Hadd|]. repeat split.
Qed.

(** X9.  What a returned PoS round leaves in the stake table.  The set of
    validators, their order, their stakes and the age factor never change.
    After a round that appended a block, the proposer, a registered
    validator, has age 0 and every other validator is one round older;
    after a round that did not, the table is as it was. *)
Theorem pos_round_ages (fuel : nat) (txs : list Transaction)
    (nodes : list string) (self self' : ProofOfStake) (bc bc' : Blockchain)
    (w w' : World) (res : ConsensusResult) :
  run_round fuel txs nodes self bc w = (Ret res, self', bc', w') ->
  age_factor self' = age_factor self
  /\ map fst (validators self') = map fst (validators self)
  /\ (success res = false -> self' = self)
  /\ (success res = true ->
      exists p, proposer res = Some p
        /\ is_Some (dict_get (validators self) p)
        /\ forall k, dict_get (validators self') k
                     = option_map (aged p k) (dict_get (validators self) k)).
Proof.
  cbn [run_round PoS_protocol]. intros Hrun.
  destruct (pos_round_shape _ _ _ _ _ _ _ _ _ _ Hrun)
    as [(_ & Hs & _ & _ & -> & _ & _)
       |(p & info & latest & t & b & Hinfo & _ & _ & _ & _ & Hp & ->)].
  - repeat split; congruence.
  - destruct (success res).
    + cbn [age_factor validators]. rewrite map_fst_age_step.
      repeat split; [discriminate|]. intros _. exists p.
      split; [exact Hp|]. split; [rewrite Hinfo; eauto|].
      intros k. apply dict_get_aged.
    + repeat split. discriminate.
Qed.

(** ** DPoS: who is elected and what a round records *)

Lemma dict_get_set {V} (d : list (string * V)) (k k' : string) (v : V) :
  dict_get (dict_set d k v) k'
  = if String.eqb k k' then Some v else dict_get d k'.
Proof.
  induction d as [|[k0 v0] d IH]; cbn [dict_set dict_get].
  - destruct (String.eqb k k'); reflexivity.
  - destruct (String.eqb_spec k0 k) as [->|Hk]; cbn [dict_get].
    + destruct (String.eqb k k'); reflexivity.
    + rewrite IH. destruct (String.eqb_spec k0 k') as [->|Hk'].
      * destruct (String.eqb_spec k k'); [congruence|reflexivity].
      * reflexivity.
Qed.

Lemma dict_set_present_keys {V} (d : list (string * V)) (k : string) (v : V) :
  is_Some (dict_get d k) -> map fst (dict_set d k v) = map fst d.
Proof.
  induction d as [|[k0 v0] d IH]; cbn [dict_set dict_get]; intros [x Hx];
    [discriminate|].
  destruct (String.eqb k0 k); [reflexivity|].
  cbn [map fst]. rewrite IH; [reflexivity|eauto].
Qed.

Lemma dict_get_elem_of {V} (d : list (string * V)) (k : string) (v : V) :
  dict_get d k = Some v -> (k, v) ∈ d.
Proof.
  induction d as [|[k0 v0] d IH]; cbn [dict_get]; [discriminate|].
  destruct (String.eqb_spec k0 k) as [->|Hk].
  - intros [= ->]. apply elem_of_cons. left. reflexivity.
  - intros H. apply elem_of_cons. right. apply IH, H.
Qed.

Lemma elem_of_dict_get {V} (d : list (string * V)) (k : string) (v : V) :
  NoDup (map fst d) -> (k, v) ∈ d -> dict_get d k = Some v.
Proof.
  induction d as [|[k0 v0] d IH]; cbn [dict_get map fst]; intros Hnd Hin.
  - apply elem_of_nil in Hin. contradiction.
  - apply NoDup_cons in Hnd as [Hk0 Hnd].
    apply elem_of_cons in Hin as [[= -> ->]|Hin].
    + rewrite String.eqb_refl. reflexivity.
    + destruct (String.eqb_spec k0 k) as [->|Hk]; [|apply IH; assumption].
      exfalso. apply Hk0.
      change (map fst d) with (fst <$> d).
      apply (list_elem_of_fmap_2 fst d (k, v)). exact Hin.
Qed.

(** The ways a DPoS round returns. *)
Lemma dpos_round_shape (fuel : nat) (txs : list Transaction)
    (nodes : list string) (self self' : DelegatedProofOfStake)
    (bc bc' : Blockchain) (w w' : World) (res : ConsensusResult) :
  dpos_run_round fuel txs nodes self bc w = (Ret res, self', bc', w') ->
  (active_delegates self = [] /\ success res = false /\ block res = None
   /\ proposer res = None /\ self' = self /\ bc' = bc /\ w' = w)
  \/ exists d latest t b,
       current_delegate self = Ret (Some d)
       /\ latest_block bc = Ret latest
       /\ b = hashed (mkBlock (height bc) t txs (str_or (hash latest) "") 0
                              (Some d) None)
       /\ add_block bc b = (Ret (success res), bc')
       /\ block res = Some b
       /\ proposer res = Some d
       /\ self' = mkDPoS
                    match dict_get (candidates self) d with
                    | Some info => if success res
                                   then dict_set (candidates self) d (produced info)
                                   else candidates self
                    | None => candidates self
                    end
                    (num_delegates self) (active_delegates self)
                    (round_index self + 1).
Proof.
  unfold dpos_run_round, bind, get_self, put_self, lift, next_block, on_chain, ret.
  intros Hrun.
  destruct (active_delegates self) as [|a l] eqn:Eact.
  - unfold current_delegate in Hrun. rewrite Eact in Hrun.
    injection Hrun as <- <- <- <-. left. repeat split.
  - right.
    assert (Hne : active_delegates self <> []) by (rewrite Eact; discriminate).
    destruct (current_delegate_turn self Hne) as (d & Hcur & _ & _).
    rewrite Hcur in Hrun.
    destruct (create_next_block_cases bc txs (Some d) w)
      as [[e He] | (latest & HL & He)]; rewrite He in Hrun; [discriminate|].
    destruct (add_block bc _) as [o bc1] eqn:Hadd.
    destruct o as [added| |]; [|discriminate..].
    destruct (py_mod _ _) as [slot|e|]; [|discriminate..].
    injection Hrun as <- <- <- <-.
    eexists d, latest, (fst (time_time w)), _. cbn [success block proposer].
    split; [exact Hcur|]. split; [exact HL|]. split; [reflexivity|].
    split; [exact Hadd|]. repeat split.
Qed.

(** X10.  What a returned DPoS round records.  The delegate order, the
    number of seats, the set of candidates and their votes never change;
    the [blocks_produced] counter of the proposer goes up by one in a
    round that appended a block, and no counter moves otherwise. *)
Theorem dpos_round_bookkeeping (fuel : nat) (txs : list Transaction)
    (nodes : list string) (self self' : DelegatedProofOfStake)
    (bc bc' : Blockchain) (w w' : World) (res : ConsensusResult) :
  run_round fuel txs nodes self bc w = (Ret res, self', bc', w') ->
  num_delegates self' = num_delegates self
  /\ active_delegates self' = active_delegates self
  /\ map fst (candidates self') = map fst (candidates self)
  /\ forall k,
       dict_get (candidates self') k
       = if success res && opt_str_eqb (proposer res) (Some k)
         then option_map produced (dict_get (candidates self) k)
         else dict_get (candidates self) k.
Proof.
  cbn [run_round DPoS_protocol]. intros Hrun.
  destruct (dpos_round_shape _ _ _ _ _ _ _ _ _ _ Hrun)
    as [(_ & Hs & _ & _ & -> & _ & _)
       |(d & latest & t & b & _ & _ & _ & _ & _ & Hp & ->)].
  - rewrite Hs. repeat split.
  - cbn [num_delegates active_delegates candidates]. rewrite Hp.
    cbn [opt_str_eqb].
    destruct (dict_get (candidates self) d) as [info|] eqn:Einfo.
    + destruct (success res); cbn [andb]; [|repeat split].
      split; [reflexivity|]. split; [reflexivity|].
      split; [apply dict_set_present_keys; rewrite Einfo; eauto|].
      intros k. rewrite dict_get_set.
      destruct (String.eqb_spec d k) as [<-|Hk]; [|reflexivity].
      rewrite Einfo. reflexivity.
    + repeat split. intros k.
      destruct (success res); cbn [andb]; [|reflexivity].
      destruct (String.eqb_spec d k) as [<-|Hk]; [|reflexivity].
      rewrite Einfo. reflexivity.
Qed.

Lemma outvotes_trans (Hord : votes_ordered) (a b c : Delegate) :
  outvotes a b -> outvotes b c -> outvotes a c.
Proof.
  unfold outvotes. intros Hab Hbc.
  destruct (flt (votes a) (votes c)) eqn:Hac; [|reflexivity].
  destruct (proj2 Hord _ (votes b) _ Hac); congruence.
Qed.

Lemma insert_by_votes_sorted (Hord : votes_ordered) (x : Delegate)
    (l : list Delegate) :
  StronglySorted outvotes l -> StronglySorted outvotes (insert_by_votes x l).
Proof.
  induction l as [|y r IH]; cbn [insert_by_votes]; intros Hs.
  - repeat constructor.
  - apply StronglySorted_inv in Hs as [Hr Hy].
    destruct (flt (votes y) (votes x)) eqn:Hyx.
    + assert (Hxy : outvotes x y) by (apply (proj1 Hord); exact Hyx).
      constructor; [constructor; assumption|].
      constructor; [exact Hxy|].
      eapply Forall_impl; [exact Hy|].
      intros z Hz. exact (outvotes_trans Hord _ _ _ Hxy Hz).
    + constructor; [apply IH, Hr|].
      rewrite insert_by_votes_Permutation. constructor; assumption.
Qed.

Lemma sorted_by_votes_sorted (Hord : votes_ordered) (l : list Delegate) :
  StronglySorted outvotes (sorted_by_votes l).
Proof.
  unfold sorted_by_votes.
  assert (Hgen : forall acc, StronglySorted outvotes acc ->
                   StronglySorted outvotes
                     (fold_left (fun acc x => insert_by_votes x acc) l acc)).
  { induction l as [|x l IH]; intros acc Hacc; cbn [fold_left]; [exact Hacc|].
    apply IH, insert_by_votes_sorted; assumption. }
  apply Hgen. constructor.
Qed.

Lemma slice_to_take {A} (l : list A) (k : Z) :
  exists m, slice_to l k = take m l
            /\ (0 <= k -> m = Z.to_nat k).
Proof.
  unfold slice_to. destruct (Z.ltb_spec k 0).
  - eexists. split; [reflexivity|lia].
  - eexists. split; [reflexivity|reflexivity].
Qed.

Lemma dict_values_get (d : list (string * Delegate)) (x : Delegate) :
  NoDup (map fst d) ->
  Forall (fun kv => d_address (snd kv) = fst kv) d ->
  x ∈ dict_values d -> dict_get d (d_address x) = Some x.
Proof.
  intros Hnd Hwf Hx. unfold dict_values in Hx.
  change (map snd d) with (snd <$> d) in Hx.
  apply list_elem_of_fmap in Hx as ([k y] & -> & Hin).
  rewrite Forall_forall in Hwf. specialize (Hwf _ Hin). cbn [fst snd] in *.
  rewrite Hwf. apply elem_of_dict_get; assumption.
Qed.

Lemma dict_get_values (d : list (string * Delegate)) (k : string) (x : Delegate) :
  Forall (fun kv => d_address (snd kv) = fst kv) d ->
  dict_get d k = Some x -> x ∈ dict_values d /\ d_address x = k.
Proof.
  intros Hwf Hget. apply dict_get_elem_of in Hget.
  rewrite Forall_forall in Hwf. split; [|exact (Hwf _ Hget)].
  unfold dict_values. change (map snd d) with (snd <$> d).
  apply (list_elem_of_fmap_2 snd d (k, x)). exact Hget.
Qed.

Lemma candidate_addresses (d : list (string * Delegate)) :
  Forall (fun kv => d_address (snd kv) = fst kv) d ->
  map d_address (dict_values d) = map fst d.
Proof.
  unfold dict_values. induction 1 as [|kv d' Hkv _ IH]; cbn [map];
    [reflexivity|].
  rewrite Hkv, IH. reflexivity.
Qed.

(** [_elect_delegates] on a table in which every candidate sits under its
    own address. *)
Lemma elect_delegates_top (self : DelegatedProofOfStake) (w : World) :
  votes_ordered ->
  dpos_well_formed self ->
  let self' := fst (elect_delegates self w) in
  candidates self' = candidates self
  /\ num_delegates self' = num_delegates self
  /\ round_index self' = round_index self
  /\ NoDup (active_delegates self')
  /\ (0 <= num_delegates self ->
      length (active_delegates self')
      = Nat.min (Z.to_nat (num_delegates self)) (length (candidates self)))
  /\ (forall a, a ∈ active_delegates self' ->
                is_Some (dict_get (candidates self) a))
  /\ (forall a c da dc,
        a ∈ active_delegates self' -> c ∉ active_delegates self' ->
        dict_get (candidates self) a = Some da ->
        dict_get (candidates self) c = Some dc ->
        outvotes da dc).
Proof.
  intros Hord [Hnd Hwf]. unfold elect_delegates.
  set (vals := dict_values (candidates self)).
  set (sorted := sorted_by_votes vals).
  destruct (slice_to_take sorted (num_delegates self)) as (m & Hm & Hmk).
  rewrite Hm.
  pose proof (random_shuffle_Permutation (map d_address (take m sorted)) w)
    as Hperm.
  destruct (random_shuffle _ w) as [shuffled w1].
  cbn [fst candidates num_delegates round_index active_delegates] in *.
  change (map d_address ?l) with (d_address <$> l) in Hperm.
  assert (Hsorted : sorted ≡ₚ vals) by apply sorted_by_votes_Permutation.
  assert (Hstrong : StronglySorted outvotes (take m sorted ++ drop m sorted)).
  { rewrite take_drop. apply sorted_by_votes_sorted, Hord. }
  assert (Helected : forall a, a ∈ shuffled ->
            exists x, x ∈ take m sorted /\ a = d_address x
                      /\ dict_get (candidates self) a = Some x).
  { intros a Ha. rewrite Hperm in Ha.
    apply list_elem_of_fmap in Ha as (x & -> & Hx).
    exists x. split; [exact Hx|]. split; [reflexivity|].
    apply dict_values_get; [assumption..|].
    fold vals. rewrite <- Hsorted.
    apply elem_of_take in Hx as (i & Hi & _).
    eapply list_elem_of_lookup_2, Hi. }
  split; [reflexivity|]. split; [reflexivity|]. split; [reflexivity|].
  split; [|split; [|split]].
  - rewrite Hperm.
    eapply sublist_NoDup; [|apply (fmap_sublist d_address), sublist_take].
    rewrite Hsorted.
    change (d_address <$> vals) with (map d_address (dict_values (candidates self))).
    rewrite (candidate_addresses _ Hwf). exact Hnd.
  - intros Hk. rewrite Hperm, length_fmap, length_take, Hsorted, (Hmk Hk).
    unfold vals, dict_values. rewrite length_map. reflexivity.
  - intros a Ha. destruct (Helected a Ha) as (x & _ & _ & ->). eauto.
  - intros a c da dc Ha Hc Hda Hdc.
    destruct (Helected a Ha) as (x & Hx & _ & Hget).
    assert (x = da) by congruence. subst x.
    destruct (dict_get_values _ _ _ Hwf Hdc) as [Hin Haddr].
    fold vals in Hin. rewrite <- Hsorted, <- (take_drop m sorted) in Hin.
    apply elem_of_app in Hin as [Hin|Hin].
    + exfalso. apply Hc. rewrite Hperm, <- Haddr.
      apply list_elem_of_fmap_2. exact Hin.
    + exact (StronglySorted_app_1_elem_of _ _ _ _ _ Hstrong Hx Hin).
Qed.

Lemma dict_get_comprehension {V W} (value : string -> V -> W)
    (l : list (string * V)) (k : string) :
  NoDup (map fst l) ->
  dict_get (dict_comprehension fst (fun kv => value (fst kv) (snd kv)) l) k
  = option_map (value k) (dict_get l k).
Proof.
  intros Hnd. rewrite (dict_comprehension_distinct _ _ _ Hnd).
  clear Hnd. induction l as [|[k0 v0] l IH]; [reflexivity|].
  cbn [map dict_get fst snd].
  destruct (String.eqb_spec k0 k) as [->|Hk]; [reflexivity|exact IH].
Qed.

(** X11.  [DelegatedProofOfStake(votes, num_delegates)], for a dict of
    votes whose counts compare as a total order: the active delegates are
    distinct keys of [votes], [min(num_delegates, len(votes))] of them
    when [num_delegates >= 0], and none of the keys left out has more
    votes than an elected one.  Every candidate starts with no block
    produced, and the rotation starts at round 0. *)
Theorem dpos_elects_top_votes (votes_in : list (string * float)) (n : Z)
    (w : World) :
  votes_ordered ->
  NoDup (map fst votes_in) ->
  let self := fst (DelegatedProofOfStake_init votes_in n w) in
  NoDup (active_delegates self)
  /\ (0 <= n ->
      length (active_delegates self)
      = Nat.min (Z.to_nat n) (length votes_in))
  /\ (forall a, a ∈ active_delegates self -> is_Some (dict_get votes_in a))
  /\ (forall a c va vc,
        a ∈ active_delegates self -> c ∉ active_delegates self ->
        dict_get votes_in a = Some va -> dict_get votes_in c = Some vc ->
        flt va vc = false)
  /\ round_index self = 0
  /\ num_delegates self = n
  /\ forall k, dict_get (candidates self) k
               = option_map (fun v => mkDelegate k v 0) (dict_get votes_in k).
Proof.
  intros Hord Hnd. unfold DelegatedProofOfStake_init.
  set (table := dict_comprehension fst
                  (fun kv : string * float => mkDelegate (fst kv) (snd kv) 0)
                  votes_in).
  assert (Hget : forall k, dict_get table k
                   = option_map (fun v => mkDelegate k v 0) (dict_get votes_in k)).
  { intros k. exact (dict_get_comprehension (fun k v => mkDelegate k v 0)
                       votes_in k Hnd). }
  assert (Hwf : dpos_well_formed (mkDPoS table n [] 0)).
  { destruct (dict_comprehension_invariant fst
                (fun kv : string * float => mkDelegate (fst kv) (snd kv) 0)
                (fun kv => d_address (snd kv) = fst kv) votes_in
                ltac:(reflexivity)) as [Hkeys Haddr].
    split; assumption. }
  destruct (elect_delegates_top (mkDPoS table n [] 0) w Hord Hwf)
    as (Hc & Hn & Hr & Hdistinct & Hlen & Hmem & Htop).
  cbn [candidates num_delegates round_index] in *.
  cbv zeta. rewrite Hc.
  split; [exact Hdistinct|].
  split.
  { intros Hk. rewrite (Hlen Hk). f_equal. unfold table.
    rewrite (dict_comprehension_distinct _ _ _ Hnd). apply length_map. }
  split.
  { intros a Ha. destruct (Hmem a Ha) as [x Hx]. rewrite Hget in Hx.
    destruct (dict_get votes_in a); [eauto|discriminate]. }
  split.
  { intros a c va vc Ha Hc' Hva Hvc.
    apply (Htop a c (mkDelegate a va 0) (mkDelegate c vc 0) Ha Hc');
      rewrite Hget; [rewrite Hva|rewrite Hvc]; reflexivity. }
  split; [exact Hr|]. split; [exact Hn|]. exact Hget.
Qed.

(** ** PBFT: the exchange for any node table *)

Lemma size_list_to_set_le (l : list string) :
  (size (list_to_set l : gset string) <= length l)%nat.
Proof.
  induction l as [|x l IH]; cbn [list_to_set length].
  - rewrite size_empty. lia.
  - rewrite size_union_alt, size_singleton.
    pose proof (subseteq_size (list_to_set l ∖ {[x]}) (list_to_set l : gset string)
                  (subseteq_difference_l _ _ _ (reflexivity _))).
    lia.
Qed.

Lemma filter_none {A} (P : A -> Prop) `{!forall x, Decision (P x)} (l : list A) :
  (forall x, ~ P x) -> filter P l = [].
Proof.
  intros Hno. induction l as [|x l IH]; [reflexivity|].
  rewrite filter_cons_False; [exact IH|apply Hno].
Qed.

Section Exchange.

Variable self : PracticalBFT.
Variable h : string.

Lemma can_commit_heard (x : PBFTNode) :
  can_commit (after_prepare (reset_round self) h)
             (with_prepares (heard self) (reset_node x))
  = negb (is_byzantine x) && honest_quorum self.
Proof.
  unfold can_commit, honest_quorum.
  cbn [is_byzantine prepares_received with_prepares reset_node].
  rewrite (right_id_L ∅ (∪)). reflexivity.
Qed.

Lemma commit_senders_heard :
  list_to_set
    (map msg_sender (fst (phase_commit (after_prepare (reset_round self) h) h)))
  = committers self.
Proof.
  unfold phase_commit, committers. cbn [fst]. rewrite map_map. cbn [msg_sender].
  rewrite after_prepare_values. fold (heard self).
  destruct (honest_quorum self) eqn:Hq.
  - rewrite (filter_map_equiv _ _ (fun x => is_byzantine x = false)).
    + rewrite map_map. reflexivity.
    + intros x. rewrite can_commit_heard, Hq, andb_true_r.
      destruct (is_byzantine x); simpl; split; congruence.
  - rewrite (filter_map_equiv _ _ (fun x => False)).
    + rewrite filter_none; [reflexivity|intros x Hx; exact Hx].
    + intros x. rewrite can_commit_heard, Hq, andb_false_r.
      split; [discriminate|contradiction].
Qed.

Lemma pbft_nodes_after_commit :
  pbft_nodes (after_commit (reset_round self) h)
  = each_node (node_after_round self) (pbft_nodes self).
Proof.
  pose proof commit_senders_heard as Hc.
  unfold after_commit.
  destruct (phase_commit (after_prepare (reset_round self) h) h)
    as [commit_msgs self3] eqn:E.
  cbn [fst] in Hc. cbn [pbft_nodes with_nodes].
  rewrite distribute_commits, Hc.
  unfold phase_commit in E. injection E as _ <-. cbn [pbft_nodes].
  change (distribute receive_prepare (phase_prepare (reset_round self) h)
            (each_node reset_node (pbft_nodes self)))
    with (pbft_nodes (after_prepare (reset_round self) h)).
  assert (Hn : pbft_nodes (after_prepare (reset_round self) h)
               = each_node (fun x => with_prepares (heard self) (reset_node x))
                           (pbft_nodes self)).
  { unfold after_prepare. cbn [pbft_nodes with_nodes].
    rewrite distribute_prepares, prepare_senders, honest_reset.
    cbn [reset_round pbft_nodes]. rewrite each_node_compose. reflexivity. }
  rewrite Hn, !each_node_compose. apply each_node_ext. intros x.
  unfold mark_prepared. rewrite can_commit_heard.
  unfold node_after_round, with_commits.
  destruct (negb (is_byzantine x) && honest_quorum self);
    cbn [address is_byzantine prepares_received commits_received prepared
         committed with_prepares reset_node];
    rewrite !(right_id_L ∅ (∪)); reflexivity.
Qed.

Lemma has_committed_after_round (x : PBFTNode) :
  has_committed (after_commit (reset_round self) h) (node_after_round self x)
  = honest_quorum self && negb (is_byzantine x).
Proof.
  unfold has_committed, node_after_round, committers.
  cbn [commits_received is_byzantine].
  change (quorum (after_commit (reset_round self) h)) with (quorum self).
  destruct (honest_quorum self) eqn:Hq; [exact (f_equal (fun b => b && _) Hq)|].
  rewrite size_empty. unfold honest_quorum in Hq.
  destruct (Z.leb_spec (quorum self) (Z.of_nat 0)); [|reflexivity].
  apply Z.leb_gt in Hq. lia.
Qed.

Lemma committed_count_after_round :
  committed_count (after_commit (reset_round self) h)
  = if honest_quorum self then Z.of_nat (length (honest_addresses self)) else 0.
Proof.
  unfold committed_count. rewrite pbft_nodes_after_commit, each_node_values.
  destruct (honest_quorum self) eqn:Hq.
  - rewrite (filter_map_equiv _ _ (fun x => is_byzantine x = false)).
    + unfold honest_addresses. rewrite !length_map. reflexivity.
    + intros x. rewrite has_committed_after_round, Hq.
      destruct (is_byzantine x); simpl; split; congruence.
  - rewrite (filter_map_equiv _ _ (fun x => False)).
    + rewrite filter_none; [reflexivity|intros x Hx; exact Hx].
    + intros x. rewrite has_committed_after_round, Hq.
      split; [discriminate|contradiction].
Qed.

Lemma quorum_committed_iff :
  quorum self <= committed_count (after_commit (reset_round self) h)
  <-> honest_quorum self = true.
Proof.
  rewrite committed_count_after_round.
  pose proof (size_list_to_set_le (honest_addresses self)) as Hle.
  fold (heard self) in Hle.
  unfold honest_quorum.
  destruct (Z.leb_spec (quorum self) (Z.of_nat (size (heard self)))).
  - split; [reflexivity|lia].
  - split; [lia|discriminate].
Qed.

End Exchange.

(** ** PBFT: a round on any node table *)

(** A round on a chain with a latest block, for a non-empty validator
    list, with the leader, the draft and the node table spelled out. *)
Lemma pbft_round_detail (fuel : nat) (txs : list Transaction)
    (nodes : list string) (self : PracticalBFT) (bc : Blockchain)
    (latest : Block) (w : World) :
  node_list self <> [] ->
  latest_block bc = Ret latest ->
  let n := Z.of_nat (length (node_list self)) in
  exists leader res self' bc' b,
    pbft_run_round fuel txs nodes self bc w
    = (Ret res, self', bc', snd (time_time w))
    /\ node_list self !! Z.to_nat (pbft_view self mod n) = Some leader
    /\ proposer res = Some leader
    /\ rounds res = 3
    /\ b = hashed (mkBlock (height bc) (fst (time_time w)) txs
                           (str_or (hash latest) "") 0 (Some leader) None)
    /\ node_list self' = node_list self
    /\ byzantine_count self' = byzantine_count self
    /\ pbft_view self' = pbft_view self + 1
    /\ pbft_nodes self' = each_node (node_after_round self) (pbft_nodes self)
    /\ (if honest_quorum self
        then block res = Some b /\ success res = has_hash latest
             /\ add_block bc b = (Ret (success res), bc')
        else block res = None /\ success res = false /\ bc' = bc).
Proof.
  intros Hne HL n.
  unfold pbft_run_round, bind, get_self, put_self, lift, next_block, on_chain, ret.
  cbn [node_list byzantine_count pbft_view reset_round].
  assert (Hn : 0 < n).
  { unfold n. destruct (node_list self); [congruence|simpl; lia]. }
  fold n. unfold py_mod. destruct (Z.eqb_spec n 0); [lia|].
  destruct (list_get_in_range (node_list self) (pbft_view self mod n))
    as (leader & -> & Hleader); [apply Z.mod_pos_bound; exact Hn|].
  rewrite (create_next_block_given bc latest txs (Some leader) w HL).
  set (draft := mkBlock _ _ _ _ _ _ _).
  set (b := set_hash draft (Some (compute_hash draft))).
  pose proof (add_block_on_tip bc latest b HL eq_refl eq_refl) as Hadd.
  unfold phase_commit. cbv beta iota zeta.
  change (quorum (with_nodes _ _)) with (quorum self).
  change (committed_count (with_nodes _ _))
    with (committed_count (after_commit (reset_round self) (compute_hash draft))).
  pose proof (quorum_committed_iff self (compute_hash draft)) as Hiff.
  pose proof (pbft_nodes_after_commit self (compute_hash draft)) as Hnodes.
  destruct (Z.leb_spec (quorum self)
              (committed_count (after_commit (reset_round self) (compute_hash draft))))
    as [Hle|Hlt].
  - rewrite (proj1 Hiff Hle). rewrite Hadd. unfold has_hash.
    destruct (hash latest) as [x|];
      (eexists leader, _, _, _, b; split; [reflexivity|];
       repeat split; first [exact Hleader | exact Hnodes | exact Hadd]).
  - destruct (honest_quorum self); [specialize (proj2 Hiff eq_refl); lia|].
    eexists leader, _, _, _, b. split; [reflexivity|].
    repeat split; first [exact Hleader | exact Hnodes].
Qed.

(** A round that returned had a validator list and a latest block. *)
Lemma pbft_round_returned (fuel : nat) (txs : list Transaction)
    (nodes : list string) (self self' : PracticalBFT) (bc bc' : Blockchain)
    (w w' : World) (res : ConsensusResult) :
  pbft_run_round fuel txs nodes self bc w = (Ret res, self', bc', w') ->
  node_list self <> [] /\ exists latest, latest_block bc = Ret latest.
Proof.
  unfold pbft_run_round, bind, get_self, put_self, lift, next_block, on_chain, ret.
  cbn [node_list byzantine_count pbft_view reset_round].
  intros Hrun. split.
  - intros Hnil. rewrite Hnil in Hrun. discriminate.
  - destruct (py_mod _ _) as [i|e|]; [|discriminate..].
    destruct (list_get _ i) as [leader|e|]; [|discriminate..].
    destruct (chain_empty_or_latest bc) as [Hemp|Hl]; [|exact Hl].
    destruct (create_next_block_raises bc txs (Some leader) w Hemp) as [e He].
    rewrite He in Hrun. discriminate.
Qed.

(** X12.  A PBFT round of a protocol object with validators, on a chain
    that has a latest block, returns after its three phases.  It reports
    success exactly when the honest validators of the node table, counted
    by distinct address, are at least the quorum and the latest block
    carries a hash.  With a quorum every honest entry counts as committed
    and the block is handed to [add_block], whose answer is the [success]
    of the result; without one the round reports failure with no block,
    no entry counts as committed, and the chain is as it was. *)
Theorem pbft_round_decided_by_honest_quorum (fuel : nat)
    (txs : list Transaction) (nodes : list string) (self : PracticalBFT)
    (bc : Blockchain) (latest : Block) (w : World) :
  node_list self <> [] ->
  latest_block bc = Ret latest ->
  exists res self' bc' w',
    run_round fuel txs nodes self bc w = (Ret res, self', bc', w')
    /\ rounds res = 3
    /\ (success res = true
        <-> quorum self <= Z.of_nat (size (heard self)) /\ hash latest <> None)
    /\ (quorum self <= Z.of_nat (size (heard self)) ->
        committed_count self' = Z.of_nat (length (honest_addresses self))
        /\ exists b, block res = Some b
                     /\ add_block bc b = (Ret (success res), bc'))
    /\ (Z.of_nat (size (heard self)) < quorum self ->
        success res = false /\ block res = None /\ bc' = bc
        /\ committed_count self' = 0).
Proof.
  intros Hne HL. cbn [run_round PBFT_protocol].
  destruct (chain_empty_or_latest bc) as [Hemp|_];
    [destruct (latest_block_empty bc Hemp); congruence|].
  unfold pbft_run_round, bind, get_self, put_self, lift, next_block, on_chain, ret.
  cbn [node_list byzantine_count pbft_view reset_round].
  assert (Hn : 0 < Z.of_nat (length (node_list self))).
  { destruct (node_list self); [congruence|simpl; lia]. }
  unfold py_mod. destruct (Z.eqb_spec (Z.of_nat (length (node_list self))) 0);
    [lia|].
  destruct (list_get_in_range (node_list self)
              (pbft_view self mod Z.of_nat (length (node_list self))))
    as (leader & -> & _); [apply Z.mod_pos_bound; exact Hn|].
  rewrite (create_next_block_given bc latest txs (Some leader) w HL).
  set (draft := mkBlock _ _ _ _ _ _ _).
  set (b := set_hash draft (Some (compute_hash draft))).
  pose proof (add_block_on_tip bc latest b HL eq_refl eq_refl) as Hadd.
  unfold phase_commit. cbv beta iota zeta.
  change (quorum (with_nodes _ _)) with (quorum self).
  change (committed_count (with_nodes _ _))
    with (committed_count (after_commit (reset_round self) (compute_hash draft))).
  pose proof (quorum_committed_iff self (compute_hash draft)) as Hiff.
  pose proof (committed_count_after_round self (compute_hash draft)) as Hcount.
  unfold honest_quorum in Hiff, Hcount.
  destruct (Z.leb_spec (quorum self)
              (committed_count (after_commit (reset_round self) (compute_hash draft))))
    as [Hle|Hlt].
  - apply Hiff in Hle. rewrite Hle in Hcount. apply Z.leb_le in Hle.
    rewrite Hadd.
    destruct (hash latest) as [x|];
      (eexists _, _, _, _; split; [reflexivity|]; cbn [rounds success block];
       split; [reflexivity|]; split; [|split]).
    + split; [intros _; split; [exact Hle|discriminate]|reflexivity].
    + intros _. split; [exact Hcount|]. exists b. split; [reflexivity|exact Hadd].
    + lia.
    + split; [discriminate|intros [_ Hnone]; congruence].
    + intros _. split; [exact Hcount|]. exists b. split; [reflexivity|exact Hadd].
    + lia.
  - assert (Hq : Z.of_nat (size (heard self)) < quorum self).
    { destruct (Z.leb_spec (quorum self) (Z.of_nat (size (heard self))));
        [specialize (proj2 Hiff eq_refl); lia|assumption]. }
    destruct (Z.leb_spec (quorum self) (Z.of_nat (size (heard self))));
      [lia|].
    eexists _, _, _, _. split; [reflexivity|]. cbn [rounds success block].
    split; [reflexivity|]. split; [|split].
    + split; [discriminate|intros [Hge _]; lia].
    + lia.
    + intros _. repeat split. exact Hcount.
Qed.

(** X13.  The leader of a PBFT round is the validator at position
    [view mod n] of the validator list, Byzantine or not, and the view
    goes up by one in every round, with or without consensus: with
    validators and on a chain that has a latest block, any number of
    rounds return, their proposers are the validators taken in turn from
    the view of the start, and the validator list is never changed. *)
Theorem pbft_leader_rotation (fuel : nat)
    (inputs : list (list Transaction * list string)) :
  forall (self : PracticalBFT) (bc : Blockchain) (latest : Block) (w : World),
    node_list self <> [] ->
    latest_block bc = Ret latest ->
    let n := Z.of_nat (length (node_list self)) in
    exists rs self' bc' w',
      run_rounds fuel inputs self bc w = (rs, self', bc', w')
      /\ map proposer rs
         = map (fun i : nat =>
                  node_list self !! Z.to_nat ((pbft_view self + Z.of_nat i) mod n))
               (seq 0 (length inputs))
      /\ pbft_view self' = pbft_view self + Z.of_nat (length inputs)
      /\ node_list self' = node_list self.
Proof.
  induction inputs as [|[txs nodes] inputs IH]; intros self bc latest w Hne HL n.
  - exists [], self, bc, w. simpl. repeat split. lia.
  - destruct (pbft_round_detail fuel txs nodes self bc latest w Hne HL)
      as (leader & res & self1 & bc1 & b & Hrun & Hleader & Hp & _ & _
          & Hlist & _ & Hview & _ & Hcase).
    fold n in Hleader.
    assert (HL1 : exists latest1, latest_block bc1 = Ret latest1).
    { destruct (honest_quorum self).
      - destruct Hcase as (_ & _ & Hadd).
        exact (add_block_keeps_latest _ _ _ _ _ HL Hadd).
      - destruct Hcase as (_ & _ & ->). eauto. }
    destruct HL1 as [latest1 HL1].
    assert (Hne1 : node_list self1 <> []) by (rewrite Hlist; exact Hne).
    destruct (IH self1 bc1 latest1 (snd (time_time w)) Hne1 HL1)
      as (rs & self2 & bc2 & w2 & Hrest & Hps & Hview2 & Hlist2).
    exists (res :: rs), self2, bc2, w2.
    cbn [run_rounds run_round PBFT_protocol]. rewrite Hrun, Hrest.
    split; [reflexivity|]. split; [|split].
    + cbn [map length seq]. rewrite Hp, Hps, Hlist, Hview.
      rewrite Z.add_0_r, Hleader. f_equal.
      rewrite <- seq_shift, map_map. apply map_ext. intros i. fold n.
      do 3 f_equal. lia.
    + rewrite Hview2, Hview. cbn [length]. lia.
    + rewrite Hlist2, Hlist. reflexivity.
Qed.

(** X14.  For every list of distinct validator addresses and every
    Byzantine count the constructor accepts, the instance has [n - f]
    honest validators, which is at least the quorum 2f+1, and stays so
    after any number of rounds; each of its rounds on a chain whose
    latest block carries a hash reaches consensus and appends the block
    of the result. *)
Theorem pbft_constructed_is_live (validators_in : list string) (f : Z)
    (w0 w1 : World) (self0 self : PracticalBFT) (fuel : nat)
    (txs : list Transaction) (nodes : list string) (bc : Blockchain)
    (latest : Block) (w : World) :
  NoDup validators_in ->
  PracticalBFT_init validators_in f w0 = (Ret self0, w1) ->
  reachable self0 self ->
  latest_block bc = Ret latest ->
  hash latest <> None ->
  length (honest_addresses self) = (length validators_in - Z.to_nat f)%nat
  /\ quorum self = 2 * f + 1
  /\ quorum self <= Z.of_nat (length (honest_addresses self))
  /\ exists res self' bc' w' b,
       run_round fuel txs nodes self bc w = (Ret res, self', bc', w')
       /\ success res = true
       /\ block res = Some b
       /\ chain bc' = chain bc ++ [b]
       /\ committed_count self' = Z.of_nat (length validators_in) - f.
Proof.
  intros Hnd Hinit Hreach HL Hh.
  destruct (PracticalBFT_init_live _ _ _ _ _ Hnd Hinit) as (Hlive & Hlen & Hf & _).
  destruct (reachable_pbft _ _ Hreach) as (_ & Hf' & Hhonest).
  pose proof (reachable_live _ _ Hreach Hlive) as Hlive'.
  assert (Hrange : 0 <= f <= Z.of_nat (length validators_in)).
  { destruct (PracticalBFT_init_cases validators_in f w0)
      as [(_ & E)|[(_ & _ & E)|(Hr & _)]];
      [rewrite E in Hinit; discriminate..|].
    pose proof (Z.div_mod (Z.of_nat (length validators_in) - 1) 3 ltac:(lia)).
    pose proof (Z.mod_pos_bound (Z.of_nat (length validators_in) - 1) 3 ltac:(lia)).
    lia. }
  rewrite Hhonest, Hlen.
  split; [reflexivity|].
  split; [unfold quorum; rewrite Hf', Hf; reflexivity|].
  split; [destruct Hlive' as (_ & _ & Hq); rewrite Hhonest, Hlen in Hq; exact Hq|].
  destruct (pbft_live_round fuel txs nodes self bc latest w Hlive' HL Hh)
    as (res & self' & bc' & b & Hrun & Hs & _ & Hb & Hc & Hcount).
  exists res, self', bc', (snd (time_time w)), b.
  split; [exact Hrun|]. split; [exact Hs|]. split; [exact Hb|].
  split; [exact Hc|]. rewrite Hcount, Hhonest, Hlen. lia.
Qed.

(** X15.  The node table after a PBFT round that returned.  Every entry,
    Byzantine ones included, has received the PREPAREs of exactly the
    honest validators; its COMMITs are those of the honest validators
    when they make a quorum and none otherwise; [prepared] is set on the
    honest entries when there is a quorum; [committed] is never set.
    So no Byzantine validator is ever counted as a sender, and what a
    node had collected in earlier rounds is gone. *)
Theorem pbft_round_leaves_votes (fuel : nat) (txs : list Transaction)
    (nodes : list string) (self self' : PracticalBFT) (bc bc' : Blockchain)
    (w w' : World) (res : ConsensusResult) :
  run_round fuel txs nodes self bc w = (Ret res, self', bc', w') ->
  pbft_nodes self' = each_node (node_after_round self) (pbft_nodes self)
  /\ map fst (pbft_nodes self') = map fst (pbft_nodes self)
  /\ Forall (fun node =>
               prepares_received node = heard self
               /\ commits_received node ⊆ heard self
               /\ (prepared node = true -> is_byzantine node = false)
               /\ committed node = false)
            (dict_values (pbft_nodes self')).
Proof.
  cbn [run_round PBFT_protocol]. intros Hrun.
  destruct (pbft_round_returned _ _ _ _ _ _ _ _ _ _ Hrun) as [Hne [latest HL]].
  destruct (pbft_round_detail fuel txs nodes self bc latest w Hne HL)
    as (leader & res1 & self1 & bc1 & b & Hrun1 & _ & _ & _ & _
        & _ & _ & _ & Hnodes & _).
  rewrite Hrun1 in Hrun. injection Hrun as _ <- _ _.
  split; [exact Hnodes|]. rewrite Hnodes. split.
  - unfold each_node. rewrite map_map. reflexivity.
  - rewrite each_node_values. apply Forall_forall. intros node Hin.
    change (map ?g ?l) with (g <$> l) in Hin.
    apply list_elem_of_fmap in Hin as (x & -> & _).
    unfold node_after_round, committers.
    cbn [prepares_received commits_received prepared committed is_byzantine].
    split; [reflexivity|]. split; [|split; [|reflexivity]].
    + destruct (honest_quorum self); [reflexivity|apply empty_subseteq].
    + destruct (is_byzantine x); [discriminate|reflexivity].
Qed.

(** ** PoW: one round, and the block any round proposes *)

(** The ways a PoW round returns. *)
Lemma pow_round_shape (fuel : nat) (txs : list Transaction)
    (nodes : list string) (self self' : ProofOfWork) (bc bc' : Blockchain)
    (w w' : World) (res : ConsensusResult) :
  pow_run_round fuel txs nodes self bc w = (Ret res, self', bc', w') ->
  self' = self
  /\ ((nodes = [] /\ success res = false /\ block res = None
       /\ proposer res = None /\ bc' = bc /\ w' = w)
      \/ exists miner latest t k draft b,
           miner ∈ nodes
           /\ latest_block bc = Ret latest
           /\ draft = mkBlock (height bc) t txs (str_or (hash latest) "") 0
                              (Some miner) None
           /\ (k < fuel)%nat
           /\ qualifies (difficulty self) (bump k draft) = true
           /\ (forall j, (j < k)%nat ->
                 qualifies (difficulty self) (bump j draft) = false)
           /\ b = hashed (bump k draft)
           /\ add_block bc b = (Ret (success res), bc')
           /\ block res = Some b
           /\ proposer res = Some miner).
Proof.
  unfold pow_run_round. intros Hrun.
  destruct nodes as [|n0 nodes].
  - unfold ret in Hrun. injection Hrun as <- <- <- <-.
    split; [reflexivity|]. left. repeat split.
  - unfold bind, get_self, now, on_world, lift, next_block, on_chain, ret in Hrun.
    destruct (random_choice_member (n0 :: nodes) w ltac:(discriminate))
      as (miner & Hc & Hin).
    rewrite Hc in Hrun.
    destruct (create_next_block_cases bc txs (Some miner) (snd (rand_raw w)))
      as [[e He] | (latest & HL & He)]; rewrite He in Hrun; [discriminate|].
    set (draft := mkBlock _ _ _ _ _ _ _) in *.
    destruct (time_time (snd (time_time (snd (rand_raw w))))) as [start w2].
    destruct (mine fuel (difficulty self) draft) as [mined b] eqn:Em.
    destruct mined as [h|e|]; [|discriminate..].
    destruct (time_time w2) as [stop w3].
    destruct (add_block bc b) as [o bc1] eqn:Hadd.
    destruct o as [added| |]; [|discriminate..].
    injection Hrun as <- <- <- <-.
    destruct (mine_returns_first _ _ _ _ _ Em) as (k & Hk & Hh & Hb & Hq & Hfirst).
    split; [reflexivity|]. right.
    exists miner, latest, (fst (time_time (snd (rand_raw w)))), k, draft, b.
    cbn [success block proposer].
    split; [exact Hin|]. split; [exact HL|]. split; [reflexivity|].
    split; [exact Hk|].
    split; [unfold qualifies; rewrite <- Hh; exact Hq|].
    split; [exact Hfirst|].
    split; [rewrite Hb, Hh; reflexivity|].
    split; [exact Hadd|]. split; reflexivity.
Qed.

(** X16.  The block in the result of a round, for each of the four
    protocols: it is the draft [create_next_block] made on the chain the
    round was given, with the height of that chain as index, the
    transactions passed to the round, the proposer of the result as
    validator, the hash of the latest block (or the empty string) as
    [previous_hash], and its own hash stored.  Only PoW moves the nonce
    away from 0. *)
Theorem proposed_block_contents (fuel : nat) (txs : list Transaction)
    (nodes : list string) (bc bc' : Blockchain) (w w' : World)
    (res : ConsensusResult) (b : Block) :
  (forall self self' : ProofOfWork,
      run_round fuel txs nodes self bc w = (Ret res, self', bc', w') ->
      block res = Some b ->
      exists p, proposer res = Some p /\ proposed_on bc txs p b /\ 0 <= nonce b)
  /\ (forall self self' : ProofOfStake,
      run_round fuel txs nodes self bc w = (Ret res, self', bc', w') ->
      block res = Some b ->
      exists p, proposer res = Some p /\ proposed_on bc txs p b /\ nonce b = 0)
  /\ (forall self self' : DelegatedProofOfStake,
      run_round fuel txs nodes self bc w = (Ret res, self', bc', w') ->
      block res = Some b ->
      exists p, proposer res = Some p /\ proposed_on bc txs p b /\ nonce b = 0)
  /\ (forall self self' : PracticalBFT,
      run_round fuel txs nodes self bc w = (Ret res, self', bc', w') ->
      block res = Some b ->
      exists p, proposer res = Some p /\ proposed_on bc txs p b /\ nonce b = 0).
Proof.
  split; [|split; [|split]]; intros self self';
    cbn [run_round PoW_protocol PoS_protocol DPoS_protocol PBFT_protocol];
    intros Hrun Hb.
  - destruct (pow_round_shape _ _ _ _ _ _ _ _ _ _ Hrun)
      as [_ [(_ & _ & Hnone & _)
            |(miner & latest & t & k & draft & b' & _ & HL & -> & _ & _ & _
              & -> & _ & Hb' & Hp)]]; [congruence|].
    assert (b = hashed (bump k (mkBlock (height bc) t txs
                                  (str_or (hash latest) "") 0 (Some miner) None)))
      by congruence.
    subst b. exists miner. split; [exact Hp|]. split.
    + repeat split. exists latest. split; [exact HL|reflexivity].
    + cbn. lia.
  - destruct (pos_round_shape _ _ _ _ _ _ _ _ _ _ Hrun)
      as [(_ & _ & Hnone & _)
         |(p & info & latest & t & b' & _ & HL & -> & _ & Hb' & Hp & _)];
      [congruence|].
    assert (Heq : b = hashed (mkBlock (height bc) t txs (str_or (hash latest) "")
                                0 (Some p) None)) by congruence.
    subst b. exists p. split; [exact Hp|].
    split; [apply proposed_on_draft, HL|reflexivity].
  - destruct (dpos_round_shape _ _ _ _ _ _ _ _ _ _ Hrun)
      as [(_ & _ & Hnone & _)
         |(d & latest & t & b' & _ & HL & -> & _ & Hb' & Hp & _)];
      [congruence|].
    assert (Heq : b = hashed (mkBlock (height bc) t txs (str_or (hash latest) "")
                                0 (Some d) None)) by congruence.
    subst b. exists d. split; [exact Hp|].
    split; [apply proposed_on_draft, HL|reflexivity].
  - destruct (pbft_round_returned _ _ _ _ _ _ _ _ _ _ Hrun) as [Hne [latest HL]].
    destruct (pbft_round_detail fuel txs nodes self bc latest w Hne HL)
      as (leader & res1 & self1 & bc1 & b' & Hrun1 & _ & Hp & _ & -> & _ & _ & _
          & _ & Hcase).
    rewrite Hrun1 in Hrun. injection Hrun as -> _ _ _.
    destruct (honest_quorum self); destruct Hcase as (Hb' & _); [|congruence].
    assert (Heq : b = hashed (mkBlock (height bc) (fst (time_time w)) txs
                                (str_or (hash latest) "") 0 (Some leader) None))
      by congruence.
    subst b. exists leader. split; [exact Hp|].
    split; [apply proposed_on_draft, HL|reflexivity].
Qed.

(** X17.  A PoW round that returned.  Without nodes it fails at once and
    touches neither the chain nor the random generator.  Otherwise the
    proposer is one of the nodes it was given, and the block of the
    result has a hash that meets the difficulty of the protocol object
    (the [difficulty] field of the chain is not looked at), found at the
    first nonce from 0 that does.  The protocol object never changes. *)
Theorem pow_round_miner_and_difficulty (fuel : nat) (txs : list Transaction)
    (nodes : list string) (self self' : ProofOfWork) (bc bc' : Blockchain)
    (w w' : World) (res : ConsensusResult) :
  run_round fuel txs nodes self bc w = (Ret res, self', bc', w') ->
  self' = self
  /\ (nodes = [] ->
      success res = false /\ block res = None /\ proposer res = None
      /\ bc' = bc /\ w' = w)
  /\ (nodes <> [] ->
      exists miner b,
        proposer res = Some miner
        /\ miner ∈ nodes
        /\ block res = Some b
        /\ qualifies (difficulty self) b = true
        /\ (0 <= difficulty self ->
            difficulty self <= Z.of_nat (leading_zeros (compute_hash b)))
        /\ 0 <= nonce b
        /\ forall j, 0 <= j < nonce b ->
             qualifies (difficulty self) (set_nonce b j) = false).
Proof.
  cbn [run_round PoW_protocol]. intros Hrun.
  destruct (pow_round_shape _ _ _ _ _ _ _ _ _ _ Hrun)
    as [-> [(-> & Hs & Hb & Hp & -> & ->)
           |(miner & latest & t & k & draft & b & Hin & _ & Hdraft & Hk & Hq
             & Hfirst & Hbk & _ & Hb & Hp)]].
  - split; [reflexivity|]. split; [auto|congruence].
  - split; [reflexivity|]. split.
    { intros ->. apply elem_of_nil in Hin. contradiction. }
    intros _. exists miner, b.
    split; [exact Hp|]. split; [exact Hin|]. split; [exact Hb|].
    assert (Hqb : qualifies (difficulty self) b = true).
    { rewrite Hbk. exact Hq. }
    split; [exact Hqb|]. split.
    { intros Hd. unfold qualifies, str_mul in Hqb.
      apply startswith_zeros in Hqb. lia. }
    assert (Hn : nonce b = Z.of_nat k).
    { rewrite Hbk, Hdraft. cbn. lia. }
    split; [lia|].
    intros j Hj. rewrite <- (Hfirst (Z.to_nat j) ltac:(lia)).
    unfold qualifies, compute_hash. f_equal. f_equal.
    rewrite Hbk, Hdraft. unfold block_data. cbn. rewrite Z2Nat.id by lia.
    reflexivity.
Qed.

(** ** The simulator: generated transactions *)

Lemma sample_loop_two {A} (pool : list A) (w : World) :
  (2 <= length pool)%nat ->
  exists x y i j w',
    sample_loop 2 pool w = ([x; y], w')
    /\ i <> j /\ pool !! i = Some x /\ pool !! j = Some y.
Proof.
  intros Hlen. cbn [sample_loop].
  destruct (rand_raw w) as [r w1].
  set (i := (r mod length pool)%nat).
  assert (Hi : (i < length pool)%nat) by (apply Nat.mod_upper_bound; lia).
  destruct (lookup_lt_is_Some_2 pool i Hi) as [x Hx]. rewrite Hx.
  destruct (rand_raw w1) as [r' w2].
  assert (Hdl : length (delete i pool) = (length pool - 1)%nat).
  { apply length_delete. eauto. }
  set (j := (r' mod length (delete i pool))%nat).
  assert (Hj : (j < length (delete i pool))%nat)
    by (apply Nat.mod_upper_bound; lia).
  destruct (lookup_lt_is_Some_2 (delete i pool) j Hj) as [y Hy]. rewrite Hy.
  rewrite list_lookup_delete in Hy.
  exists x, y, i, (if decide (j < i)%nat then j else Datatypes.S j), w2.
  split; [reflexivity|]. split; [|split; [exact Hx|exact Hy]].
  destruct (decide (j < i)%nat); lia.
Qed.

Lemma generate_loop_returns (nodes : list NetworkNode) :
  amounts_positive ->
  (2 <= length nodes)%nat ->
  forall (count : nat) (w : World),
    exists txs w',
      generate_loop count nodes w = (Ret txs, w')
      /\ length txs = count
      /\ Forall (drawn_between nodes) txs.
Proof.
  intros Hpos Hlen. induction count as [|count IH]; intros w; cbn [generate_loop].
  - exists [], w. repeat split. constructor.
  - unfold random_sample.
    destruct (Z.ltb_spec 2 0); [lia|].
    destruct (Z.ltb_spec (Z.of_nat (length nodes)) 2); [lia|].
    cbn [orb]. change (Z.to_nat 2) with 2%nat.
    destruct (sample_loop_two nodes w Hlen)
      as (from & to & i & j & w1 & -> & Hij & Hfrom & Hto).
    pose proof (Hpos w1) as Ha.
    destruct (uniform_amount w1) as [a w2]. cbn [fst] in Ha.
    unfold Transaction_create.
    destruct (time_time w2) as [t w3]. rewrite Ha.
    destruct (IH w3) as (txs & w4 & -> & Hn & Hall).
    eexists _, w4. split; [reflexivity|]. split; [cbn [length]; lia|].
    constructor; [|exact Hall].
    exists i, j, from, to. repeat split; assumption.
Qed.

Lemma generate_loop_length (nodes : list NetworkNode) :
  forall (count : nat) (w w' : World) (txs : list Transaction),
    generate_loop count nodes w = (Ret txs, w') -> length txs = count.
Proof.
  induction count as [|count IH]; intros w w' txs; cbn [generate_loop].
  - intros [= <- _]. reflexivity.
  - destruct (random_sample nodes 2 w) as [[[|from [|to [|more l]]]|e|] w1];
      try discriminate.
    destruct (uniform_amount w1) as [a w2].
    destruct (Transaction_create _ _ a w2) as [[tx|e|] w3]; try discriminate.
    destruct (generate_loop count nodes w3) as [[rest|e|] w4] eqn:Hrest;
      try discriminate.
    intros [= <- _]. cbn [length]. f_equal. exact (IH _ _ _ Hrest).
Qed.

Lemma generate_transactions_length {S} (self : NetworkSimulator S) (count : Z)
    (w w' : World) (txs : list Transaction) :
  generate_transactions self count w = (Ret txs, w') ->
  length txs = if (length (sim_nodes self) <? 2)%nat then 0%nat
               else Z.to_nat count.
Proof.
  unfold generate_transactions.
  destruct (length (sim_nodes self) <? 2)%nat.
  - intros [= <- _]. reflexivity.
  - apply generate_loop_length.
Qed.

(** X18.  [_generate_transactions(count)], when every drawn amount passes
    the check of [Transaction].  With fewer than two nodes it returns the
    empty list and draws nothing.  Otherwise it returns [count]
    transactions (none for a negative [count]), each between two nodes
    at different positions of the node list, with its id computed; when
    the nodes have distinct addresses, no transaction has the same
    sender and recipient. *)
Theorem generate_transactions_between_nodes {S} (self : NetworkSimulator S)
    (count : Z) (w : World) :
  amounts_positive ->
  ((length (sim_nodes self) < 2)%nat ->
   generate_transactions self count w = (Ret [], w))
  /\ ((2 <= length (sim_nodes self))%nat ->
      exists txs w',
        generate_transactions self count w = (Ret txs, w')
        /\ length txs = Z.to_nat count
        /\ Forall (drawn_between (sim_nodes self)) txs
        /\ (NoDup (map node_address (sim_nodes self)) ->
            Forall (fun tx => sender tx <> recipient tx) txs)).
Proof.
  intros Hpos. unfold generate_transactions. split; intros Hlen.
  - destruct (Nat.ltb_spec (length (sim_nodes self)) 2); [reflexivity|lia].
  - destruct (Nat.ltb_spec (length (sim_nodes self)) 2); [lia|].
    destruct (generate_loop_returns (sim_nodes self) Hpos Hlen
                (Z.to_nat count) w) as (txs & w' & Hgen & Hn & Hall).
    exists txs, w'. split; [exact Hgen|]. split; [exact Hn|].
    split; [exact Hall|]. intros Hnd.
    eapply Forall_impl; [exact Hall|].
    intros tx (i & j & from & to & Hij & Hi & Hj & Hs & Hr & _) Heq.
    apply Hij. change (map node_address ?l) with (node_address <$> l) in Hnd.
    eapply (NoDup_lookup _ i j (node_address from)); [exact Hnd|..];
      rewrite list_lookup_fmap.
    + rewrite Hi. reflexivity.
    + rewrite Hj. cbn. f_equal. congruence.
Qed.

(** ** The simulator: a run *)

Lemma successes_cons (r : RoundResult) (l : list RoundResult) :
  successes (r :: l)
  = (if success (consensus_result r) then 1 else 0) + successes l.
Proof.
  unfold successes. rewrite filter_cons.
  destruct (decide (success (consensus_result r) = true)) as [E|E].
  - rewrite E. cbn [length]. lia.
  - destruct (success (consensus_result r)); [congruence|]. lia.
Qed.

Lemma successes_range (l : list RoundResult) :
  0 <= successes l <= Z.of_nat (length l).
Proof.
  unfold successes.
  pose proof (length_filter (fun r => success (consensus_result r) = true) l).
  lia.
Qed.

Lemma credited_cons (r : RoundResult) (l : list RoundResult) (addr : string) :
  credited (r :: l) addr
  = (if success (consensus_result r)
        && opt_str_eqb (Some addr) (proposer (consensus_result r))
     then 1 else 0) + credited l addr.
Proof.
  unfold credited. rewrite filter_cons.
  destruct (decide (success (consensus_result r) = true
                    /\ proposer (consensus_result r) = Some addr)) as [[E1 E2]|E].
  - rewrite E1, E2. cbn [opt_str_eqb andb]. rewrite String.eqb_refl.
    cbn [length]. lia.
  - destruct (success (consensus_result r)); cbn [andb]; [|lia].
    destruct (opt_str_eqb (Some addr) (proposer (consensus_result r))) eqn:Ep;
      [|lia].
    exfalso. apply E. split; [reflexivity|].
    apply opt_str_eqb_eq in Ep. congruence.
Qed.

Lemma credit_nil (nodes : list NetworkNode) : map (credit []) nodes = nodes.
Proof.
  induction nodes as [|node nodes IH]; [reflexivity|].
  cbn [map]. rewrite IH. f_equal. destruct node. unfold credit, credited.
  cbn. f_equal. lia.
Qed.

Lemma credit_cons (r : RoundResult) (l : list RoundResult)
    (nodes : list NetworkNode) :
  map (credit l)
      (if success (consensus_result r)
       then credit_proposer (proposer (consensus_result r)) nodes
       else nodes)
  = map (credit (r :: l)) nodes.
Proof.
  assert (Hnode : forall node,
             credit l (if success (consensus_result r)
                          && opt_str_eqb (Some (node_address node))
                                         (proposer (consensus_result r))
                       then produced_block node else node)
             = credit (r :: l) node).
  { intros node. unfold credit. rewrite credited_cons.
    destruct (success (consensus_result r)
              && opt_str_eqb (Some (node_address node))
                             (proposer (consensus_result r)));
      cbn; f_equal; lia. }
  destruct (success (consensus_result r)) eqn:Es.
  - unfold credit_proposer. rewrite map_map. apply map_ext. intros node.
    rewrite <- Hnode. reflexivity.
  - apply map_ext. intros node. rewrite <- Hnode. reflexivity.
Qed.

Lemma omap_cons {A B} (f : A -> option B) (x : A) (l : list A) :
  omap f (x :: l)
  = match f x with Some y => y :: omap f l | None => omap f l end.
Proof. reflexivity. Qed.

Lemma py_range_length (a b : Z) : length (py_range a b) = Z.to_nat (b - a).
Proof. unfold py_range. rewrite length_map, length_seq. reflexivity. Qed.

Section Run.

Context {S : Type} (P : ConsensusProtocol S).
Hypothesis consistent : side_effect_consistent P.

Lemma run_loop_spec (fuel : nat) (cfg : SimulationConfig)
    (addrs : list string) (numbers : list Z) :
  forall (acc : list RoundResult) (total : Z) (self : NetworkSimulator S)
         (w : World) (done : list RoundResult) (total' : Z)
         (self' : NetworkSimulator S) (w' : World),
    run_loop fuel cfg addrs numbers acc total self w
    = (Ret (done, total'), self', w') ->
    exists new,
      done = acc ++ new
      /\ map round_number new = numbers
      /\ chain (sim_blockchain self')
         = chain (sim_blockchain self) ++ omap appended new
      /\ Z.of_nat (length (omap appended new)) = successes new
      /\ pending_transactions (sim_blockchain self')
         = pending_transactions (sim_blockchain self)
      /\ bc_difficulty (sim_blockchain self') = bc_difficulty (sim_blockchain self)
      /\ Forall (fun r => pending_txs r
                          = Z.of_nat (length (pending_transactions
                                                (sim_blockchain self)))) new
      /\ total' = total + successes new * generated_per_round self cfg
      /\ sim_nodes self' = map (credit new) (sim_nodes self)
      /\ (forall k r, new !! k = Some r ->
            chain_height r
            = height (sim_blockchain self) + successes (take (Datatypes.S k) new)).
Proof.
  induction numbers as [|i rest IH];
    intros acc total self w done total' self' w'; cbn [run_loop].
  - intros [= <- <- <- <-]. exists [].
    rewrite !app_nil_r, credit_nil. cbn [omap map length successes].
    repeat split; try reflexivity; try constructor; try (unfold successes; cbn; lia).
    intros k r Hk. discriminate.
  - destruct (generate_transactions self (txs_per_round cfg) w)
      as [[txs|e|] w1] eqn:Hgen; try discriminate.
    pose proof (consistent fuel txs addrs (consensus self) (sim_blockchain self) w1)
      as Hc.
    destruct (run_round fuel txs addrs (consensus self) (sim_blockchain self) w1)
      as [[[o c1] bc1] w2].
    destruct o as [result|e|]; try discriminate.
    destruct Hc as (Hpend & Hdiff & Hchain).
    intros Hloop.
    destruct (IH _ _ _ _ _ _ _ _ Hloop)
      as (new & -> & Hnum & Hch & Hlen & Hp & Hd & Hpt & Htot & Hnodes & Hh).
    cbn [sim_blockchain sim_nodes] in *.
    set (r := mkRoundResult i result (height bc1)
                (Z.of_nat (length (pending_transactions bc1)))) in *.
    assert (Hgenlen : Z.of_nat (length txs) = generated_per_round self cfg).
    { rewrite (generate_transactions_length _ _ _ _ _ Hgen).
      unfold generated_per_round.
      destruct (length (sim_nodes self) <? 2)%nat; reflexivity. }
    assert (Hsame : generated_per_round
                      (mkSimulator c1
                         (if success result
                          then credit_proposer (proposer result) (sim_nodes self)
                          else sim_nodes self) bc1) cfg
                    = generated_per_round self cfg).
    { unfold generated_per_round. cbn [sim_nodes].
      destruct (success result); [|reflexivity].
      unfold credit_proposer. rewrite length_map. reflexivity. }
    assert (Hstep : appended r = (if success result then block result else None))
      by reflexivity.
    assert (Hgrow : chain bc1
                    = chain (sim_blockchain self)
                      ++ match appended r with Some b => [b] | None => [] end
                    /\ height bc1
                       = height (sim_blockchain self)
                         + (if success result then 1 else 0)
                    /\ (success result = true -> is_Some (appended r))).
    { rewrite Hstep. unfold height.
      destruct Hchain as [(Hs & b & Hb & Hcb)|(Hs & Hcb)]; rewrite Hs, Hcb.
      - rewrite Hb, length_app. cbn [length]. repeat split; [lia|eauto].
      - rewrite app_nil_r. repeat split; [lia|discriminate]. }
    destruct Hgrow as (Hgrow & Hheight & Hsome).
    exists (r :: new).
    split; [rewrite <- app_assoc; reflexivity|].
    split; [cbn [map round_number r]; rewrite Hnum; reflexivity|].
    split.
    { rewrite Hch, Hgrow, omap_cons, <- app_assoc.
      destruct (appended r); reflexivity. }
    split.
    { rewrite successes_cons, omap_cons. cbn [consensus_result r].
      rewrite Hstep in *.
      destruct (success result) eqn:Es.
      - destruct (Hsome eq_refl) as [b Hb]. rewrite Hb. cbn [length]. lia.
      - lia. }
    split; [congruence|]. split; [congruence|].
    split.
    { constructor; [cbn [pending_txs r]; rewrite Hpend; reflexivity|].
      rewrite Hpend in Hpt. exact Hpt. }
    split.
    { rewrite Htot, Hsame, successes_cons. cbn [consensus_result r].
      destruct (success result); lia. }
    split.
    { rewrite Hnodes.
      exact (credit_cons r new (sim_nodes self)). }
    intros k r' Hk. destruct k as [|k].
    + injection Hk as <-. cbn [take chain_height r].
      rewrite successes_cons. cbn [consensus_result r].
      change (successes (take 0 new)) with 0. rewrite Hheight. lia.
    + cbn [lookup] in Hk. rewrite (Hh k r' Hk).
      change (take (Datatypes.S (Datatypes.S k)) (r :: new))
        with (r :: take (Datatypes.S k) new).
      rewrite successes_cons. cbn [consensus_result r]. rewrite Hheight. lia.
Qed.

End Run.

Lemma run_returned {S} (P : ConsensusProtocol S) (fuel : nat)
    (config_arg : option SimulationConfig) (self self' : NetworkSimulator S)
    (w w' : World) (rep : SimulationReport) :
  @run S P fuel config_arg self w = (Ret rep, self', w') ->
  let cfg := config_of config_arg in
  exists w0 total,
    @run_loop S P fuel cfg (active_addresses self)
              (py_range 1 (num_rounds cfg + 1)) [] 0 self w0
    = (Ret (report_rounds rep, total), self', w')
    /\ rep = mkReport name cfg (report_rounds rep)
               (height (sim_blockchain self'))
               (successes (report_rounds rep))
               (Z.of_nat (length (report_rounds rep))
                - successes (report_rounds rep))
               total.
Proof.
  unfold run. fold (config_of config_arg). cbv zeta.
  set (cfg := config_of config_arg).
  set (w0 := match random_seed cfg with
             | Some n => random_seed_with n w
             | None => w
             end).
  destruct (run_loop fuel cfg (active_addresses self) _ [] 0 self w0)
    as [[[[done total]|e|] self1] w1] eqn:Hloop; try discriminate.
  intros [= <- <- <-]. exists w0, total. split; [exact Hloop|reflexivity].
Qed.

(** X19.  The report of a [run] that returned, for any protocol whose
    rounds change the chain only as their result says.  It has one entry
    per round number 1, 2, ..., [num_rounds] (none when [num_rounds] is
    not positive); successful and failed rounds add up to the number of
    entries; the final height is the height at the start plus the
    successful rounds, and the height recorded in each entry is the
    height at the start plus the successes so far; the transaction total
    is the number generated per round times the successful rounds; every
    entry records the size the pending pool had at the start. *)
Theorem run_report_accounting {S} (P : ConsensusProtocol S) (fuel : nat)
    (config_arg : option SimulationConfig) (self self' : NetworkSimulator S)
    (w w' : World) (rep : SimulationReport) :
  side_effect_consistent P ->
  @run S P fuel config_arg self w = (Ret rep, self', w') ->
  let cfg := config_of config_arg in
  algorithm rep = name
  /\ config rep = cfg
  /\ map round_number (report_rounds rep) = py_range 1 (num_rounds cfg + 1)
  /\ length (report_rounds rep) = Z.to_nat (num_rounds cfg)
  /\ successful_rounds rep = successes (report_rounds rep)
  /\ 0 <= successful_rounds rep
  /\ 0 <= failed_rounds rep
  /\ successful_rounds rep + failed_rounds rep
     = Z.of_nat (length (report_rounds rep))
  /\ final_chain_height rep
     = height (sim_blockchain self) + successful_rounds rep
  /\ total_transactions_processed rep
     = successful_rounds rep * generated_per_round self cfg
  /\ Forall (fun r => pending_txs r
                      = Z.of_nat (length (pending_transactions
                                            (sim_blockchain self))))
            (report_rounds rep)
  /\ forall k r, report_rounds rep !! k = Some r ->
       chain_height r
       = height (sim_blockchain self)
         + successes (take (Datatypes.S k) (report_rounds rep)).
Proof.
  intros Hcons Hrun cfg.
  destruct (run_returned P _ _ _ _ _ _ _ Hrun) as (w0 & total & Hloop & Hrep).
  fold cfg in Hloop, Hrep.
  destruct (run_loop_spec P Hcons _ _ _ _ _ _ _ _ _ _ _ _ Hloop)
    as (new & Hdone & Hnum & Hch & Hlen & _ & _ & Hpt & Htot & _ & Hh).
  cbn [app] in Hdone. subst new.
  pose proof (successes_range (report_rounds rep)) as Hrange.
  assert (Hcount : length (report_rounds rep) = Z.to_nat (num_rounds cfg)).
  { rewrite <- (length_map round_number), Hnum, py_range_length.
    f_equal. lia. }
  assert (Hheight : height (sim_blockchain self')
                    = height (sim_blockchain self) + successes (report_rounds rep)).
  { unfold height. rewrite Hch, length_app. lia. }
  rewrite Hrep.
  cbn [algorithm config report_rounds final_chain_height successful_rounds
       failed_rounds total_transactions_processed].
  repeat split; try assumption; try lia.
Qed.

(** X20.  What a [run] that returned has done to the simulator, for any
    protocol whose rounds change the chain only as their result says.
    The chain is the chain at the start followed by the blocks of the
    successful rounds, in order; the pending pool and the difficulty of
    the chain are as they were.  The nodes keep their order, addresses,
    balances, stakes and activity: no balance and no stake ever moves.
    When the nodes have distinct addresses, [blocks_produced] of a node
    goes up by the number of successful rounds whose proposer is the
    address of the node. *)
Theorem run_effect_on_simulator {S} (P : ConsensusProtocol S) (fuel : nat)
    (config_arg : option SimulationConfig) (self self' : NetworkSimulator S)
    (w w' : World) (rep : SimulationReport) :
  side_effect_consistent P ->
  @run S P fuel config_arg self w = (Ret rep, self', w') ->
  chain (sim_blockchain self')
  = chain (sim_blockchain self) ++ omap appended (report_rounds rep)
  /\ pending_transactions (sim_blockchain self')
     = pending_transactions (sim_blockchain self)
  /\ bc_difficulty (sim_blockchain self') = bc_difficulty (sim_blockchain self)
  /\ map node_address (sim_nodes self') = map node_address (sim_nodes self)
  /\ map balance (sim_nodes self') = map balance (sim_nodes self)
  /\ map node_stake (sim_nodes self') = map node_stake (sim_nodes self)
  /\ map is_active (sim_nodes self') = map is_active (sim_nodes self)
  /\ (NoDup (map node_address (sim_nodes self)) ->
      map node_blocks_produced (sim_nodes self')
      = map (fun node => node_blocks_produced node
                         + credited (report_rounds rep) (node_address node))
            (sim_nodes self)).
Proof.
  intros Hcons Hrun.
  destruct (run_returned P _ _ _ _ _ _ _ Hrun) as (w0 & total & Hloop & _).
  destruct (run_loop_spec P Hcons _ _ _ _ _ _ _ _ _ _ _ _ Hloop)
    as (new & Hdone & _ & Hch & _ & Hp & Hd & _ & _ & Hnodes & _).
  cbn [app] in Hdone. subst new.
  rewrite Hnodes, !map_map.
  cbn [credit node_address balance node_stake is_active node_blocks_produced].
  repeat split; assumption.
Qed.

(** ** The simulator: runs in which every round succeeds *)

Lemma generate_transactions_returns {S} (self : NetworkSimulator S) (count : Z)
    (w : World) :
  amounts_positive ->
  exists txs w', generate_transactions self count w = (Ret txs, w').
Proof.
  intros Hpos. unfold generate_transactions.
  destruct (Nat.ltb_spec (length (sim_nodes self)) 2) as [Hlt|Hge]; [eauto|].
  destruct (generate_loop_returns (sim_nodes self) Hpos Hge (Z.to_nat count) w)
    as (txs & w' & Hgen & _).
  eauto.
Qed.

Lemma add_block_accepted_tip (bc bc' : Blockchain) (b : Block) :
  add_block bc b = (Ret true, bc') ->
  latest_block bc' = Ret b /\ hash b <> None
  /\ (is_valid bc = true -> is_valid bc' = true).
Proof.
  intros Hadd.
  destruct (add_block_true_inv _ _ _ Hadd) as (latest & _ & [_ Hh] & Hbc).
  split; [|split].
  - subst bc'. apply (latest_block_snoc _ (chain bc)). reflexivity.
  - rewrite Hh. discriminate.
  - intros Hv. exact (is_valid_add_block _ _ _ Hv Hadd).
Qed.

Section Succeeds.

Context {S : Type} (P : ConsensusProtocol S) (Inv : S -> Prop).
Hypothesis amounts_pass : amounts_positive.
Hypothesis round_succeeds :
  forall fuel txs nodes self bc latest w,
    Inv self -> latest_block bc = Ret latest -> hash latest <> None ->
    exists res self' bc' w' b,
      run_round fuel txs nodes self bc w = (Ret res, self', bc', w')
      /\ success res = true
      /\ Inv self'
      /\ add_block bc b = (Ret true, bc').

Lemma run_loop_succeeds (fuel : nat) (cfg : SimulationConfig)
    (addrs : list string) (numbers : list Z) :
  forall (acc : list RoundResult) (total : Z) (self : NetworkSimulator S)
         (w : World) (latest : Block),
    Inv (consensus self) ->
    latest_block (sim_blockchain self) = Ret latest ->
    hash latest <> None ->
    exists new total' self' w',
      run_loop fuel cfg addrs numbers acc total self w
      = (Ret (acc ++ new, total'), self', w')
      /\ length new = length numbers
      /\ successes new = Z.of_nat (length numbers)
      /\ Inv (consensus self')
      /\ (is_valid (sim_blockchain self) = true ->
          is_valid (sim_blockchain self') = true).
Proof.
  induction numbers as [|i rest IH]; intros acc total self w latest HI HL Hh;
    cbn [run_loop].
  - exists [], total, self, w. rewrite app_nil_r. repeat split; auto.
  - destruct (generate_transactions_returns self (txs_per_round cfg) w amounts_pass)
      as (txs & w1 & ->).
    destruct (round_succeeds fuel txs addrs (consensus self) (sim_blockchain self)
                latest w1 HI HL Hh)
      as (res & c1 & bc1 & w2 & b & -> & Hs & HI1 & Hadd).
    destruct (add_block_accepted_tip _ _ _ Hadd) as (HL1 & Hh1 & Hv1).
    rewrite Hs.
    set (r := mkRoundResult i res (height bc1)
                (Z.of_nat (length (pending_transactions bc1)))).
    destruct (IH (acc ++ [r]) (total + Z.of_nat (length txs))
                 (mkSimulator c1 (credit_proposer (proposer res) (sim_nodes self)) bc1)
                 w2 b HI1 HL1 Hh1)
      as (new & total' & self' & w' & -> & Hlen & Hsucc & HI' & Hv').
    exists (r :: new), total', self', w'.
    split; [rewrite <- app_assoc; reflexivity|].
    split; [cbn [length]; lia|].
    split.
    { rewrite successes_cons. cbn [consensus_result r]. rewrite Hs, Hsucc.
      cbn [length]. lia. }
    split; [exact HI'|]. intros Hv. apply Hv', Hv1, Hv.
Qed.

Lemma run_succeeds (fuel : nat) (config_arg : option SimulationConfig)
    (self : NetworkSimulator S) (w : World) (latest : Block) :
  side_effect_consistent P ->
  Inv (consensus self) ->
  latest_block (sim_blockchain self) = Ret latest ->
  hash latest <> None ->
  let n := Z.of_nat (Z.to_nat (num_rounds (config_of config_arg))) in
  exists rep self' w',
    @run S P fuel config_arg self w = (Ret rep, self', w')
    /\ successful_rounds rep = n
    /\ failed_rounds rep = 0
    /\ final_chain_height rep = height (sim_blockchain self) + n
    /\ Inv (consensus self')
    /\ (is_valid (sim_blockchain self) = true ->
        is_valid (sim_blockchain self') = true).
Proof.
  intros Hcons HI HL Hh n. unfold run. fold (config_of config_arg). cbv zeta.
  set (cfg := config_of config_arg) in *.
  set (w0 := match random_seed cfg with
             | Some k => random_seed_with k w
             | None => w
             end).
  set (addrs := active_addresses self).
  destruct (run_loop_succeeds fuel cfg addrs (py_range 1 (num_rounds cfg + 1))
              [] 0 self w0 latest HI HL Hh)
    as (new & total' & self' & w' & Hloop & Hlen & Hsucc & HI' & Hv).
  cbn [app] in Hloop.
  destruct (run_loop_spec P Hcons _ _ _ _ _ _ _ _ _ _ _ _ Hloop)
    as (new' & Hnew & _ & Hch & Hlen' & _).
  cbn [app] in Hnew. subst new'.
  rewrite Hloop.
  rewrite py_range_length in Hlen, Hsucc.
  replace (num_rounds cfg + 1 - 1) with (num_rounds cfg) in Hlen, Hsucc by lia.
  eexists _, self', w'. split; [reflexivity|].
  cbn [successful_rounds failed_rounds final_chain_height].
  fold (successes new). rewrite Hsucc, Hlen.
  split; [reflexivity|]. split; [unfold n; lia|].
  split; [|split; assumption].
  unfold height. rewrite Hch, length_app. unfold n. lia.
Qed.

End Succeeds.

Lemma dpos_round_succeeds :
  forall fuel txs nodes (self : DelegatedProofOfStake) bc latest w,
    active_delegates self <> [] ->
    latest_block bc = Ret latest -> hash latest <> None ->
    exists res self' bc' w' b,
      run_round fuel txs nodes self bc w = (Ret res, self', bc', w')
      /\ success res = true
      /\ active_delegates self' <> []
      /\ add_block bc b = (Ret true, bc').
Proof.
  intros fuel txs nodes self bc latest w Hne HL Hh.
  destruct (dpos_round fuel txs nodes self bc latest w Hne HL)
    as (d & res & self' & bc' & b & Hrun & _ & _ & _ & _ & _ & Hact & Hadd & Hs).
  assert (Hsucc : success res = true).
  { rewrite Hs. unfold has_hash. destruct (hash latest); congruence. }
  exists res, self', bc', (snd (time_time w)), b.
  split; [exact Hrun|]. split; [exact Hsucc|].
  split; [rewrite Hact; exact Hne|]. rewrite <- Hsucc. exact Hadd.
Qed.

Lemma pbft_live_quorum (self : PracticalBFT) :
  pbft_live self -> honest_quorum self = true.
Proof.
  intros (_ & Hnd & Hq). unfold honest_quorum, heard.
  rewrite (size_list_to_set _ Hnd). apply Z.leb_le. exact Hq.
Qed.

Lemma pbft_round_succeeds :
  forall fuel txs nodes (self : PracticalBFT) bc latest w,
    pbft_live self ->
    latest_block bc = Ret latest -> hash latest <> None ->
    exists res self' bc' w' b,
      run_round fuel txs nodes self bc w = (Ret res, self', bc', w')
      /\ success res = true
      /\ pbft_live self'
      /\ add_block bc b = (Ret true, bc').
Proof.
  intros fuel txs nodes self bc latest w Hlive HL Hh.
  pose proof Hlive as (Hne & _ & _).
  destruct (pbft_round_detail fuel txs nodes self bc latest w Hne HL)
    as (leader & res & self' & bc' & b & Hrun & _ & _ & _ & _ & _ & _ & _ & _
        & Hcase).
  rewrite (pbft_live_quorum self Hlive) in Hcase.
  destruct Hcase as (_ & Hs & Hadd).
  assert (Hsucc : success res = true).
  { rewrite Hs. unfold has_hash. destruct (hash latest); congruence. }
  exists res, self', bc', (snd (time_time w)), b.
  split; [exact Hrun|]. split; [exact Hsucc|]. split.
  - destruct (pbft_round_preserves _ _ _ _ _ _ _ _ _ _ Hrun) as (Hl & Hf & Hhon).
    destruct Hlive as (H1 & H2 & H3). unfold pbft_live, quorum in *.
    rewrite Hl, Hf, Hhon. auto.
  - rewrite <- Hsucc. exact Hadd.
Qed.

(** X21.  A simulation over DPoS with at least one active delegate, or
    over PBFT with enough distinct honest validators for a quorum, on a
    chain whose latest block carries a hash, when every drawn amount
    passes the check of [Transaction]: [run] returns, every round
    succeeds, no round fails, the final height is the height at the start
    plus the number of rounds, and a chain that was valid at the start is
    valid at the end.  The chain of a simulator created without a chain
    argument is such a chain, of height 1. *)
Theorem dpos_and_pbft_runs_succeed (fuel : nat)
    (config_arg : option SimulationConfig) (w : World) :
  amounts_positive ->
  let n := Z.of_nat (Z.to_nat (num_rounds (config_of config_arg))) in
  (forall (self : NetworkSimulator DelegatedProofOfStake) (latest : Block),
      active_delegates (consensus self) <> [] ->
      latest_block (sim_blockchain self) = Ret latest ->
      hash latest <> None ->
      exists rep self' w',
        run fuel config_arg self w = (Ret rep, self', w')
        /\ successful_rounds rep = n
        /\ failed_rounds rep = 0
        /\ final_chain_height rep = height (sim_blockchain self) + n
        /\ (is_valid (sim_blockchain self) = true ->
            is_valid (sim_blockchain self') = true))
  /\ (forall (self : NetworkSimulator PracticalBFT) (latest : Block),
      pbft_live (consensus self) ->
      latest_block (sim_blockchain self) = Ret latest ->
      hash latest <> None ->
      exists rep self' w',
        run fuel config_arg self w = (Ret rep, self', w')
        /\ successful_rounds rep = n
        /\ failed_rounds rep = 0
        /\ final_chain_height rep = height (sim_blockchain self) + n
        /\ (is_valid (sim_blockchain self) = true ->
            is_valid (sim_blockchain self') = true))
  /\ (forall (S : Type) (t0 : float) (c : S) (nodes : list NetworkNode),
      let self := NetworkSimulator_init t0 c nodes None in
      latest_block (sim_blockchain self) = Ret (genesis t0)
      /\ hash (genesis t0) <> None
      /\ height (sim_blockchain self) = 1
      /\ is_valid (sim_blockchain self) = true).
Proof.
  intros Hpos n. split; [|split].
  - intros self latest Hne HL Hh.
    destruct (run_succeeds DPoS_protocol (fun c => active_delegates c <> [])
                Hpos dpos_round_succeeds fuel config_arg self w latest
                dpos_consistent Hne HL Hh)
      as (rep & self' & w' & Hrun & Hs & Hf & Hfinal & _ & Hv).
    exists rep, self', w'. repeat split; assumption.
  - intros self latest Hlive HL Hh.
    destruct (run_succeeds PBFT_protocol pbft_live
                Hpos pbft_round_succeeds fuel config_arg self w latest
                pbft_consistent Hlive HL Hh)
      as (rep & self' & w' & Hrun & Hs & Hf & Hfinal & _ & Hv).
    exists rep, self', w'. repeat split; assumption.
  - intros S0 t0 c nodes self. repeat split. discriminate.
Qed.

(** ** Transaction ids *)

Lemma str_app_assoc (a b c : string) : (a +:+ b) +:+ c = a +:+ (b +:+ c).
Proof.
  induction a as [|x a IH]; [reflexivity|].
  change (String x a +:+ b) with (String x (a +:+ b)).
  change (String x (a +:+ b) +:+ c) with (String x ((a +:+ b) +:+ c)).
  rewrite IH. reflexivity.
Qed.

(** X22.  The id [Transaction] computes is the hash of sender, recipient,
    amount and timestamp written one after the other with nothing between
    them.  Two transactions with the same amount and timestamp whose
    sender and recipient differ but read the same when joined get the same
    id, and a block hashes the same with either of them. *)
Theorem tx_id_reads_concatenation (s1 r1 s2 r2 : string) (a t : float) :
  s1 +:+ r1 = s2 +:+ r2 ->
  let tx1 := Transaction_init s1 r1 a t None in
  let tx2 := Transaction_init s2 r2 a t None in
  tx_id tx1 = Some (tx_compute_hash tx1)
  /\ tx_id tx1 = tx_id tx2
  /\ forall (b : Block) (before after : list Transaction),
       compute_hash (set_transactions b (before ++ tx1 :: after))
       = compute_hash (set_transactions b (before ++ tx2 :: after)).
Proof.
  intros Hjoin tx1 tx2.
  assert (Hh : tx_compute_hash tx1 = tx_compute_hash tx2).
  { unfold tx_compute_hash. f_equal.
    change (s1 +:+ r1 +:+ str_float a +:+ str_float t
            = s2 +:+ r2 +:+ str_float a +:+ str_float t).
    rewrite <- !str_app_assoc, Hjoin. reflexivity. }
  assert (Hid : tx_id tx1 = tx_id tx2).
  { change (Some (tx_compute_hash tx1) = Some (tx_compute_hash tx2)).
    rewrite Hh. reflexivity. }
  split; [reflexivity|]. split; [exact Hid|].
  intros b before after. unfold compute_hash, block_data.
  cbn [set_transactions index timestamp transactions previous_hash nonce validator].
  rewrite (tx_data_same_key before after tx2 tx1); [reflexivity|].
  unfold tx_key. rewrite Hid, Hh. reflexivity.
Qed.

(** ** What a round reads of the chain object *)

Lemma rbo_ret {S A} (a : A) : reads_blocks_only (@ret S A a).
Proof. intros s bc p d w. repeat split. Qed.

Lemma rbo_lift {S A} (o : outcome A) : reads_blocks_only (@lift S A o).
Proof. intros s bc p d w. repeat split. Qed.

Lemma rbo_get_self {S} : reads_blocks_only (@get_self S).
Proof. intros s bc p d w. repeat split. Qed.

Lemma rbo_put_self {S} (s' : S) : reads_blocks_only (put_self s').
Proof. intros s bc p d w. repeat split. Qed.

Lemma rbo_on_world {S A} (f : World -> outcome A * World) :
  reads_blocks_only (@on_world S A f).
Proof.
  intros s bc p d w. unfold on_world. destruct (f w). repeat split.
Qed.

Lemma rbo_now {S} : reads_blocks_only (@now S).
Proof. apply rbo_on_world. Qed.

Lemma rbo_next_block {S} (txs : list Transaction) (v : option string) :
  reads_blocks_only (@next_block S (Some txs) v).
Proof.
  intros s bc p d w. unfold next_block, create_next_block, latest_block, height.
  cbn [chain]. destruct (list_get (chain bc) (-1)); [|repeat split..].
  destruct (time_time w). repeat split.
Qed.

Lemma rbo_add_block {S} (b : Block) :
  reads_blocks_only (@on_chain S bool (fun bc => add_block bc b)).
Proof.
  intros s bc p d w. unfold on_chain, add_block, latest_block, set_chain.
  cbn [chain pending_transactions bc_difficulty].
  destruct (list_get (chain bc) (-1)) as [latest|e|]; [|repeat split..].
  destruct (negb _); [repeat split|].
  destruct (hash b) as [h|]; [|repeat split].
  destruct (negb _); repeat split.
Qed.

Lemma rbo_bind {S A B} (m : M S A) (k : A -> M S B) :
  reads_blocks_only m -> (forall a, reads_blocks_only (k a)) ->
  reads_blocks_only (bind m k).
Proof.
  intros Hm Hk s bc p d w. unfold bind.
  specialize (Hm s bc p d w).
  destruct (m s bc w) as [[[o s1] bc1] w1].
  destruct Hm as (-> & Hp & Hd).
  destruct o as [a|e|]; [|repeat split; assumption..].
  specialize (Hk a s1 bc1 p d w1).
  destruct (k a s1 bc1 w1) as [[[o2 s2] bc2] w2].
  destruct Hk as (Hk & Hp2 & Hd2).
  split; [exact Hk|]. split; congruence.
Qed.

Ltac reads_blocks_only :=
  repeat first
    [ apply rbo_ret | apply rbo_lift | apply rbo_get_self | apply rbo_put_self
    | apply rbo_now | apply rbo_on_world | apply rbo_next_block
    | apply rbo_add_block
    | apply rbo_bind; [|intros ?] ].

Lemma pow_reads_blocks_only (fuel : nat) (txs : list Transaction)
    (nodes : list string) :
  reads_blocks_only (pow_run_round fuel txs nodes).
Proof.
  unfold pow_run_round. destruct nodes as [|n0 nodes]; [apply rbo_ret|].
  apply rbo_bind; [apply rbo_get_self|intros self].
  apply rbo_bind; [apply rbo_on_world|intros miner].
  apply rbo_bind; [apply rbo_next_block|intros draft].
  apply rbo_bind; [apply rbo_now|intros start].
  destruct (mine fuel (difficulty self) draft) as [mined b].
  reads_blocks_only.
Qed.

Lemma select_validator_reads_blocks_only : reads_blocks_only select_validator.
Proof.
  unfold select_validator. apply rbo_bind; [apply rbo_get_self|intros self].
  destruct (f_eq_zero _); apply rbo_on_world.
Qed.

Lemma pos_reads_blocks_only (fuel : nat) (txs : list Transaction)
    (nodes : list string) :
  reads_blocks_only (pos_run_round fuel txs nodes).
Proof.
  unfold pos_run_round. apply rbo_bind; [apply rbo_get_self|intros self].
  destruct (validators self); [apply rbo_ret|].
  apply rbo_bind; [apply select_validator_reads_blocks_only|intros proposer].
  apply rbo_bind; [apply rbo_lift|intros info0].
  apply rbo_bind; [apply rbo_next_block|intros draft].
  apply rbo_bind; [apply rbo_add_block|intros added].
  apply rbo_bind; [destruct added; [apply rbo_put_self|apply rbo_ret]|intros _].
  reads_blocks_only.
Qed.

Lemma dpos_reads_blocks_only (fuel : nat) (txs : list Transaction)
    (nodes : list string) :
  reads_blocks_only (dpos_run_round fuel txs nodes).
Proof.
  unfold dpos_run_round. apply rbo_bind; [apply rbo_get_self|intros self].
  apply rbo_bind; [apply rbo_lift|intros turn].
  destruct turn as [delegate|]; [|apply rbo_ret].
  reads_blocks_only.
Qed.

Lemma pbft_reads_blocks_only (fuel : nat) (txs : list Transaction)
    (nodes : list string) :
  reads_blocks_only (pbft_run_round fuel txs nodes).
Proof.
  unfold pbft_run_round. apply rbo_bind; [apply rbo_get_self|intros self0].
  apply rbo_bind; [apply rbo_put_self|intros _].
  apply rbo_bind; [apply rbo_lift|intros i].
  apply rbo_bind; [apply rbo_lift|intros leader].
  apply rbo_bind; [apply rbo_next_block|intros draft].
  unfold phase_commit. cbv beta iota zeta.
  apply rbo_bind; [apply rbo_put_self|intros _].
  destruct (_ <=? _); reads_blocks_only.
Qed.

(** X23.  A round of any of the four protocols reads of the chain object
    only its list of blocks.  The pending pool is neither read nor
    changed, so the block a round builds does not depend on what was
    handed to [add_transaction]; and the [difficulty] field of the chain
    is neither read nor changed, PoW taking its difficulty from the
    protocol object.  With another pool and another difficulty the round
    returns the same result and leaves the same blocks. *)
Theorem rounds_read_only_the_blocks (fuel : nat) (txs : list Transaction)
    (nodes : list string) :
  reads_blocks_only (run_round (ConsensusProtocol := PoW_protocol) fuel txs nodes)
  /\ reads_blocks_only (run_round (ConsensusProtocol := PoS_protocol) fuel txs nodes)
  /\ reads_blocks_only (run_round (ConsensusProtocol := DPoS_protocol) fuel txs nodes)
  /\ reads_blocks_only (run_round (ConsensusProtocol := PBFT_protocol) fuel txs nodes).
Proof.
  split; [apply pow_reads_blocks_only|].
  split; [apply pos_reads_blocks_only|].
  split; [apply dpos_reads_blocks_only|apply pbft_reads_blocks_only].
Qed.

(** ** The simulator: what every recorded round satisfies *)

Lemma run_loop_results {S} (P : ConsensusProtocol S)
    (Q : ConsensusResult -> Prop) (fuel : nat) (cfg : SimulationConfig)
    (addrs : list string) :
  (forall txs self bc w res self' bc' w',
      run_round fuel txs addrs self bc w = (Ret res, self', bc', w') -> Q res) ->
  forall (numbers : list Z) (acc : list RoundResult) (total : Z)
         (self : NetworkSimulator S) (w : World) (done : list RoundResult)
         (total' : Z) (self' : NetworkSimulator S) (w' : World),
    @run_loop S P fuel cfg addrs numbers acc total self w
    = (Ret (done, total'), self', w') ->
    Forall (fun r => Q (consensus_result r)) acc ->
    Forall (fun r => Q (consensus_result r)) done.
Proof.
  intros HQ. induction numbers as [|i rest IH];
    intros acc total self w done total' self' w'; cbn [run_loop].
  - intros [= <- _ _ _] Hacc. exact Hacc.
  - destruct (generate_transactions self (txs_per_round cfg) w)
      as [[txs|e|] w1]; try discriminate.
    destruct (run_round fuel txs addrs (consensus self) (sim_blockchain self) w1)
      as [[[o c1] bc1] w2] eqn:Hround.
    destruct o as [result|e|]; try discriminate.
    intros Hloop Hacc. apply (IH _ _ _ _ _ _ _ _ Hloop).
    apply Forall_app. split; [exact Hacc|].
    constructor; [|constructor]. cbn [consensus_result].
    exact (HQ _ _ _ _ _ _ _ _ Hround).
Qed.

(** X24.  In a PoW simulation only the nodes that are active mine: the
    proposer of every recorded round is the address of an active node of
    the simulator, and every block of the report carries that address as
    validator.  When no node is active every round fails without a block
    and the chain stays as it was. *)
Theorem pow_run_proposers_are_active (fuel : nat)
    (config_arg : option SimulationConfig)
    (self self' : NetworkSimulator ProofOfWork) (w w' : World)
    (rep : SimulationReport) :
  run (H := PoW_protocol) fuel config_arg self w = (Ret rep, self', w') ->
  Forall (fun r =>
            let res := consensus_result r in
            (exists node, node ∈ sim_nodes self
                          /\ is_active node = true
                          /\ proposer res = Some (node_address node)
                          /\ exists b, block res = Some b
                                       /\ validator b = proposer res)
            \/ (active_addresses self = []
                /\ success res = false /\ block res = None
                /\ proposer res = None))
         (report_rounds rep)
  /\ (active_addresses self = [] ->
      successful_rounds rep = 0
      /\ chain (sim_blockchain self') = chain (sim_blockchain self)).
Proof.
  intros Hrun.
  destruct (run_returned PoW_protocol _ _ _ _ _ _ _ Hrun)
    as (w0 & total & Hloop & Hrep).
  set (Q := fun res : ConsensusResult =>
              (exists node, node ∈ sim_nodes self
                            /\ is_active node = true
                            /\ proposer res = Some (node_address node)
                            /\ exists b, block res = Some b
                                         /\ validator b = proposer res)
              \/ (active_addresses self = []
                  /\ success res = false /\ block res = None
                  /\ proposer res = None)).
  assert (Hall : Forall (fun r => Q (consensus_result r)) (report_rounds rep)).
  { apply (run_loop_results PoW_protocol Q _ _ _) with (2 := Hloop);
      [|constructor].
    intros txs s bc w1 res s' bc' w1' Hround.
    cbn [run_round PoW_protocol] in Hround.
    destruct (pow_round_shape _ _ _ _ _ _ _ _ _ _ Hround)
      as [_ [(Hnil & Hs & Hb & Hp & _)
            |(miner & latest & t & k & draft & b & Hin & _ & Hdraft & _ & _ & _
              & Hbk & _ & Hb & Hp)]].
    - right. repeat split; assumption.
    - left. unfold active_addresses in Hin.
      change (map node_address ?l) with (node_address <$> l) in Hin.
      apply list_elem_of_fmap in Hin as (node & -> & Hnode).
      apply list_elem_of_filter in Hnode as [Hactive Hnode].
      exists node. split; [exact Hnode|]. split; [exact Hactive|].
      split; [exact Hp|]. exists b. split; [exact Hb|].
      rewrite Hp, Hbk, Hdraft. reflexivity. }
  split; [exact Hall|].
  intros Hnone.
  assert (Hfail : Forall (fun r => success (consensus_result r) = false)
                         (report_rounds rep)).
  { eapply Forall_impl; [exact Hall|]. intros r [(node & Hin & Hact & _)|(_ & Hs & _)];
      [|exact Hs].
    exfalso. unfold active_addresses in Hnone.
    apply (f_equal (@length string)) in Hnone. rewrite length_map in Hnone.
    assert (Hmem : node ∈ filter (fun n => is_active n = true) (sim_nodes self))
      by (apply list_elem_of_filter; split; assumption).
    destruct (filter _ (sim_nodes self)); [|discriminate].
    apply elem_of_nil in Hmem. exact Hmem. }
  destruct (run_loop_spec PoW_protocol pow_consistent _ _ _ _ _ _ _ _ _ _ _ _ Hloop)
    as (new & Hdone & _ & Hch & _).
  cbn [app] in Hdone. subst new.
  assert (Hzero : successes (report_rounds rep) = 0
                  /\ omap appended (report_rounds rep) = []).
  { clear -Hfail. induction Hfail as [|r l Hr _ [IH1 IH2]]; [split; reflexivity|].
    rewrite successes_cons, omap_cons. unfold appended at 1. rewrite Hr.
    split; [lia|exact IH2]. }
  destruct Hzero as [Hz Hom].
  split.
  - rewrite Hrep. cbn [successful_rounds]. exact Hz.
  - rewrite Hch, Hom, app_nil_r. reflexivity.
Qed.

(** ** The scenarios *)

Lemma has_dash_uint (d : Decimal.uint) :
  has_dash (NilEmpty.string_of_uint d) = false.
Proof. induction d; cbn [NilEmpty.string_of_uint has_dash]; auto. Qed.

Lemma has_dash_str_int (n : Z) : 0 <= n -> has_dash (str_int n) = false.
Proof.
  intros Hn. unfold str_int, NilZero.string_of_int.
  destruct n as [|p|p]; cbn [Z.to_int]; [reflexivity| |lia].
  unfold NilZero.string_of_uint.
  pose proof (has_dash_uint (Pos.to_uint p)) as Hd.
  destruct (Pos.to_uint p); [reflexivity|exact Hd..].
Qed.

Lemma dash_split (a : string) :
  forall (b s s' : string),
    has_dash a = false -> has_dash b = false ->
    a +:+ "-" +:+ s = b +:+ "-" +:+ s' -> a = b.
Proof.
  induction a as [|c a IH]; intros b s s' Ha Hb Heq.
  - destruct b as [|c' b]; [reflexivity|].
    change (String "-" s = String c' (b +:+ "-" +:+ s')) in Heq.
    injection Heq as <- _. discriminate.
  - cbn [has_dash] in Ha. apply orb_false_iff in Ha as [Hc Ha].
    destruct b as [|c' b].
    + change (String c (a +:+ "-" +:+ s) = String "-" s') in Heq.
      injection Heq as -> _. discriminate.
    + change (String c (a +:+ "-" +:+ s) = String c' (b +:+ "-" +:+ s')) in Heq.
      injection Heq as <- Heq.
      cbn [has_dash] in Hb. apply orb_false_iff in Hb as [_ Hb].
      f_equal. exact (IH b s s' Ha Hb Heq).
Qed.

Lemma numbered_names_separate (prefix : string) :
  names_separate (fun i => prefix +:+ str_int i).
Proof.
  intros i j s s' Hi Hj Heq. cbv beta in Heq.
  rewrite !str_app_assoc in Heq. apply str_app_inv_head in Heq.
  apply str_int_inj.
  exact (dash_split _ _ _ _ (has_dash_str_int i Hi) (has_dash_str_int j Hj) Heq).
Qed.

Lemma create_nodes_from_addresses (name_of : Z -> string) (b : float)
    (stake_of : Z -> float) :
  forall (count : nat) (first : Z) (w : World),
    map node_address (fst (create_nodes_from name_of b stake_of first count w))
    = map sha256_hex (created_texts name_of first count w).
Proof.
  induction count as [|count IH]; intros first w;
    cbn [create_nodes_from created_texts]; [reflexivity|].
  unfold NetworkNode_create. destruct (time_time w) as [t w1].
  specialize (IH (first + 1) w1).
  destruct (create_nodes_from name_of b stake_of (first + 1) count w1)
    as [rest w2].
  cbn [fst map node_address] in *. rewrite IH. reflexivity.
Qed.

(** The hashed texts of the nodes are pairwise different, whatever the
    clock returns. *)
Lemma created_texts_distinct (name_of : Z -> string) :
  names_separate name_of ->
  forall (count : nat) (first : Z) (w : World),
    0 <= first ->
    NoDup (created_texts name_of first count w)
    /\ forall x, x ∈ created_texts name_of first count w ->
         exists i t, first <= i /\ x = name_of i +:+ "-" +:+ str_float t.
Proof.
  intros Hnames. induction count as [|count IH]; intros first w Hfirst;
    cbn [created_texts].
  - split; [constructor|]. intros x Hx. apply elem_of_nil in Hx. contradiction.
  - destruct (time_time w) as [t w1].
    destruct (IH (first + 1) w1 ltac:(lia)) as (Hnd & Hall).
    split.
    + apply NoDup_cons. split; [|exact Hnd].
      intros Hin. destruct (Hall _ Hin) as (i & t' & Hi & Heq).
      apply Hnames in Heq; lia.
    + intros x Hx. apply elem_of_cons in Hx as [->|Hx].
      * exists first, t. split; [lia|reflexivity].
      * destruct (Hall x Hx) as (i & t' & Hi & Heq).
        exists i, t'. split; [lia|exact Heq].
Qed.

Lemma hashes_distinct (texts : list string) :
  no_collision_among texts -> NoDup texts -> NoDup (map sha256_hex texts).
Proof.
  intros Hcf Hnd. induction Hnd as [|x l Hx Hnd IH]; cbn [map]; [constructor|].
  apply NoDup_cons. split.
  - intros Hin. apply list_elem_of_fmap in Hin as (y & Heq & Hy).
    assert (x = y) as ->; [|contradiction].
    apply Hcf; [apply list_elem_of_here|apply list_elem_of_further; exact Hy|
                exact Heq].
  - apply IH. intros a c Ha Hc. apply Hcf; apply list_elem_of_further; assumption.
Qed.

Lemma create_nodes_from_length (name_of : Z -> string) (b : float)
    (stake_of : Z -> float) :
  forall (count : nat) (first : Z) (w : World),
    length (fst (create_nodes_from name_of b stake_of first count w)) = count.
Proof.
  induction count as [|count IH]; intros first w; cbn [create_nodes_from];
    [reflexivity|].
  unfold NetworkNode_create. destruct (time_time w) as [t w1].
  specialize (IH (first + 1) w1).
  destruct (create_nodes_from name_of b stake_of (first + 1) count w1)
    as [rest w2].
  cbn [fst length] in *. lia.
Qed.

Lemma fold_dict_set_nonempty {A V} (key : A -> string) (value : A -> V)
    (l : list A) :
  forall d, d <> [] ->
    fold_left (fun d x => dict_set d (key x) (value x)) l d <> [].
Proof.
  induction l as [|x l IH]; intros d Hd; cbn [fold_left]; [exact Hd|].
  apply IH. destruct d as [|[k v] d]; [congruence|].
  cbn [dict_set]. destruct (String.eqb k (key x)); discriminate.
Qed.

Lemma dict_comprehension_nonempty {A V} (key : A -> string) (value : A -> V)
    (l : list A) :
  l <> [] -> dict_comprehension key value l <> [].
Proof.
  unfold dict_comprehension. destruct l as [|x l]; [congruence|]. intros _.
  cbn [fold_left]. apply fold_dict_set_nonempty. discriminate.
Qed.

Lemma elect_delegates_length (self : DelegatedProofOfStake) (w : World) :
  0 <= num_delegates self ->
  length (active_delegates (fst (elect_delegates self w)))
  = Nat.min (Z.to_nat (num_delegates self)) (length (candidates self)).
Proof.
  intros Hk. unfold elect_delegates.
  destruct (slice_to_take (sorted_by_votes (dict_values (candidates self)))
              (num_delegates self)) as (m & Hm & Hmk).
  rewrite Hm.
  pose proof (random_shuffle_Permutation
                (map d_address
                   (take m (sorted_by_votes (dict_values (candidates self))))) w)
    as Hperm.
  destruct (random_shuffle _ w) as [shuffled w1].
  cbn [fst active_delegates] in *.
  rewrite Hperm, length_map, length_take, sorted_by_votes_Permutation, (Hmk Hk).
  unfold dict_values. rewrite length_map. reflexivity.
Qed.

(** X25.  [run_dpos_scenario] with at least one candidate and at least
    one delegate seat, when every drawn amount passes the check of
    [Transaction]: it returns a report in which every round succeeded,
    none failed, and the final height is one more than the number of
    rounds; the report carries the configuration with three transactions
    per round and the seed it was given. *)
Theorem dpos_scenario_succeeds (fuel : nat) (num_candidates delegates_arg
    rounds_arg : Z) (seed : option Z) (w : World) :
  amounts_positive ->
  1 <= num_candidates ->
  1 <= delegates_arg ->
  exists rep w',
    run_dpos_scenario fuel num_candidates delegates_arg rounds_arg seed w
    = (Ret rep, w')
    /\ successful_rounds rep = Z.of_nat (Z.to_nat rounds_arg)
    /\ failed_rounds rep = 0
    /\ final_chain_height rep = 1 + Z.of_nat (Z.to_nat rounds_arg)
    /\ config rep = mkConfig rounds_arg 3 seed.
Proof.
  intros Hpos Hnc Hnd. unfold run_dpos_scenario, create_nodes.
  pose proof (create_nodes_from_length
                (fun i => "candidate-" +:+ str_int i) (float_of_int 100)
                (fun _ => float_of_int 0) (Z.to_nat num_candidates) 0 w) as Hlen.
  destruct (create_nodes_from _ _ _ 0 (Z.to_nat num_candidates) w)
    as [nodes w1].
  cbn [fst] in Hlen.
  set (votes_dict := dict_comprehension _ _ (enumerate_from 0 nodes)).
  assert (Hvotes : votes_dict <> []).
  { apply dict_comprehension_nonempty.
    destruct nodes; [cbn [length] in Hlen; lia|discriminate]. }
  unfold DelegatedProofOfStake_init.
  set (table := dict_comprehension fst _ votes_dict).
  assert (Htable : table <> [])
    by (apply dict_comprehension_nonempty; exact Hvotes).
  pose proof (elect_delegates_length (mkDPoS table delegates_arg [] 0) w1
                ltac:(cbn; lia)) as Hactive.
  destruct (elect_delegates (mkDPoS table delegates_arg [] 0) w1)
    as [protocol w2].
  cbn [fst num_delegates candidates] in Hactive.
  assert (Hne : active_delegates protocol <> []).
  { intros Hnil. rewrite Hnil in Hactive. cbn [length] in Hactive.
    destruct table; [congruence|]. cbn [length] in Hactive. lia. }
  destruct (run_succeeds DPoS_protocol (fun c => active_delegates c <> [])
              Hpos dpos_round_succeeds fuel
              (Some (default_config rounds_arg seed))
              (NetworkSimulator_init (float_of_int 0) protocol nodes None) w2
              (genesis (float_of_int 0)) dpos_consistent Hne eq_refl
              ltac:(discriminate))
    as (rep & self' & w' & Hrun & Hs & Hf & Hfinal & _ & _).
  rewrite Hrun. exists rep, w'. split; [reflexivity|].
  split; [exact Hs|]. split; [exact Hf|]. split; [exact Hfinal|].
  destruct (run_returned DPoS_protocol _ _ _ _ _ _ _ Hrun) as (w0 & total & _ & Hrep).
  rewrite Hrep. reflexivity.
Qed.

(** X26.  [run_pbft_scenario].  The addresses of its [n] nodes are the
    digests of [n] texts that are pairwise different.  With a Byzantine
    count above [(n - 1) // 3] it raises the [ValueError] of the PBFT
    constructor.  With a count from 0 to that bound, when SHA-256 does not
    collide on these [n] texts and every drawn amount passes the check of
    [Transaction], it returns a report in which every round succeeded,
    none failed, and the final height is one more than the number of
    rounds. *)
Theorem pbft_scenario_succeeds (fuel : nat) (num_nodes byzantine_nodes
    rounds_arg : Z) (seed : option Z) (w : World) :
  let n := Z.of_nat (Z.to_nat num_nodes) in
  let texts :=
    created_texts (fun i => "pbft-node-" +:+ str_int i) 0 (Z.to_nat num_nodes) w in
  map node_address
      (fst (create_nodes (fun i => "pbft-node-" +:+ str_int i)
              (float_of_int 100) (fun _ => float_of_int 0) num_nodes w))
  = map sha256_hex texts
  /\ NoDup texts
  /\ ((n - 1) / 3 < byzantine_nodes ->
      fst (run_pbft_scenario fuel num_nodes byzantine_nodes rounds_arg seed w)
      = Raise (ValueError (tolerance_message n byzantine_nodes)))
  /\ (0 <= byzantine_nodes <= (n - 1) / 3 ->
      no_collision_among texts ->
      amounts_positive ->
      exists rep w',
        run_pbft_scenario fuel num_nodes byzantine_nodes rounds_arg seed w
        = (Ret rep, w')
        /\ successful_rounds rep = Z.of_nat (Z.to_nat rounds_arg)
        /\ failed_rounds rep = 0
        /\ final_chain_height rep = 1 + Z.of_nat (Z.to_nat rounds_arg)).
Proof.
  intros n texts.
  destruct (created_texts_distinct _ (numbered_names_separate "pbft-node-")
              (Z.to_nat num_nodes) 0 w ltac:(lia)) as [Htexts _].
  fold texts in Htexts.
  split; [apply create_nodes_from_addresses|]. split; [exact Htexts|].
  unfold run_pbft_scenario, create_nodes.
  pose proof (create_nodes_from_length
                (fun i => "pbft-node-" +:+ str_int i) (float_of_int 100)
                (fun _ => float_of_int 0) (Z.to_nat num_nodes) 0 w) as Hlen.
  pose proof (create_nodes_from_addresses
                (fun i => "pbft-node-" +:+ str_int i) (float_of_int 100)
                (fun _ => float_of_int 0) (Z.to_nat num_nodes) 0 w) as Haddr.
  fold texts in Haddr.
  destruct (create_nodes_from _ _ _ 0 (Z.to_nat num_nodes) w) as [nodes w1].
  cbn [fst] in Hlen, Haddr.
  assert (Hn : Z.of_nat (length (map node_address nodes)) = n)
    by (rewrite length_map, Hlen; reflexivity).
  destruct (PracticalBFT_init_cases (map node_address nodes) byzantine_nodes w1)
    as [(Hhigh & Hinit)|[(Hneg & Hle & Hinit)|(Hrange & picked & w2 & _ & Hinit)]];
    rewrite ?Hn in *.
  - rewrite Hinit. split; [intros _; reflexivity|lia].
  - split; [lia|lia].
  - split; [lia|]. intros _ Hcf Hpos.
    assert (Hdistinct : NoDup (map node_address nodes))
      by (rewrite Haddr; apply hashes_distinct; assumption).
    destruct (PracticalBFT_init_live _ _ _ _ _ Hdistinct Hinit) as (Hlive & _).
    rewrite Hinit.
    set (protocol := mkPBFT _ _ _ _) in *.
    destruct (run_succeeds PBFT_protocol pbft_live Hpos pbft_round_succeeds fuel
                (Some (default_config rounds_arg seed))
                (NetworkSimulator_init (float_of_int 0) protocol nodes None) w2
                (genesis (float_of_int 0)) pbft_consistent Hlive eq_refl
                ltac:(discriminate))
      as (rep & self' & w' & Hrun & Hs & Hf & Hfinal & _ & _).
    rewrite Hrun. exists rep, w'. split; [reflexivity|].
    split; [exact Hs|]. split; [exact Hf|exact Hfinal].
Qed.

End Ledger.

(** * The model at work on the small runtime *)

Local Abbreviation toy_genesis := (genesis toy_str plain_hex 0).
Local Abbreviation toy_chain := (fresh_chain toy_str plain_hex 0).
Local Abbreviation toy_add_block := (add_block toy_str plain_hex).
Local Abbreviation toy_is_valid := (is_valid toy_str plain_hex).
Local Abbreviation toy_hash := (compute_hash toy_str plain_hex).

Lemma add_block_admission_gate_witness :
  latest_block toy_chain = Ret toy_genesis
  /\ (~ turned_away toy_str plain_hex toy_genesis
         (second_block toy_str plain_hex 0 5 [] (Some "v"))
      /\ fst (toy_add_block toy_chain (second_block toy_str plain_hex 0 5 [] (Some "v")))
         = Ret true
      /\ height (snd (toy_add_block toy_chain
                        (second_block toy_str plain_hex 0 5 [] (Some "v"))))
         = height toy_chain + 1)
  /\ (turned_away toy_str plain_hex toy_genesis (genesis_draft 0)
      /\ fst (toy_add_block toy_chain (genesis_draft 0)) = Ret false
      /\ height (snd (toy_add_block toy_chain (genesis_draft 0)))
         = height toy_chain).
Proof.
  assert (HL : latest_block toy_chain = Ret toy_genesis) by reflexivity.
  split; [exact HL|]. split.
  - assert (Hok : ~ turned_away toy_str plain_hex toy_genesis
                     (second_block toy_str plain_hex 0 5 [] (Some "v"))).
    { intros [H | [H | H]]; vm_compute in H; solve [discriminate | congruence]. }
    split; [exact Hok|].
    destruct (add_block_admission_gate toy_str plain_hex toy_chain toy_genesis
                (second_block toy_str plain_hex 0 5 [] (Some "v")) HL)
      as [_ Hacc].
    destruct (Hacc Hok) as (H1 & _ & H3). split; assumption.
  - assert (Hno : turned_away toy_str plain_hex toy_genesis (genesis_draft 0)).
    { right. left. reflexivity. }
    split; [exact Hno|].
    destruct (add_block_admission_gate toy_str plain_hex toy_chain toy_genesis
                (genesis_draft 0) HL) as [Hrej _].
    destruct (Hrej Hno) as (H1 & _ & H3). split; assumption.
Defined.

Lemma add_block_ignores_index_witness :
  latest_block toy_chain = Ret toy_genesis
  /\ hash toy_genesis = Some (toy_hash (genesis_draft 0))
  /\ height toy_chain = 1
  /\ index (hashed toy_str plain_hex
              (mkBlock 7 5 [] (toy_hash (genesis_draft 0)) 0 None None)) = 7
  /\ fst (toy_add_block toy_chain
            (hashed toy_str plain_hex
               (mkBlock 7 5 [] (toy_hash (genesis_draft 0)) 0 None None)))
     = Ret true.
Proof.
  assert (HL : latest_block toy_chain = Ret toy_genesis) by reflexivity.
  assert (Hh : hash toy_genesis = Some (toy_hash (genesis_draft 0)))
    by reflexivity.
  split; [exact HL|]. split; [exact Hh|]. split; [reflexivity|].
  destruct (add_block_ignores_index toy_str plain_hex toy_chain toy_genesis
              (toy_hash (genesis_draft 0)) 7 5 [] 0 None HL Hh) as [Hi Ha].
  split; [exact Hi|]. unfold hashed. rewrite Ha. reflexivity.
Defined.

Lemma mine_difficulty_bound_witness :
  0 <= 1
  /\ mine toy_str checksum_hex 40 1 (genesis_draft 0)
     = (Ret "08", set_hash (set_nonce (genesis_draft 0) 2) (Some "08"))
  /\ 1 <= Z.of_nat (leading_zeros "08")
  /\ hash (set_hash (set_nonce (genesis_draft 0) 2) (Some "08")) = Some "08"
  /\ compute_hash toy_str checksum_hex
       (set_hash (set_nonce (genesis_draft 0) 2) (Some "08")) = "08"
  /\ nonce (snd (mine toy_str checksum_hex 1 0 (genesis_draft 0))) = 0.
Proof.
  assert (Hd : 0 <= 1) by lia.
  assert (Hm : mine toy_str checksum_hex 40 1 (genesis_draft 0)
               = (Ret "08", set_hash (set_nonce (genesis_draft 0) 2) (Some "08")))
    by (vm_compute; reflexivity).
  split; [exact Hd|]. split; [exact Hm|].
  destruct (mine_difficulty_bound toy_str checksum_hex) as [Hsound Hzero].
  destruct (Hsound 40%nat 1 (genesis_draft 0) _ "08" Hd Hm) as (H1 & H2 & H3).
  split; [exact H1|]. split; [exact H2|]. split; [exact H3|].
  exact (proj2 (Hzero 0%nat (genesis_draft 0))).
Defined.

Lemma validity_monotonic_and_tamper_evident_witness :
  no_collision_among plain_hex
    [block_data toy_str plain_hex
       (second_block toy_str plain_hex 0 5 [transfer 10 3] (Some "v"));
     block_data toy_str plain_hex
       (set_nonce (second_block toy_str plain_hex 0 5 [transfer 10 3] (Some "v")) 1)]
  /\ toy_is_valid toy_chain = true
  /\ toy_add_block toy_chain (second_block toy_str plain_hex 0 5 [transfer 10 3] (Some "v"))
     = (Ret true, two_block_chain toy_str plain_hex 0 5 [transfer 10 3] (Some "v"))
  /\ toy_is_valid (two_block_chain toy_str plain_hex 0 5 [transfer 10 3] (Some "v"))
     = true
  /\ tampered toy_str plain_hex
       (second_block toy_str plain_hex 0 5 [transfer 10 3] (Some "v"))
       (set_nonce (second_block toy_str plain_hex 0 5 [transfer 10 3] (Some "v")) 1)
  /\ toy_is_valid
       (set_chain (two_block_chain toy_str plain_hex 0 5 [transfer 10 3] (Some "v"))
          [toy_genesis;
           set_nonce (second_block toy_str plain_hex 0 5 [transfer 10 3] (Some "v")) 1])
     = false
  /\ tx_key toy_str plain_hex (transfer 99 3)
     = tx_key toy_str plain_hex (transfer 10 3)
  /\ toy_is_valid
       (set_chain (two_block_chain toy_str plain_hex 0 5 [transfer 10 3] (Some "v"))
          [toy_genesis;
           set_transactions
             (second_block toy_str plain_hex 0 5 [transfer 10 3] (Some "v"))
             [transfer 99 3]])
     = toy_is_valid
         (two_block_chain toy_str plain_hex 0 5 [transfer 10 3] (Some "v")).
Proof.
  assert (Hcf : no_collision_among plain_hex
                  [block_data toy_str plain_hex
                     (second_block toy_str plain_hex 0 5 [transfer 10 3] (Some "v"));
                   block_data toy_str plain_hex
                     (set_nonce
                        (second_block toy_str plain_hex 0 5 [transfer 10 3]
                           (Some "v")) 1)])
    by (intros x y _ _ H; exact H).
  assert (Hv : toy_is_valid toy_chain = true) by reflexivity.
  assert (Ha : toy_add_block toy_chain
                 (second_block toy_str plain_hex 0 5 [transfer 10 3] (Some "v"))
               = (Ret true,
                  two_block_chain toy_str plain_hex 0 5 [transfer 10 3] (Some "v")))
    by (vm_compute; reflexivity).
  assert (Ht : tampered toy_str plain_hex
                 (second_block toy_str plain_hex 0 5 [transfer 10 3] (Some "v"))
                 (set_nonce
                    (second_block toy_str plain_hex 0 5 [transfer 10 3] (Some "v")) 1)).
  { apply tamper_nonce. vm_compute. discriminate. }
  assert (Hk : tx_key toy_str plain_hex (transfer 99 3)
               = tx_key toy_str plain_hex (transfer 10 3)) by reflexivity.
  destruct (validity_monotonic_and_tamper_evident toy_str plain_hex)
    as (Hmono & Htamper & Hsame).
  pose proof (Hmono _ _ _ Hv Ha) as Hv2.
  split; [exact Hcf|]. split; [exact Hv|]. split; [exact Ha|].
  split; [exact Hv2|]. split; [exact Ht|].
  split; [exact (Htamper
           (two_block_chain toy_str plain_hex 0 5 [transfer 10 3] (Some "v"))
           toy_genesis _ _ [] [] eq_refl Hv2 Ht Hcf)|].
  split; [exact Hk|].
  exact (Hsame
           (two_block_chain toy_str plain_hex 0 5 [transfer 10 3] (Some "v"))
           (second_block toy_str plain_hex 0 5 [transfer 10 3] (Some "v"))
           [toy_genesis] [] [] [] (transfer 10 3) (transfer 99 3)
           eq_refl eq_refl Hk).
Defined.

(** Against C3 as stated: a chain built by appends whose second block
    holds one transaction; changing the amount of that transaction after
    the append (its id stays as it was computed at creation) leaves
    [is_valid] true. *)
Lemma mutated_amount_goes_unnoticed :
  built toy_str plain_hex
    (two_block_chain toy_str plain_hex 0 5 [transfer 10 3] (Some "v"))
  /\ chain (two_block_chain toy_str plain_hex 0 5 [transfer 10 3] (Some "v"))
     = [toy_genesis; second_block toy_str plain_hex 0 5 [transfer 10 3] (Some "v")]
  /\ transfer 99 3 <> transfer 10 3
  /\ toy_is_valid
       (set_chain (two_block_chain toy_str plain_hex 0 5 [transfer 10 3] (Some "v"))
          [toy_genesis;
           set_transactions
             (second_block toy_str plain_hex 0 5 [transfer 10 3] (Some "v"))
             [transfer 99 3]])
     = true.
Proof.
  split; [|split; [|split]].
  - apply (built_add toy_str plain_hex toy_chain _
             (second_block toy_str plain_hex 0 5 [transfer 10 3] (Some "v"))
             (built_genesis toy_str plain_hex 0 [] 2)).
    vm_compute. reflexivity.
  - vm_compute. reflexivity.
  - discriminate.
  - vm_compute. reflexivity.
Qed.

Local Abbreviation toy_pbft_init := (PracticalBFT_init toy_rand).
Local Abbreviation toy_pbft :=
  (value_of (fst (PracticalBFT_init toy_rand seven_nodes 2 3%nat))
            (mkPBFT [] 0 0 [])).
Local Abbreviation PBFT_toy := (PBFT_protocol toy_str plain_hex toy_time).
Local Abbreviation DPoS_toy := (DPoS_protocol toy_str toy_fmt plain_hex toy_time).
Local Abbreviation PoS_toy :=
  (PoS_protocol toy_str toy_fmt plain_hex toy_time toy_rand Z.mul Z.add 1
     (fun z : Z => z) toy_sum toy_is_zero toy_choices).
Local Abbreviation PoW_toy :=
  (PoW_protocol toy_str toy_fmt checksum_hex toy_time toy_rand Z.sub).

Lemma pbft_tolerance_bound_witness :
  length seven_nodes = 7%nat
  /\ fst (toy_pbft_init seven_nodes 3 3%nat)
     = Raise (ValueError (tolerance_message 7 3))
  /\ returns (fst (toy_pbft_init seven_nodes 2 3%nat))
  /\ fst (toy_pbft_init seven_nodes 2 3%nat) = Ret toy_pbft
  /\ quorum toy_pbft = 5
  /\ (0 <= 5
      /\ ~ returns (fst (toy_pbft_init ["a"; "b"; "c"; "d"] 5 0%nat))).
Proof.
  assert (Hlen : length seven_nodes = 7%nat) by reflexivity.
  assert (Hinit : fst (toy_pbft_init seven_nodes 2 3%nat) = Ret toy_pbft)
    by (vm_compute; reflexivity).
  destruct (pbft_tolerance_bound toy_rand) as (Hiff & Hseven & Hquorum).
  destruct (Hseven seven_nodes 3%nat Hlen) as [H3 H2].
  destruct (Hquorum seven_nodes 2 3%nat toy_pbft Hinit) as (_ & Hq & _).
  destruct (Hiff ["a"; "b"; "c"; "d"] 5 0%nat) as [_ Hfail].
  assert (H05 : 0 <= 5) by lia.
  split; [exact Hlen|]. split; [exact H3|]. split; [exact H2|].
  split; [exact Hinit|]. split; [exact (Hq eq_refl)|].
  split; [exact H05|]. apply (Hfail H05). vm_compute. reflexivity.
Defined.

Lemma pbft_liveness_n7_f2_witness :
  length seven_nodes = 7%nat
  /\ NoDup seven_nodes
  /\ toy_pbft_init seven_nodes 2 3%nat = (Ret toy_pbft, 5%nat)
  /\ latest_block toy_chain = Ret toy_genesis
  /\ hash toy_genesis <> None
  /\ quorum toy_pbft = 5
  /\ length (honest_addresses toy_pbft) = 5%nat
  /\ exists res self' bc' w' b,
       run_round (ConsensusProtocol := PBFT_toy) 0 [transfer 10 3] []
         toy_pbft toy_chain 9%nat
       = (Ret res, self', bc', w')
       /\ success res = true
       /\ rounds res = 3
       /\ block res = Some b
       /\ chain bc' = chain toy_chain ++ [b]
       /\ committed_count self' = 5.
Proof.
  assert (Hlen : length seven_nodes = 7%nat) by reflexivity.
  assert (Hnd : NoDup seven_nodes)
    by (apply (bool_decide_unpack _); vm_compute; exact I).
  assert (Hinit : toy_pbft_init seven_nodes 2 3%nat = (Ret toy_pbft, 5%nat))
    by (vm_compute; reflexivity).
  assert (HL : latest_block toy_chain = Ret toy_genesis) by reflexivity.
  assert (Hh : hash toy_genesis <> None) by discriminate.
  split; [exact Hlen|]. split; [exact Hnd|]. split; [exact Hinit|].
  split; [exact HL|]. split; [exact Hh|].
  exact (pbft_liveness_n7_f2 toy_str plain_hex toy_time toy_rand seven_nodes
           3%nat 5%nat toy_pbft toy_pbft 0%nat [transfer 10 3] [] toy_chain
           toy_genesis 9%nat Hlen Hnd Hinit (reach_start toy_pbft) HL Hh).
Defined.

Local Abbreviation toy_dpos :=
  (fst (DelegatedProofOfStake_init toy_rand Z.ltb
          [("a", 5); ("b", 9); ("c", 7); ("d", 1)] 3 0%nat)).
Local Abbreviation toy_dpos_empty :=
  (fst (DelegatedProofOfStake_init (float := Z) toy_rand Z.ltb [] 3 0%nat)).
Local Abbreviation three_rounds :=
  ([([transfer 10 3], []); ([], ["x"]); ([transfer 4 8], ["y"; "z"])]
   : list (list Transaction * list string)).

Lemma dpos_round_robin_witness :
  active_delegates toy_dpos = ["a"; "c"; "b"]
  /\ active_delegates toy_dpos <> []
  /\ latest_block toy_chain = Ret toy_genesis
  /\ length three_rounds = length (active_delegates toy_dpos)
  /\ NoDup (active_delegates toy_dpos)
  /\ (exists d res self' bc' w',
        run_round (ConsensusProtocol := DPoS_toy) 0 [] [] toy_dpos toy_chain 0%nat
        = (Ret res, self', bc', w')
        /\ active_delegates toy_dpos !! Z.to_nat (round_index toy_dpos mod 3)
           = Some d
        /\ proposer res = Some d
        /\ success res = has_hash toy_genesis
        /\ round_index self' = round_index toy_dpos + 1
        /\ active_delegates self' = active_delegates toy_dpos)
  /\ (exists rs self' bc' w',
        run_rounds (H := DPoS_toy) 0 three_rounds toy_dpos toy_chain 0%nat
        = (rs, self', bc', w')
        /\ map proposer rs
           = map Some (rotate (Z.to_nat (round_index toy_dpos mod 3))
                              (active_delegates toy_dpos))
        /\ NoDup (map proposer rs)
        /\ round_index self' = round_index toy_dpos + 3)
  /\ active_delegates toy_dpos_empty = []
  /\ (exists res,
        run_round (ConsensusProtocol := DPoS_toy) 0 [] [] toy_dpos_empty
          toy_chain 0%nat
        = (Ret res, toy_dpos_empty, toy_chain, 0%nat)
        /\ success res = false
        /\ block res = None).
Proof.
  assert (Hact : active_delegates toy_dpos = ["a"; "c"; "b"])
    by (vm_compute; reflexivity).
  assert (Hne : active_delegates toy_dpos <> [])
    by (rewrite Hact; discriminate).
  assert (HL : latest_block toy_chain = Ret toy_genesis) by reflexivity.
  assert (Hlen : length three_rounds = length (active_delegates toy_dpos))
    by (rewrite Hact; reflexivity).
  assert (Hempty : active_delegates toy_dpos_empty = []) by reflexivity.
  destruct (dpos_round_robin toy_str toy_fmt plain_hex toy_time toy_rand Z.ltb)
    as (Hone & Hmany & Hdistinct & Hnone).
  assert (Hnd : NoDup (active_delegates toy_dpos))
    by exact (Hdistinct _ _ _ _ (reach_start toy_dpos)).
  split; [exact Hact|]. split; [exact Hne|]. split; [exact HL|].
  split; [exact Hlen|]. split; [exact Hnd|]. split.
  - pose proof (Hone 0%nat [] [] toy_dpos toy_chain toy_genesis 0%nat Hne HL)
      as H.
    exact H.
  - destruct (Hmany 0%nat three_rounds toy_dpos toy_chain toy_genesis 0%nat
                Hne HL Hlen) as (rs & self' & bc' & w' & H1 & H2 & _ & H4 & H5).
    split; [|split; [exact Hempty|]].
    + exists rs, self', bc', w'.
      split; [exact H1|]. split; [exact H2|]. split; [exact (H4 Hnd)|exact H5].
    + exact (Hnone 0%nat [] [] toy_dpos_empty toy_chain 0%nat Hempty).
Defined.

(** Against C7 as stated: an instance with no candidate has no active
    delegate; its round fails and leaves [round_index] at 0. *)
Lemma dpos_without_delegates_keeps_round_index :
  active_delegates toy_dpos_empty = []
  /\ round_index toy_dpos_empty = 0
  /\ exists res self',
       run_round (ConsensusProtocol := DPoS_toy) 0 [] [] toy_dpos_empty
         toy_chain 0%nat
       = (Ret res, self', toy_chain, 0%nat)
       /\ success res = false
       /\ round_index self' = 0
       /\ round_index self' <> round_index toy_dpos_empty + 1.
Proof.
  split; [reflexivity|]. split; [reflexivity|].
  eexists _, _. split; [vm_compute; reflexivity|].
  split; [reflexivity|]. split; [reflexivity|]. discriminate.
Qed.

Local Abbreviation toy_pos := (ProofOfStake_init [("a", 5); ("b", 1)] 1).
Local Abbreviation toy_pow_chain := (fresh_chain toy_str checksum_hex 0).

Lemma run_round_side_effect_consistent_witness :
  chain toy_chain <> []
  /\ chain toy_pow_chain <> []
  /\ pow_search_ends toy_str checksum_hex toy_time toy_rand 50 (mkPoW 1) []
       ["m1"; "m2"] toy_pow_chain 0%nat
  /\ reachable (H := PoS_toy) toy_pos toy_pos
  /\ pos_draw_accepted Z.mul Z.add 1 (fun z : Z => z) toy_sum toy_is_zero
       toy_choices toy_pos 0%nat
  /\ toy_pbft_init seven_nodes 2 3%nat = (Ret toy_pbft, 5%nat)
  /\ reachable (H := PBFT_toy) toy_pbft toy_pbft
  /\ returns (outcome_of (run_round (ConsensusProtocol := PoW_toy) 50 []
                            ["m1"; "m2"] (mkPoW 1) toy_pow_chain 0%nat))
  /\ returns (outcome_of (run_round (ConsensusProtocol := PoS_toy) 0 [] []
                            toy_pos toy_chain 0%nat))
  /\ returns (outcome_of (run_round (ConsensusProtocol := DPoS_toy) 0 [] []
                            toy_dpos toy_chain 0%nat))
  /\ returns (outcome_of (run_round (ConsensusProtocol := PBFT_toy) 0 [] []
                            toy_pbft toy_chain 0%nat)).
Proof.
  assert (Hc : chain toy_chain <> []) by discriminate.
  assert (Hcw : chain toy_pow_chain <> []) by discriminate.
  assert (Hsearch : pow_search_ends toy_str checksum_hex toy_time toy_rand 50
                      (mkPoW 1) [] ["m1"; "m2"] toy_pow_chain 0%nat).
  { right. eexists. split; [vm_compute; reflexivity|].
    eexists. vm_compute. reflexivity. }
  assert (Hwf : reachable (H := PoS_toy) toy_pos toy_pos)
    by apply reach_start.
  assert (Hdraw : pos_draw_accepted Z.mul Z.add 1 (fun z : Z => z) toy_sum
                    toy_is_zero toy_choices toy_pos 0%nat).
  { intros _. eexists. vm_compute. reflexivity. }
  assert (Hinit : toy_pbft_init seven_nodes 2 3%nat = (Ret toy_pbft, 5%nat))
    by (vm_compute; reflexivity).
  assert (Hn : reachable (H := PBFT_toy) toy_pbft toy_pbft)
    by apply reach_start.
  destruct (run_round_side_effect_consistent toy_str toy_fmt plain_hex
              toy_time toy_rand Z.sub Z.mul Z.add 1 (fun z : Z => z) toy_sum
              toy_is_zero toy_choices) as (_ & _ & Hpos & Hdpos & Hpbft).
  destruct (run_round_side_effect_consistent toy_str toy_fmt checksum_hex
              toy_time toy_rand Z.sub Z.mul Z.add 1 (fun z : Z => z) toy_sum
              toy_is_zero toy_choices) as (_ & Hpow & _).
  split; [exact Hc|]. split; [exact Hcw|]. split; [exact Hsearch|].
  split; [exact Hwf|]. split; [exact Hdraw|]. split; [exact Hinit|].
  split; [exact Hn|].
  split; [exact (Hpow _ _ _ _ _ _ Hcw Hsearch)|].
  split; [exact (Hpos 0%nat [] [] [("a", 5); ("b", 1)] 1 toy_pos toy_chain
                   0%nat Hwf Hc Hdraw)|].
  split; [exact (Hdpos _ _ _ toy_dpos _ _ Hc)|].
  exact (Hpbft 0%nat [] [] seven_nodes 2 3%nat 5%nat toy_pbft toy_pbft
           toy_chain 0%nat Hinit Hn Hc).
Defined.

(** Against C1 as stated: calls of [run_round] on a fresh chain that
    return neither of the two results.  The PoS instance built with
    stakes 1 and 1 and age factor -3 proposes in its first round; in its
    second the effective stakes are 1 and -2, their total is not 0, and
    the weighted draw refuses them: the call raises.  A PoW round with a
    difficulty above the length of the digest (3 for the two-character
    checksum, as 65 is for SHA-256) never returns, whatever the step
    budget.  Both leave the chain as it was. *)
Lemma run_round_raises_or_never_returns :
  (exists res pos1 bc1 w1 w2,
      run_round (ConsensusProtocol := PoS_toy) 0 [] []
        (ProofOfStake_init [("a", 1); ("b", 1)] (-3)) toy_chain 0%nat
      = (Ret res, pos1, bc1, w1)
      /\ success res = true
      /\ run_round (ConsensusProtocol := PoS_toy) 0 [] [] pos1 bc1 w1
         = (Raise (ValueError "Total of weights must be greater than zero"),
            pos1, bc1, w2))
  /\ (forall fuel : nat,
        exists w',
          run_round (ConsensusProtocol := PoW_toy) fuel [] ["m1"; "m2"]
            (mkPoW 3) toy_pow_chain 0%nat
          = (Running, mkPoW 3, toy_pow_chain, w')).
Proof.
  split.
  - eexists _, _, _, _, _. split; [vm_compute; reflexivity|].
    split; [reflexivity|]. vm_compute. reflexivity.
  - intros fuel.
    apply (pow_round_unfinished toy_str toy_fmt checksum_hex toy_time toy_rand
             Z.sub fuel [] ["m1"; "m2"] (mkPoW 3) toy_pow_chain
             (genesis toy_str checksum_hex 0));
      [discriminate|reflexivity|].
    intros b. cbn [difficulty].
    rewrite (mine_running toy_str checksum_hex fuel 3 b); [reflexivity|].
    intros k _. unfold qualifies, startswith.
    destruct (String.prefix _ _) eqn:Hp; [exfalso|reflexivity].
    apply prefix_length in Hp. unfold compute_hash, checksum_hex in Hp.
    change (str_mul "0" 3) with "000" in Hp.
    cbn [String.length] in Hp. lia.
Qed.

(** C8 on the code.  On a chain whose only block was never hashed, the
    rounds of PoS, DPoS and PoW draft a block, [add_block] turns it away,
    and the result comes back with [success = false], the rejected draft
    in its [block] field and a message that ends in "added.". *)
Lemma rejected_draft_is_reported :
  (exists res,
      outcome_of (run_round (ConsensusProtocol := PoS_toy) 0 [] [] toy_pos
                    (unhashed_chain toy_str plain_hex 0) 0%nat) = Ret res
      /\ success res = false
      /\ block res <> None
      /\ message res = "Validator a.. selected (stake=5, age=0). Block #1 added.")
  /\ (exists res,
      outcome_of (run_round (ConsensusProtocol := DPoS_toy) 0 [] [] toy_dpos
                    (unhashed_chain toy_str plain_hex 0) 0%nat) = Ret res
      /\ success res = false
      /\ block res <> None)
  /\ (exists res,
      outcome_of (run_round (ConsensusProtocol := PoW_toy) 50 [] ["m1"; "m2"]
                    (mkPoW 1) (unhashed_chain toy_str checksum_hex 0) 0%nat)
      = Ret res
      /\ success res = false
      /\ block res <> None).
Proof.
  split; [|split]; eexists; (split; [vm_compute; reflexivity|]);
    repeat split; discriminate.
Qed.

(** * The further properties at work on the small runtime *)

Local Abbreviation toy_create_next_block := (create_next_block toy_time).
Local Abbreviation default_result := (mkResult (float := Z) false None None 0 "").

Lemma pending_pool_round_trip_witness :
  latest_block toy_chain = Ret toy_genesis
  /\ exists b bc1 w1,
       toy_create_next_block
         (fold_left add_transaction [transfer 10 3; transfer 20 4] toy_chain)
         None (Some "v") 0%nat
       = (Ret b, bc1, w1)
       /\ transactions b = [transfer 10 3; transfer 20 4]
       /\ pending_transactions bc1 = []
       /\ chain bc1 = chain toy_chain.
Proof.
  assert (HL : latest_block toy_chain = Ret toy_genesis) by reflexivity.
  split; [exact HL|].
  destruct (pending_pool_round_trip toy_time toy_chain toy_genesis
              [transfer 10 3; transfer 20 4] (Some "v") None 0%nat HL)
    as (b & bc1 & w1 & H1 & H2 & H3 & H4 & _).
  exists b, bc1, w1. repeat split; assumption.
Defined.

Lemma drafted_block_is_admitted_witness :
  latest_block toy_chain = Ret toy_genesis
  /\ hash toy_genesis = Some (toy_hash (genesis_draft 0))
  /\ exists draft bc1 w1 bc2,
       toy_create_next_block toy_chain None (Some "v") 0%nat = (Ret draft, bc1, w1)
       /\ index draft = 1
       /\ toy_add_block bc1 draft = (Ret false, bc1)
       /\ toy_add_block bc1 (hashed toy_str plain_hex draft) = (Ret true, bc2)
       /\ latest_block bc2 = Ret (hashed toy_str plain_hex draft).
Proof.
  assert (HL : latest_block toy_chain = Ret toy_genesis) by reflexivity.
  assert (Hh : hash toy_genesis = Some (toy_hash (genesis_draft 0)))
    by reflexivity.
  split; [exact HL|]. split; [exact Hh|].
  destruct (drafted_block_is_admitted toy_str plain_hex toy_time toy_chain
              toy_genesis (toy_hash (genesis_draft 0)) None (Some "v") 0%nat
              HL Hh)
    as (draft & bc1 & w1 & bc2 & H1 & H2 & _ & _ & _ & H6 & H7 & _ & H9 & _).
  exists draft, bc1, w1, bc2. repeat split; assumption.
Defined.

Lemma empty_chain_raises_witness :
  chain (mkBlockchain (float := Z) [] [transfer 10 3] 2) = []
  /\ toy_add_block (mkBlockchain [] [transfer 10 3] 2) toy_genesis
     = (Raise (IndexError "list index out of range"),
        mkBlockchain [] [transfer 10 3] 2)
  /\ toy_create_next_block (mkBlockchain [] [transfer 10 3] 2) None None 0%nat
     = (Raise (IndexError "list index out of range"),
        mkBlockchain [] [transfer 10 3] 2, 0%nat)
  /\ toy_is_valid (mkBlockchain [] [transfer 10 3] 2) = true.
Proof.
  assert (Hnil : chain (mkBlockchain (float := Z) [] [transfer 10 3] 2) = [])
    by reflexivity.
  split; [exact Hnil|].
  destruct (empty_chain_raises toy_str plain_hex toy_time
              (mkBlockchain [] [transfer 10 3] 2) Hnil)
    as (_ & Hadd & Hnext & Hvalid & _).
  split; [exact (Hadd toy_genesis)|].
  split; [exact (Hnext None None 0%nat)|exact Hvalid].
Defined.

Lemma mine_never_ends_beyond_hash_length_witness :
  (forall data, String.length (checksum_hex data) = 2%nat)
  /\ Z.of_nat 2 < 3
  /\ mine toy_str checksum_hex 25 3 (genesis_draft 0)
     = (Running, bump 25 (genesis_draft 0)).
Proof.
  assert (Hlen : forall data, String.length (checksum_hex data) = 2%nat)
    by (intros data; reflexivity).
  assert (Hd : Z.of_nat 2 < 3) by lia.
  split; [exact Hlen|]. split; [exact Hd|].
  exact (mine_never_ends_beyond_hash_length toy_str checksum_hex 2 3 Hlen Hd
           25%nat (genesis_draft 0)).
Defined.

Local Abbreviation pos_round_toy :=
  (run_round (ConsensusProtocol := PoS_toy) 0 [transfer 10 3] [] toy_pos
     toy_chain 0%nat).
Local Abbreviation dpos_round_toy :=
  (run_round (ConsensusProtocol := DPoS_toy) 0 [transfer 10 3] [] toy_dpos
     toy_chain 0%nat).
Local Abbreviation pbft_round_toy :=
  (run_round (ConsensusProtocol := PBFT_toy) 0 [transfer 10 3] [] toy_pbft
     toy_chain 0%nat).
Local Abbreviation pow_round_toy :=
  (run_round (ConsensusProtocol := PoW_toy) 50 [] ["m1"; "m2"] (mkPoW 1)
     toy_pow_chain 0%nat).

Lemma pos_round_ages_witness :
  exists res self' bc' w',
    pos_round_toy = (Ret res, self', bc', w')
    /\ success res = true
    /\ map fst (validators self') = map fst (validators toy_pos)
    /\ exists p, proposer res = Some p
         /\ forall k, dict_get (validators self') k
                      = option_map (aged p k) (dict_get (validators toy_pos) k).
Proof.
  pose (R := pos_round_toy).
  assert (Hrun : pos_round_toy
                 = (Ret (value_of (outcome_of R) default_result),
                    snd (fst (fst R)), snd (fst R), snd R))
    by (vm_compute; reflexivity).
  assert (Hs : success (value_of (outcome_of R) default_result) = true)
    by (vm_compute; reflexivity).
  destruct (pos_round_ages toy_str toy_fmt plain_hex toy_time toy_rand Z.mul
              Z.add 1 (fun z : Z => z) toy_sum toy_is_zero toy_choices
              0%nat [transfer 10 3] [] toy_pos _ toy_chain _ 0%nat _ _ Hrun)
    as (_ & Hk & _ & Hsucc).
  destruct (Hsucc Hs) as (p & Hp & _ & Hall).
  eexists _, _, _, _. split; [exact Hrun|]. split; [exact Hs|].
  split; [exact Hk|]. exists p. split; assumption.
Defined.

Lemma dpos_round_bookkeeping_witness :
  exists res self' bc' w',
    dpos_round_toy = (Ret res, self', bc', w')
    /\ active_delegates self' = active_delegates toy_dpos
    /\ map fst (candidates self') = map fst (candidates toy_dpos)
    /\ forall k,
         dict_get (candidates self') k
         = if success res && opt_str_eqb (proposer res) (Some k)
           then option_map produced (dict_get (candidates toy_dpos) k)
           else dict_get (candidates toy_dpos) k.
Proof.
  pose (R := dpos_round_toy).
  assert (Hrun : dpos_round_toy
                 = (Ret (value_of (outcome_of R) default_result),
                    snd (fst (fst R)), snd (fst R), snd R))
    by (vm_compute; reflexivity).
  destruct (dpos_round_bookkeeping toy_str toy_fmt plain_hex toy_time
              0%nat [transfer 10 3] [] toy_dpos _ toy_chain _ 0%nat _ _ Hrun)
    as (_ & Ha & Hk & Hall).
  eexists _, _, _, _. split; [exact Hrun|]. repeat split; assumption.
Defined.

Lemma dpos_elects_top_votes_witness :
  votes_ordered Z.ltb
  /\ NoDup (map fst [("a", 5); ("b", 9); ("c", 7); ("d", 1)])
  /\ NoDup (active_delegates toy_dpos)
  /\ length (active_delegates toy_dpos) = 3%nat
  /\ forall a va,
       a ∈ active_delegates toy_dpos -> "d" ∉ active_delegates toy_dpos ->
       dict_get [("a", 5); ("b", 9); ("c", 7); ("d", 1)] a = Some va ->
       (va <? 1) = false.
Proof.
  assert (Hord : votes_ordered Z.ltb).
  { split.
    - intros a b Hab. apply Z.ltb_lt in Hab. apply Z.ltb_ge. lia.
    - intros a b c Hac. apply Z.ltb_lt in Hac.
      destruct (Z.ltb_spec a b); [left; reflexivity|right].
      apply Z.ltb_lt. lia. }
  assert (Hnd : NoDup (map fst [("a", 5); ("b", 9); ("c", 7); ("d", 1)])).
  { apply (bool_decide_unpack _). vm_compute. exact I. }
  split; [exact Hord|]. split; [exact Hnd|].
  destruct (dpos_elects_top_votes toy_rand Z.ltb
              [("a", 5); ("b", 9); ("c", 7); ("d", 1)] 3 0%nat Hord Hnd)
    as (Hdistinct & Hlen & _ & Htop & _).
  split; [exact Hdistinct|]. split; [exact (Hlen ltac:(lia))|].
  intros a va Ha Hd Hva. exact (Htop a "d" va 1 Ha Hd Hva eq_refl).
Defined.

Local Abbreviation toy_pbft_repeated :=
  (value_of (fst (PracticalBFT_init toy_rand ["a"; "a"; "a"; "a"] 1 0%nat))
            (mkPBFT [] 0 0 [])).
Local Abbreviation four_nodes := (["p"; "q"; "r"; "s"] : list string).
Local Abbreviation toy_pbft_four :=
  (value_of (fst (PracticalBFT_init toy_rand four_nodes 1 0%nat))
            (mkPBFT [] 0 0 [])).

Lemma pbft_round_decided_by_honest_quorum_witness :
  node_list toy_pbft <> []
  /\ node_list toy_pbft_repeated <> []
  /\ latest_block toy_chain = Ret toy_genesis
  /\ quorum toy_pbft <= Z.of_nat (size (heard toy_pbft))
  /\ Z.of_nat (size (heard toy_pbft_repeated)) < quorum toy_pbft_repeated
  /\ (exists res self' bc' w',
        run_round (ConsensusProtocol := PBFT_toy) 0 [] [] toy_pbft toy_chain 0%nat
        = (Ret res, self', bc', w')
        /\ success res = true)
  /\ (exists res self' bc' w',
        run_round (ConsensusProtocol := PBFT_toy) 0 [] [] toy_pbft_repeated
          toy_chain 0%nat
        = (Ret res, self', bc', w')
        /\ success res = false /\ block res = None /\ bc' = toy_chain).
Proof.
  assert (Hne : node_list toy_pbft <> []) by (vm_compute; discriminate).
  assert (Hne' : node_list toy_pbft_repeated <> []) by (vm_compute; discriminate).
  assert (HL : latest_block toy_chain = Ret toy_genesis) by reflexivity.
  assert (Hq : quorum toy_pbft <= Z.of_nat (size (heard toy_pbft)))
    by (vm_compute; discriminate).
  assert (Hq' : Z.of_nat (size (heard toy_pbft_repeated))
                < quorum toy_pbft_repeated)
    by (vm_compute; reflexivity).
  split; [exact Hne|]. split; [exact Hne'|]. split; [exact HL|].
  split; [exact Hq|]. split; [exact Hq'|]. split.
  - destruct (pbft_round_decided_by_honest_quorum toy_str plain_hex toy_time
                0%nat [] [] toy_pbft toy_chain toy_genesis 0%nat Hne HL)
      as (res & self' & bc' & w' & Hrun & _ & Hiff & _).
    exists res, self', bc', w'. split; [exact Hrun|].
    apply Hiff. split; [exact Hq|discriminate].
  - destruct (pbft_round_decided_by_honest_quorum toy_str plain_hex toy_time
                0%nat [] [] toy_pbft_repeated toy_chain toy_genesis 0%nat Hne' HL)
      as (res & self' & bc' & w' & Hrun & _ & _ & _ & Hfail).
    exists res, self', bc', w'. split; [exact Hrun|].
    destruct (Hfail Hq') as (H1 & H2 & H3 & _). repeat split; assumption.
Defined.

Lemma pbft_leader_rotation_witness :
  node_list toy_pbft <> []
  /\ latest_block toy_chain = Ret toy_genesis
  /\ exists rs self' bc' w',
       run_rounds (H := PBFT_toy) 0 three_rounds toy_pbft toy_chain 0%nat
       = (rs, self', bc', w')
       /\ map proposer rs = [Some "n0"; Some "n1"; Some "n2"]
       /\ pbft_view self' = 3.
Proof.
  assert (Hne : node_list toy_pbft <> []) by (vm_compute; discriminate).
  assert (HL : latest_block toy_chain = Ret toy_genesis) by reflexivity.
  split; [exact Hne|]. split; [exact HL|].
  destruct (pbft_leader_rotation toy_str plain_hex toy_time 0%nat three_rounds
              toy_pbft toy_chain toy_genesis 0%nat Hne HL)
    as (rs & self' & bc' & w' & Hrun & Hp & Hv & _).
  exists rs, self', bc', w'. split; [exact Hrun|].
  split; [rewrite Hp; vm_compute; reflexivity|].
  rewrite Hv. vm_compute. reflexivity.
Defined.

Lemma pbft_constructed_is_live_witness :
  NoDup four_nodes
  /\ toy_pbft_init four_nodes 1 0%nat = (Ret toy_pbft_four, 1%nat)
  /\ reachable (H := PBFT_toy) toy_pbft_four toy_pbft_four
  /\ latest_block toy_chain = Ret toy_genesis
  /\ hash toy_genesis <> None
  /\ length (honest_addresses toy_pbft_four) = 3%nat
  /\ quorum toy_pbft_four = 3
  /\ exists res self' bc' w' b,
       run_round (ConsensusProtocol := PBFT_toy) 0 [transfer 10 3] []
         toy_pbft_four toy_chain 0%nat
       = (Ret res, self', bc', w')
       /\ success res = true
       /\ block res = Some b
       /\ chain bc' = chain toy_chain ++ [b]
       /\ committed_count self' = 3.
Proof.
  assert (Hnd : NoDup four_nodes).
  { apply (bool_decide_unpack _). vm_compute. exact I. }
  assert (Hinit : toy_pbft_init four_nodes 1 0%nat = (Ret toy_pbft_four, 1%nat))
    by (vm_compute; reflexivity).
  assert (Hreach : reachable (H := PBFT_toy) toy_pbft_four toy_pbft_four)
    by apply reach_start.
  assert (HL : latest_block toy_chain = Ret toy_genesis) by reflexivity.
  assert (Hh : hash toy_genesis <> None) by discriminate.
  split; [exact Hnd|]. split; [exact Hinit|]. split; [exact Hreach|].
  split; [exact HL|]. split; [exact Hh|].
  destruct (pbft_constructed_is_live toy_str plain_hex toy_time toy_rand
              four_nodes 1 0%nat 1%nat toy_pbft_four toy_pbft_four 0%nat
              [transfer 10 3] [] toy_chain toy_genesis 0%nat
              Hnd Hinit Hreach HL Hh)
    as (Hlen & Hq & _ & res & self' & bc' & w' & b & Hrun & Hs & Hb & Hc & Hn).
  split; [exact Hlen|]. split; [exact Hq|].
  exists res, self', bc', w', b. repeat split; assumption.
Defined.

Lemma pbft_round_leaves_votes_witness :
  exists res self' bc' w',
    pbft_round_toy = (Ret res, self', bc', w')
    /\ map fst (pbft_nodes self') = map fst (pbft_nodes toy_pbft)
    /\ Forall (fun node =>
                 prepares_received node = heard toy_pbft
                 /\ commits_received node ⊆ heard toy_pbft
                 /\ (prepared node = true -> is_byzantine node = false)
                 /\ committed node = false)
              (dict_values (pbft_nodes self')).
Proof.
  pose (R := pbft_round_toy).
  assert (Hrun : pbft_round_toy
                 = (Ret (value_of (outcome_of R) default_result),
                    snd (fst (fst R)), snd (fst R), snd R))
    by (vm_compute; reflexivity).
  destruct (pbft_round_leaves_votes toy_str plain_hex toy_time
              0%nat [transfer 10 3] [] toy_pbft _ toy_chain _ 0%nat _ _ Hrun)
    as (_ & Hk & Hall).
  eexists _, _, _, _. split; [exact Hrun|]. split; assumption.
Defined.

Lemma pow_round_miner_and_difficulty_witness :
  exists res self' bc' w' miner b,
    pow_round_toy = (Ret res, self', bc', w')
    /\ self' = mkPoW 1
    /\ proposer res = Some miner
    /\ miner ∈ ["m1"; "m2"]
    /\ block res = Some b
    /\ qualifies toy_str checksum_hex 1 b = true
    /\ 1 <= Z.of_nat (leading_zeros (compute_hash toy_str checksum_hex b)).
Proof.
  pose (R := pow_round_toy).
  assert (Hrun : pow_round_toy
                 = (Ret (value_of (outcome_of R) default_result),
                    snd (fst (fst R)), snd (fst R), snd R))
    by (vm_compute; reflexivity).
  destruct (pow_round_miner_and_difficulty toy_str toy_fmt checksum_hex toy_time
              toy_rand Z.sub 50%nat [] ["m1"; "m2"] (mkPoW 1) _ toy_pow_chain _
              0%nat _ _ Hrun)
    as (Hself & _ & Hsome).
  destruct (Hsome ltac:(discriminate))
    as (miner & b & Hp & Hin & Hb & Hq & Hz & _).
  eexists _, _, _, _, miner, b. split; [exact Hrun|].
  split; [exact Hself|]. split; [exact Hp|]. split; [exact Hin|].
  split; [exact Hb|]. split; [exact Hq|]. exact (Hz ltac:(cbn; lia)).
Defined.

Lemma proposed_block_contents_witness :
  exists res self' bc' w' b p,
    dpos_round_toy = (Ret res, self', bc', w')
    /\ block res = Some b
    /\ proposer res = Some p
    /\ proposed_on toy_str plain_hex toy_chain [transfer 10 3] p b
    /\ nonce b = 0.
Proof.
  pose (R := dpos_round_toy).
  assert (Hrun : dpos_round_toy
                 = (Ret (value_of (outcome_of R) default_result),
                    snd (fst (fst R)), snd (fst R), snd R))
    by (vm_compute; reflexivity).
  assert (Hb : block (value_of (outcome_of R) default_result)
               = Some (hashed toy_str plain_hex
                         (mkBlock 1 0 [transfer 10 3]
                            (toy_hash (genesis_draft 0)) 0
                            (proposer (value_of (outcome_of R) default_result))
                            None)))
    by (vm_compute; reflexivity).
  destruct (proposed_block_contents toy_str toy_fmt plain_hex toy_time toy_rand
              Z.sub Z.mul Z.add 1 (fun z : Z => z) toy_sum toy_is_zero
              toy_choices 0%nat [transfer 10 3] [] toy_chain (snd (fst R))
              0%nat (snd R) (value_of (outcome_of R) default_result)
              (hashed toy_str plain_hex
                 (mkBlock 1 0 [transfer 10 3] (toy_hash (genesis_draft 0)) 0
                    (proposer (value_of (outcome_of R) default_result)) None)))
    as (_ & _ & Hdpos & _).
  destruct (Hdpos toy_dpos _ Hrun Hb) as (p & Hp & Hon & Hn).
  eexists _, _, _, _, _, p. split; [exact Hrun|]. split; [exact Hb|].
  repeat split; first [exact Hp | exact Hn | apply Hon].
Defined.

Local Abbreviation toy_nodes :=
  ([mkNetworkNode "a" 100 0 true 0 None; mkNetworkNode "b" 100 0 true 0 None;
    mkNetworkNode "c" 100 0 false 0 None] : list (NetworkNode (float := Z))).
Local Abbreviation toy_sim :=
  (NetworkSimulator_init toy_str plain_hex 0 toy_dpos toy_nodes None).
Local Abbreviation toy_generate :=
  (generate_transactions toy_str plain_hex toy_time toy_rand (fun z : Z => z)
     Z.ltb toy_uniform).
Local Abbreviation toy_run :=
  (run toy_str plain_hex toy_time toy_rand (fun z : Z => z) Z.ltb toy_uniform
     toy_seed (H := DPoS_toy)).
Local Abbreviation toy_config := (Some (mkConfig 3 2 (Some 7))).
Local Abbreviation default_report :=
  (mkReport (float := Z) "" (mkConfig 0 0 None) [] 0 0 0 0).
Local Abbreviation toy_run_3 := (toy_run 0%nat toy_config toy_sim 0%nat).

Lemma toy_amounts_positive :
  amounts_positive (fun z : Z => z) Z.ltb toy_uniform.
Proof. intros w. apply Z.ltb_lt. cbn [toy_uniform fst]. lia. Defined.

Lemma generate_transactions_between_nodes_witness :
  amounts_positive (fun z : Z => z) Z.ltb toy_uniform
  /\ (2 <= length (sim_nodes toy_sim))%nat
  /\ NoDup (map node_address (sim_nodes toy_sim))
  /\ exists txs w',
       toy_generate toy_sim 2 0%nat = (Ret txs, w')
       /\ length txs = 2%nat
       /\ Forall (drawn_between toy_str plain_hex (sim_nodes toy_sim)) txs
       /\ Forall (fun tx => sender tx <> recipient tx) txs.
Proof.
  assert (Hlen : (2 <= length (sim_nodes toy_sim))%nat) by (cbn; lia).
  assert (Hnd : NoDup (map node_address (sim_nodes toy_sim))).
  { apply (bool_decide_unpack _). vm_compute. exact I. }
  split; [exact toy_amounts_positive|]. split; [exact Hlen|].
  split; [exact Hnd|].
  destruct (generate_transactions_between_nodes toy_str plain_hex toy_time
              toy_rand (fun z : Z => z) Z.ltb toy_uniform toy_sim 2 0%nat
              toy_amounts_positive) as [_ Hgen].
  destruct (Hgen Hlen) as (txs & w' & Hrun & Hn & Hall & Hdiff).
  exists txs, w'. split; [exact Hrun|]. split; [exact Hn|].
  split; [exact Hall|exact (Hdiff Hnd)].
Defined.

Lemma run_report_accounting_witness :
  side_effect_consistent DPoS_toy
  /\ exists rep self' w',
       toy_run_3 = (Ret rep, self', w')
       /\ map round_number (report_rounds rep) = [1; 2; 3]
       /\ successful_rounds rep + failed_rounds rep = 3
       /\ final_chain_height rep = 1 + successful_rounds rep
       /\ total_transactions_processed rep = successful_rounds rep * 2.
Proof.
  assert (Hcons : side_effect_consistent DPoS_toy)
    by exact (dpos_consistent toy_str toy_fmt plain_hex toy_time).
  split; [exact Hcons|].
  pose (R := toy_run_3).
  assert (Hrun : toy_run_3
                 = (Ret (value_of (fst (fst R)) default_report),
                    snd (fst R), snd R))
    by (vm_compute; reflexivity).
  destruct (run_report_accounting toy_str plain_hex toy_time toy_rand
              (fun z : Z => z) Z.ltb toy_uniform toy_seed DPoS_toy
              0%nat toy_config toy_sim _ 0%nat _ _ Hcons Hrun)
    as (_ & _ & Hnum & Hlen & _ & _ & _ & Hsum & Hfinal & Htotal & _).
  eexists _, _, _. split; [exact Hrun|].
  split; [exact Hnum|]. split; [rewrite Hsum, Hlen; reflexivity|].
  split; [exact Hfinal|exact Htotal].
Defined.

Lemma run_effect_on_simulator_witness :
  side_effect_consistent DPoS_toy
  /\ exists rep self' w',
       toy_run_3 = (Ret rep, self', w')
       /\ chain (sim_blockchain self')
          = chain (sim_blockchain toy_sim) ++ omap appended (report_rounds rep)
       /\ pending_transactions (sim_blockchain self') = []
       /\ map balance (sim_nodes self') = [100; 100; 100]
       /\ map node_blocks_produced (sim_nodes self')
          = map (fun node => node_blocks_produced node
                             + credited (report_rounds rep) (node_address node))
                toy_nodes.
Proof.
  assert (Hcons : side_effect_consistent DPoS_toy)
    by exact (dpos_consistent toy_str toy_fmt plain_hex toy_time).
  split; [exact Hcons|].
  pose (R := toy_run_3).
  assert (Hrun : toy_run_3
                 = (Ret (value_of (fst (fst R)) default_report),
                    snd (fst R), snd R))
    by (vm_compute; reflexivity).
  destruct (run_effect_on_simulator toy_str plain_hex toy_time toy_rand
              (fun z : Z => z) Z.ltb toy_uniform toy_seed DPoS_toy
              0%nat toy_config toy_sim _ 0%nat _ _ Hcons Hrun)
    as (Hch & Hp & _ & _ & Hbal & _ & _ & Hnodes).
  assert (Hnd : NoDup (map node_address (sim_nodes toy_sim))).
  { apply (bool_decide_unpack _). vm_compute. exact I. }
  eexists _, _, _. split; [exact Hrun|].
  split; [exact Hch|]. split; [exact Hp|]. split; [exact Hbal|].
  exact (Hnodes Hnd).
Defined.

Lemma dpos_and_pbft_runs_succeed_witness :
  amounts_positive (fun z : Z => z) Z.ltb toy_uniform
  /\ active_delegates (consensus toy_sim) <> []
  /\ latest_block (sim_blockchain toy_sim) = Ret toy_genesis
  /\ hash toy_genesis <> None
  /\ exists rep self' w',
       toy_run_3 = (Ret rep, self', w')
       /\ successful_rounds rep = 3
       /\ failed_rounds rep = 0
       /\ final_chain_height rep = 4
       /\ toy_is_valid (sim_blockchain self') = true.
Proof.
  assert (Hne : active_delegates (consensus toy_sim) <> [])
    by (vm_compute; discriminate).
  assert (HL : latest_block (sim_blockchain toy_sim) = Ret toy_genesis)
    by reflexivity.
  assert (Hh : hash toy_genesis <> None) by discriminate.
  split; [exact toy_amounts_positive|]. split; [exact Hne|].
  split; [exact HL|]. split; [exact Hh|].
  destruct (dpos_and_pbft_runs_succeed toy_str toy_fmt plain_hex toy_time
              toy_rand (fun z : Z => z) Z.ltb toy_uniform toy_seed
              0%nat toy_config 0%nat toy_amounts_positive) as (Hdpos & _ & _).
  destruct (Hdpos toy_sim toy_genesis Hne HL Hh)
    as (rep & self' & w' & Hrun & Hs & Hf & Hfinal & Hv).
  exists rep, self', w'. split; [exact Hrun|]. split; [exact Hs|].
  split; [exact Hf|]. split; [exact Hfinal|]. apply Hv. reflexivity.
Defined.

Lemma tx_id_reads_concatenation_witness :
  "ab" +:+ "c" = "a" +:+ "bc"
  /\ sender (Transaction_init toy_str plain_hex "ab" "c" 5 3 None)
     <> sender (Transaction_init toy_str plain_hex "a" "bc" 5 3 None)
  /\ tx_id (Transaction_init toy_str plain_hex "ab" "c" 5 3 None)
     = tx_id (Transaction_init toy_str plain_hex "a" "bc" 5 3 None)
  /\ toy_hash (mkBlock 1 0 [Transaction_init toy_str plain_hex "ab" "c" 5 3 None]
                       "" 0 None None)
     = toy_hash (mkBlock 1 0 [Transaction_init toy_str plain_hex "a" "bc" 5 3 None]
                         "" 0 None None).
Proof.
  assert (Hjoin : "ab" +:+ "c" = "a" +:+ "bc") by reflexivity.
  split; [exact Hjoin|]. split; [discriminate|].
  destruct (tx_id_reads_concatenation toy_str plain_hex "ab" "c" "a" "bc" 5 3
              Hjoin) as (_ & Hid & Hblock).
  split; [exact Hid|].
  exact (Hblock (mkBlock 1 0 [] "" 0 None None) [] []).
Defined.

Local Abbreviation toy_pow_sim :=
  (NetworkSimulator_init toy_str checksum_hex 0 (mkPoW 1) toy_nodes None).
Local Abbreviation toy_pow_run :=
  (run toy_str checksum_hex toy_time toy_rand (fun z : Z => z) Z.ltb toy_uniform
     toy_seed (H := PoW_toy) 60 (Some (mkConfig 2 1 None)) toy_pow_sim 0%nat).

Lemma pow_run_proposers_are_active_witness :
  active_addresses toy_pow_sim = ["a"; "b"]
  /\ exists rep self' w',
       toy_pow_run = (Ret rep, self', w')
       /\ length (report_rounds rep) = 2%nat
       /\ Forall (fun r =>
                    exists node, node ∈ toy_nodes
                                 /\ is_active node = true
                                 /\ proposer (consensus_result r)
                                    = Some (node_address node))
                 (report_rounds rep).
Proof.
  assert (Hactive : active_addresses toy_pow_sim = ["a"; "b"]) by reflexivity.
  split; [exact Hactive|].
  pose (R := toy_pow_run).
  assert (Hrun : toy_pow_run
                 = (Ret (value_of (fst (fst R)) default_report),
                    snd (fst R), snd R))
    by (vm_compute; reflexivity).
  assert (Hlen : length (report_rounds (value_of (fst (fst R)) default_report))
                 = 2%nat) by (vm_compute; reflexivity).
  destruct (pow_run_proposers_are_active toy_str toy_fmt checksum_hex toy_time
              toy_rand Z.sub (fun z : Z => z) Z.ltb toy_uniform toy_seed
              60%nat (Some (mkConfig 2 1 None)) toy_pow_sim _ 0%nat _ _ Hrun)
    as [Hall _].
  eexists _, _, _. split; [exact Hrun|]. split; [exact Hlen|].
  eapply Forall_impl; [exact Hall|].
  intros r [(node & Hin & Hact & Hp & _)|(Hnone & _)].
  - exists node. repeat split; assumption.
  - rewrite Hactive in Hnone. discriminate.
Defined.

Lemma dpos_scenario_succeeds_witness :
  amounts_positive (fun z : Z => z) Z.ltb toy_uniform
  /\ 1 <= 3
  /\ 1 <= 2
  /\ exists rep w',
       run_dpos_scenario toy_str toy_fmt plain_hex toy_time toy_rand Z.mul
         (fun z : Z => z) Z.ltb toy_uniform toy_seed 0 3 2 4 (Some 42) 0%nat
       = (Ret rep, w')
       /\ successful_rounds rep = 4
       /\ failed_rounds rep = 0
       /\ final_chain_height rep = 5.
Proof.
  assert (H3 : 1 <= 3) by lia.
  assert (H2 : 1 <= 2) by lia.
  split; [exact toy_amounts_positive|]. split; [exact H3|]. split; [exact H2|].
  destruct (dpos_scenario_succeeds toy_str toy_fmt plain_hex toy_time toy_rand
              Z.mul (fun z : Z => z) Z.ltb toy_uniform toy_seed 0%nat 3 2 4
              (Some 42) 0%nat toy_amounts_positive H3 H2)
    as (rep & w' & Hrun & Hs & Hf & Hfinal & _).
  exists rep, w'. repeat split; assumption.
Defined.

Lemma pbft_scenario_succeeds_witness :
  no_collision_among checksum_hex
    (created_texts toy_str toy_time (fun i => "pbft-node-" +:+ str_int i) 0
       4 0%nat)
  /\ amounts_positive (fun z : Z => z) Z.ltb toy_uniform
  /\ (4 - 1) / 3 < 2
  /\ 0 <= 1 <= (4 - 1) / 3
  /\ fst (run_pbft_scenario toy_str checksum_hex toy_time toy_rand
            (fun z : Z => z) Z.ltb toy_uniform toy_seed 0 4 2 3 (Some 42) 0%nat)
     = Raise (ValueError (tolerance_message 4 2))
  /\ exists rep w',
       run_pbft_scenario toy_str checksum_hex toy_time toy_rand (fun z : Z => z)
         Z.ltb toy_uniform toy_seed 0 4 1 3 (Some 42) 0%nat
       = (Ret rep, w')
       /\ successful_rounds rep = 3
       /\ failed_rounds rep = 0
       /\ final_chain_height rep = 4.
Proof.
  assert (Hcf : no_collision_among checksum_hex
                  (created_texts toy_str toy_time
                     (fun i => "pbft-node-" +:+ str_int i) 0 4 0%nat)).
  { intros x y Hx Hy H.
    let l := eval vm_compute in
               (created_texts toy_str toy_time
                  (fun i => "pbft-node-" +:+ str_int i) 0 4 0%nat) in
    change (x ∈ l) in Hx; change (y ∈ l) in Hy.
    repeat (apply elem_of_cons in Hx as [->|Hx]);
      try (apply elem_of_nil in Hx; contradiction);
      repeat (apply elem_of_cons in Hy as [->|Hy]);
      try (apply elem_of_nil in Hy; contradiction);
      first [reflexivity | vm_compute in H; discriminate]. }
  assert (Hhigh : (4 - 1) / 3 < 2) by (vm_compute; reflexivity).
  assert (Hin : 0 <= 1 <= (4 - 1) / 3) by (vm_compute; split; discriminate).
  split; [exact Hcf|]. split; [exact toy_amounts_positive|].
  split; [exact Hhigh|]. split; [exact Hin|]. split.
  - destruct (pbft_scenario_succeeds toy_str checksum_hex toy_time toy_rand
                (fun z : Z => z) Z.ltb toy_uniform toy_seed 0%nat 4 2 3
                (Some 42) 0%nat) as (_ & _ & Hraise & _).
    exact (Hraise Hhigh).
  - destruct (pbft_scenario_succeeds toy_str checksum_hex toy_time toy_rand
                (fun z : Z => z) Z.ltb toy_uniform toy_seed 0%nat 4 1 3
                (Some 42) 0%nat) as (_ & _ & _ & Hok).
    destruct (Hok Hin Hcf toy_amounts_positive) as (rep & w' & Hrun & Hs & Hf & Hfinal).
    exists rep, w'. repeat split; assumption.
Defined.
